(** * covid_deaths: the tabular query pipeline of [app.py] and the
      diagnostic script [scripts/check_data.py]

    The dashboard is a straight-line script over one [pandas] table.  A
    table is modelled row-major: a list of column labels and a list of
    rows, each row carrying its index label and one cell per column.
    Every [pandas] call of the script is a function on such tables; calls
    that can raise return a [Result].

    Frames produced by [read_csv] are rectangular and have unique column
    labels; the definitions below read a row through its column position.

    Numeric cells are only ever compared (never added) by the table
    operations modelled here, so a finite float is represented there by
    its rank in [Z].  The correlation heatmap does arithmetic: it is
    modelled on the IEEE doubles themselves, as the matrix [corr] hands
    to its kernel. *)

From Stdlib Require Import List String Ascii ZArith Bool Arith Lia.
From Stdlib Require Import Permutation Sorted.
From Stdlib Require Import PrimFloat.
From Stdlib Require Uint63.
Import ListNotations.

Set Implicit Arguments.

(* ================================================================== *)
(** ** Exceptions and results *)

Inductive Exception : Type :=
| KeyError (name : string)   (* a column label that is not in the frame *)
| TypeError                  (* values of different kinds were compared  *)
| ReadError (msg : string)   (* anything the pandas readers raise        *)
| WidgetError (widget : string) (* a Streamlit widget refuses its arguments *)
| AttributeError.            (* a method asked of a value that lacks it  *)

Inductive Result (A : Type) : Type :=
| Ok (a : A)
| Raise (e : Exception).

Arguments Ok {A} a.
Arguments Raise {A} e.

Definition bind {A B : Type} (m : Result A) (k : A -> Result B) : Result B :=
  match m with
  | Ok a => k a
  | Raise e => Raise e
  end.

Notation "x <- m ;; k" := (bind m (fun x => k))
  (at level 61, m at next level, right associativity).

(* ================================================================== *)
(** ** Cells, rows, frames *)

(** A cell of a frame: missing ([NaN], [NaT], [None]), a number, a
    string, or a timestamp (nanoseconds since the epoch). *)
Inductive cell : Type :=
| NA
| Num (z : Z)
| Str (s : string)
| Timestamp (t : Z).

Record Row : Type := mkRow { label : nat; values : list cell }.

Record DataFrame : Type := mkDF { columns : list string; rows : list Row }.

Definition isna (c : cell) : bool :=
  match c with NA => true | _ => false end.

Definition notna (c : cell) : bool := negb (isna c).

(** Kind of a cell; comparing two present cells of different kinds
    raises [TypeError] in Python. *)
Definition kind (c : cell) : nat :=
  match c with NA => 3 | Num _ => 0 | Str _ => 1 | Timestamp _ => 2 end.

(** The order a sort puts cells in: by value inside a kind, missing
    cells after every present one ([na_position="last"]). *)
Definition cell_compare (a b : cell) : comparison :=
  match a, b with
  | Num x, Num y => Z.compare x y
  | Str x, Str y => String.compare x y
  | Timestamp x, Timestamp y => Z.compare x y
  | _, _ => Nat.compare (kind a) (kind b)
  end.

(** Elementwise [==] and [<]: false as soon as one side is missing. *)
Definition cell_eqb (a b : cell) : bool :=
  notna a && notna b &&
  match cell_compare a b with Eq => true | _ => false end.

Definition cell_ltb (a b : cell) : bool :=
  notna a && notna b &&
  match cell_compare a b with Lt => true | _ => false end.

Definition cell_leb (a b : cell) : bool :=
  notna a && notna b &&
  match cell_compare a b with Gt => false | _ => true end.

(** [sort_le a b]: [a] may stand before [b] in an ascending sort. *)
Definition sort_le (a b : cell) : Prop := cell_compare a b <> Gt.

(** All present cells of a column have one kind, so they can be
    compared with each other. *)
Fixpoint same_kind (cs : list cell) : bool :=
  match cs with
  | [] => true
  | c :: rest =>
      forallb (fun d => isna c || isna d || Nat.eqb (kind c) (kind d)) rest
      && same_kind rest
  end.

(** [Index.get_loc]: position of a column label. *)
Fixpoint get_loc (name : string) (cols : list string) : option nat :=
  match cols with
  | [] => None
  | c :: cs =>
      if String.eqb c name then Some 0 else option_map S (get_loc name cs)
  end.

(** Cell of a row at a column position. *)
Definition iloc (k : nat) (r : Row) : cell := nth k (values r) NA.

(** [df[name]] as a reader of rows; [KeyError] when the label is absent. *)
Definition getitem (df : DataFrame) (name : string) : Result (Row -> cell) :=
  match get_loc name (columns df) with
  | Some k => Ok (iloc k)
  | None => Raise (KeyError name)
  end.

(** The Series [df[name]] given its reader. *)
Definition series (col : Row -> cell) (df : DataFrame) : list cell :=
  map col (rows df).

(** [df[mask]]: the rows where the boolean mask holds, columns kept. *)
Definition mask_rows (p : Row -> bool) (df : DataFrame) : DataFrame :=
  mkDF (columns df) (filter p (rows df)).

(** [Series.isin(values)] for a list of strings. *)
Definition isin (locations : list string) (c : cell) : bool :=
  existsb (fun s => cell_eqb c (Str s)) locations.

(** [Series.max()] and [Series.min()]: missing cells skipped, missing
    when nothing is present. *)
Definition cell_max (a b : cell) : cell :=
  match a, b with
  | NA, _ => b
  | _, NA => a
  | _, _ => match cell_compare a b with Lt => b | _ => a end
  end.

Definition cell_min (a b : cell) : cell :=
  match a, b with
  | NA, _ => b
  | _, NA => a
  | _, _ => match cell_compare a b with Gt => b | _ => a end
  end.

Definition series_max (cs : list cell) : cell := fold_left cell_max cs NA.
Definition series_min (cs : list cell) : cell := fold_left cell_min cs NA.

(** The reductions compare the cells, so a column of mixed kinds raises. *)
Definition checked_max (cs : list cell) : Result cell :=
  if same_kind cs then Ok (series_max cs) else Raise TypeError.

Definition checked_min (cs : list cell) : Result cell :=
  if same_kind cs then Ok (series_min cs) else Raise TypeError.

(** Last element of a list, if any. *)
Fixpoint last_opt {A : Type} (l : list A) : option A :=
  match l with
  | [] => None
  | [x] => Some x
  | _ :: rest => last_opt rest
  end.

(* ================================================================== *)
(** ** Loading (app.py, lines 15-27) *)

(** [pd.to_datetime(..., errors="coerce")] on one cell.  [parse] is the
    library's parser of strings and numbers: [None] when the value is
    not a date.  A timestamp stays, a missing cell stays missing. *)
Definition to_datetime_coerce (parse : cell -> option Z) (c : cell) : cell :=
  match c with
  | NA => NA
  | Timestamp t => Timestamp t
  | _ => match parse c with
         | Some t => Timestamp t
         | None => NA
         end
  end.

(** Replace the cell at position [k] of a list. *)
Fixpoint map_nth {A : Type} (f : A -> A) (k : nat) (l : list A) : list A :=
  match l, k with
  | [], _ => []
  | x :: rest, 0 => f x :: rest
  | x :: rest, S k' => x :: map_nth f k' rest
  end.

(** [df[name] = f(df[name])] for an existing column at position [k]. *)
Definition assign_column (k : nat) (f : cell -> cell) (df : DataFrame)
  : DataFrame :=
  mkDF (columns df)
       (map (fun r => mkRow (label r) (map_nth f k (values r))) (rows df)).

(** [if "date" in df.columns: df["date"] = pd.to_datetime(df["date"],
    errors="coerce")] *)
Definition coerce_dates (parse : cell -> option Z) (df : DataFrame)
  : DataFrame :=
  match get_loc "date" (columns df) with
  | Some k => assign_column k (to_datetime_coerce parse) df
  | None => df
  end.

(** The load of both sidebar branches: what [pd.read_csv] returned,
    then the date coercion. *)
Definition load_dataset (parse : cell -> option Z) (csv : Result DataFrame)
  : Result DataFrame :=
  df <- csv ;; Ok (coerce_dates parse df).

(* ================================================================== *)
(** ** Country slice (app.py, line 39) *)

(** [country_df = df[df["location"] == country]] *)
Definition sliceByLocation (df : DataFrame) (country : string)
  : Result DataFrame :=
  loc <- getitem df "location" ;;
  Ok (mask_rows (fun r => cell_eqb (loc r) (Str country)) df).

(* ================================================================== *)
(** ** Sidebar filters (app.py, lines 160-177) *)

(** [date_col = "date" if "date" in df.columns else None] *)
Definition date_col_of (df : DataFrame) : option string :=
  match get_loc "date" (columns df) with
  | Some _ => Some "date"%string
  | None => None
  end.

(** [df = df[df["location"].isin(locations)]] *)
Definition filter_locations (df : DataFrame) (locations : list string)
  : Result DataFrame :=
  loc <- getitem df "location" ;;
  Ok (mask_rows (fun r => isin locations (loc r)) df).

(** [df = df[(df[date_col] >= start) & (df[date_col] <= end)]] *)
Definition filter_dates (df : DataFrame) (date_col : string) (start stop : Z)
  : Result DataFrame :=
  d <- getitem df date_col ;;
  if same_kind (Timestamp start :: series d df)
  then Ok (mask_rows (fun r => cell_leb (Timestamp start) (d r)
                               && cell_leb (d r) (Timestamp stop)) df)
  else Raise TypeError.

(** The filter block once the date widget has returned.  [date_range]
    is what the widget gave back: [Some (start, end)] for a pair of
    dates, [None] otherwise. *)
Definition filterBySelection (df : DataFrame) (locations : list string)
    (date_range : option (Z * Z)) : Result DataFrame :=
  let date_col := date_col_of df in
  df1 <- filter_locations df locations ;;
  match date_col with
  | None => Ok df1
  | Some dc =>
      d <- getitem df1 dc ;;
      _ <- checked_min (series d df1) ;;
      _ <- checked_max (series d df1) ;;
      match date_range with
      | Some (start, stop) => filter_dates df1 dc start stop
      | None => Ok df1
      end
  end.

(* ================================================================== *)
(** ** Sorting by a column ([DataFrame.sort_values], one key) *)

(** [l.take(indexer)]: the elements of [l] at the given positions. *)
Fixpoint take {A : Type} (l : list A) (ix : list nat) : list A :=
  match ix with
  | [] => []
  | i :: rest =>
      match nth_error l i with
      | Some x => x :: take l rest
      | None => take l rest
      end
  end.

(** What [numpy.argsort] promises for every [kind]: the indexer is a
    permutation of the positions and reads the keys in ascending order.
    The default [kind="quicksort"] promises nothing about equal keys.
    The script hands it the present keys of one column only. *)
Definition argsort_spec (argsort : list cell -> list nat) : Prop :=
  forall ks : list cell,
    Permutation (argsort ks) (seq 0 (List.length ks)) /\
    StronglySorted sort_le (take ks (argsort ks)).

(** A stable [argsort] keeps equal keys in their original order. *)
Definition argsort_stable (argsort : list cell -> list nat) : Prop :=
  forall ks : list cell,
    StronglySorted
      (fun i j => nth i ks NA = nth j ks NA -> i < j) (argsort ks).

(** [pandas.core.sorting.nargsort], ascending, [na_position="last"]:
    the present keys are sorted by [argsort], the positions of the
    missing ones follow in their original order. *)
Definition nargsort (argsort : list cell -> list nat) (items : list cell)
  : list nat :=
  let idx := seq 0 (List.length items) in
  let non_nans := filter notna items in
  let non_nan_idx := filter (fun i => notna (nth i items NA)) idx in
  let nan_idx := filter (fun i => isna (nth i items NA)) idx in
  take non_nan_idx (argsort non_nans) ++ nan_idx.

(** The same with [ascending=False]: keys and positions are reversed,
    sorted ascending, and the indexer is reversed again. *)
Definition nargsort_desc (argsort : list cell -> list nat) (items : list cell)
  : list nat :=
  let idx := seq 0 (List.length items) in
  let non_nans := rev (filter notna items) in
  let non_nan_idx := rev (filter (fun i => notna (nth i items NA)) idx) in
  let nan_idx := filter (fun i => isna (nth i items NA)) idx in
  rev (take non_nan_idx (argsort non_nans)) ++ nan_idx.

(** The rows taken in the order of the indexer of their keys. *)
Definition sort_rows (argsort : list cell -> list nat) (key : Row -> cell)
    (rs : list Row) : list Row :=
  take rs (nargsort argsort (map key rs)).

(** [df.sort_values(by)]; the keys are compared, so a column of mixed
    kinds raises. *)
Definition sort_values (argsort : list cell -> list nat) (by_ : string)
    (df : DataFrame) : Result DataFrame :=
  key <- getitem df by_ ;;
  if same_kind (series key df)
  then Ok (mkDF (columns df) (sort_rows argsort key (rows df)))
  else Raise TypeError.

(** Two sorters that meet [argsort_spec]: insertion of the positions
    from the right.  [stable_argsort] keeps equal keys in input order,
    [reversing_argsort] puts them in reverse input order. *)
Fixpoint insert_idx (stays : cell -> cell -> bool) (ks : list cell) (i : nat)
    (sorted : list nat) : list nat :=
  match sorted with
  | [] => [i]
  | j :: rest =>
      if stays (nth j ks NA) (nth i ks NA)
      then j :: insert_idx stays ks i rest
      else i :: j :: rest
  end.

Definition insertion_argsort (stays : cell -> cell -> bool) (ks : list cell)
  : list nat :=
  fold_right (insert_idx stays ks) [] (seq 0 (List.length ks)).

Definition compare_ltb (a b : cell) : bool :=
  match cell_compare a b with Lt => true | _ => false end.

Definition stable_argsort : list cell -> list nat :=
  insertion_argsort compare_ltb.

Definition reversing_argsort : list cell -> list nat :=
  insertion_argsort (fun kj ki => negb (compare_ltb ki kj)).

(* ================================================================== *)
(** ** Latest row per location (app.py, line 207) *)

(** [groupby(key).tail(1)]: a row is kept when its key is present and
    no later row has the same key; the order of the frame is kept. *)
Fixpoint groupby_tail1 (key : Row -> cell) (rs : list Row) : list Row :=
  match rs with
  | [] => []
  | r :: rest =>
      if notna (key r) && negb (existsb (fun r' => cell_eqb (key r') (key r)) rest)
      then r :: groupby_tail1 key rest
      else groupby_tail1 key rest
  end.

(** [latest = df.sort_values(date_col).groupby("location").tail(1)];
    [date_col] is [None] when the frame of the sidebar had no [date]. *)
Definition latestPerLocation (argsort : list cell -> list nat)
    (date_col : option string) (df : DataFrame) : Result DataFrame :=
  match date_col with
  | None => Raise (KeyError "None")
  | Some dc =>
      sorted <- sort_values argsort dc df ;;
      loc <- getitem sorted "location" ;;
      Ok (mkDF (columns sorted) (groupby_tail1 loc (rows sorted)))
  end.

(** The row picked for a location. *)
Definition row_of (loc : Row -> cell) (g : cell) (rs : list Row) : option Row :=
  find (fun r => cell_eqb (loc r) g) rs.

(** The rows of a location, in the order of the frame. *)
Definition group_rows (loc : Row -> cell) (g : cell) (rs : list Row) : list Row :=
  filter (fun r => cell_eqb (loc r) g) rs.

(* ================================================================== *)
(** ** Top countries by total cases (app.py, lines 120-122) *)

(** The present keys of a column, first occurrences only. *)
Fixpoint unique (cs : list cell) : list cell :=
  match cs with
  | [] => []
  | c :: rest =>
      if isna c then unique rest
      else c :: filter (fun d => negb (cell_eqb d c)) (unique rest)
  end.

(** The group labels of [groupby(key)]: present keys, each once, sorted
    ([sort=True], [dropna=True]). *)
Definition group_keys (key : Row -> cell) (rs : list Row) : list cell :=
  let u := unique (map key rs) in take u (stable_argsort u).

(** [groupby(key)[metric].max()]: one entry per group label. *)
Definition groupby_max (key metric : Row -> cell) (rs : list Row)
  : list (cell * cell) :=
  map (fun g => (g, series_max (map metric (group_rows key g rs))))
      (group_keys key rs).

Definition negate (c : cell) : cell :=
  match c with
  | Num z => Num (- z)
  | Timestamp t => Timestamp (- t)
  | _ => c
  end.

(** [Series.nlargest(n)] with [keep="first"].  When the series has at
    most [n] entries it is sorted descending with the default sorter and
    cut; otherwise the present values are ordered by a stable sort of
    their negations and the missing ones fill up the end. *)
Definition nlargest (argsort : list cell -> list nat) (n : nat)
    (s : list (cell * cell)) : list (cell * cell) :=
  if Nat.eqb n 0 then []
  else if Nat.leb (List.length s) n then
    firstn n (take s (nargsort_desc argsort (map snd s)))
  else
    let dropped := filter (fun kv => notna (snd kv)) s in
    let nan_index := filter (fun kv => isna (snd kv)) s in
    let inds := firstn n (stable_argsort (map negate (map snd dropped))) in
    firstn n (take dropped inds ++ nan_index).

(** [nlargest] accepts numeric and datetime columns only. *)
Definition numeric_dtype (cs : list cell) : bool :=
  forallb (fun c => match c with NA | Num _ => true | _ => false end) cs.

Definition datetime_dtype (cs : list cell) : bool :=
  forallb (fun c => match c with NA | Timestamp _ => true | _ => false end) cs.

(** [Series.reset_index()]: labels and values become two columns under a
    fresh range index. *)
Definition reset_index (index_name value_name : string)
    (s : list (cell * cell)) : DataFrame :=
  mkDF [index_name; value_name]
       (map (fun ikv => mkRow (fst ikv) [fst (snd ikv); snd (snd ikv)])
            (combine (seq 0 (List.length s)) s)).

(** [latest_date = df["date"].max()]
    [latest_df = df[df["date"] == latest_date]]
    [latest_df.groupby("location")["total_cases"].max().nlargest(n).reset_index()] *)
Definition topNByMetric (argsort : list cell -> list nat) (df : DataFrame)
    (n : nat) : Result DataFrame :=
  date <- getitem df "date" ;;
  latest_date <- checked_max (series date df) ;;
  let latest_df := mask_rows (fun r => cell_eqb (date r) latest_date) df in
  loc <- getitem latest_df "location" ;;
  metric <- getitem latest_df "total_cases" ;;
  if numeric_dtype (series metric df) || datetime_dtype (series metric df)
  then Ok (reset_index "location" "total_cases"
             (nlargest argsort n (groupby_max loc metric (rows latest_df))))
  else Raise TypeError.

(** The script asks for ten. *)
Definition top10 (argsort : list cell -> list nat) (df : DataFrame)
  : Result DataFrame :=
  topNByMetric argsort df 10.

(** Descending with the missing values last. *)
Definition desc_le (a b : cell) : Prop :=
  match a, b with
  | _, NA => True
  | NA, _ => False
  | _, _ => cell_compare b a <> Gt
  end.

(* ================================================================== *)
(** ** Correlation heatmap (app.py, lines 104-107)

    [df[numeric_cols].corr()] hands the numeric columns, as a matrix of
    doubles with [nan] for the missing cells, one list per row, to the
    kernel [nancorr] of pandas (Pearson, [min_periods = 1]). *)

(** The accumulators of the kernel for one pair of columns. *)
Record Welford : Type := mkWelford {
  nobs : Z;
  meanx : float;
  meany : float;
  ssqdmx : float;
  ssqdmy : float;
  covxy : float
}.

Definition welford_start : Welford := mkWelford 0 0 0 0 0 0.

(** [int64] to [double]. *)
Definition float_of_Z (z : Z) : float := of_uint63 (Uint63.of_Z z).

(** One row of the innermost loop; the row is skipped unless both
    values are finite.
    [nobs += 1; dx = vx - meanx; dy = vy - meany;]
    [meanx += 1. / nobs * dx; meany += 1. / nobs * dy;]
    [ssqdmx += (vx - meanx) * dx; ssqdmy += (vy - meany) * dy;]
    [covxy += (vx - meanx) * dy] *)
Definition welford_step (w : Welford) (vx vy : float) : Welford :=
  if is_finite vx && is_finite vy then
    let n := (nobs w + 1)%Z in
    let dx := (vx - meanx w)%float in
    let dy := (vy - meany w)%float in
    let mx := (meanx w + 1 / float_of_Z n * dx)%float in
    let my := (meany w + 1 / float_of_Z n * dy)%float in
    mkWelford n mx my
              (ssqdmx w + (vx - mx) * dx)%float
              (ssqdmy w + (vy - my) * dy)%float
              (covxy w + (vx - mx) * dy)%float
  else w.

Definition welford (mat : list (list float)) (xi yi : nat) : Welford :=
  fold_left (fun w row => welford_step w (nth xi row nan) (nth yi row nan))
            mat welford_start.

(** [if val > 1.0: val = 1.0 elif val < -1.0: val = -1.0] *)
Definition clip (val : float) : float :=
  if (1 <? val)%float then 1%float
  else if (val <? -1)%float then (-1)%float
  else val.

(** The value the kernel stores for the columns [xi] and [yi]: [nan]
    with fewer than one pair of finite values, [nan] when the divisor
    is zero, the clipped quotient otherwise. *)
Definition pair_corr (mat : list (list float)) (xi yi : nat) : float :=
  let w := welford mat xi yi in
  if (nobs w <? 1)%Z then nan
  else
    let divisor := PrimFloat.sqrt (ssqdmx w * ssqdmy w)%float in
    if negb (divisor =? 0)%float then clip (covxy w / divisor)%float
    else nan.

(** [result[a, b] = v] *)
Definition store (result : nat -> nat -> float) (a b : nat) (v : float)
  : nat -> nat -> float :=
  fun i j => if Nat.eqb i a && Nat.eqb j b then v else result i j.

(** The end of the body of the loops:
    [result[xi, yi] = result[yi, xi] = val]. *)
Definition store_pair (mat : list (list float)) (xi : nat)
    (result : nat -> nat -> float) (yi : nat) : nat -> nat -> float :=
  let val := pair_corr mat xi yi in
  store (store result xi yi val) yi xi val.

(** The two outer loops, [for xi in range(K): for yi in range(xi + 1)].
    [empty] is the array as [np.empty((K, K))] hands it over. *)
Definition nancorr (mat : list (list float)) (K : nat)
    (empty : nat -> nat -> float) : nat -> nat -> float :=
  fold_left
    (fun result xi => fold_left (store_pair mat xi) (seq 0 (S xi)) result)
    (seq 0 K) empty.



(* ================================================================== *)
(** ** The script as a sequence of steps over its variables *)

(** The variable [df] and the derived tables bound so far, by name. *)
Record Session : Type := mkSession {
  df : DataFrame;
  derived : list (string * DataFrame);
  kpi_rows : option nat
}.

Inductive Step : Type :=
| SliceCountry (country : string)          (* line 39  *)
| DropnaPopulation                         (* line 73  *)
| Top10                                    (* lines 120-122 *)
| EnsureDates                              (* lines 154-155 *)
| FilterLocations (locations : list string)(* line 170 *)
| FilterDates (start stop : Z)             (* lines 172-177 *)
| CountRows                                (* line 182 *)
| Reload (csv : Result DataFrame)          (* lines 193-205 *)
| LatestMap (date_col : option string).    (* line 207, [date_col] of line 160 *)

Definition bind_derived (name : string) (t : DataFrame) (s : Session) : Session :=
  mkSession (df s) ((name, t) :: derived s) (kpi_rows s).

Definition rebind_df (t : DataFrame) (s : Session) : Session :=
  mkSession t (derived s) (kpi_rows s).

(** [df.dropna(subset=["population"])] *)
Definition dropna_population (d : DataFrame) : Result DataFrame :=
  pop <- getitem d "population" ;;
  Ok (mask_rows (fun r => notna (pop r)) d).

Definition run_step (argsort : list cell -> list nat)
    (parse : cell -> option Z) (st : Step) (s : Session) : Result Session :=
  match st with
  | SliceCountry country =>
      t <- sliceByLocation (df s) country ;;
      Ok (bind_derived "country_df" t s)
  | DropnaPopulation =>
      t <- dropna_population (df s) ;;
      Ok (bind_derived "scatter_df" t s)
  | Top10 =>
      t <- top10 argsort (df s) ;;
      Ok (bind_derived "top10" t s)
  | EnsureDates =>
      Ok (rebind_df (coerce_dates parse (df s)) s)
  | FilterLocations locations =>
      t <- filter_locations (df s) locations ;;
      Ok (rebind_df t s)
  | FilterDates start stop =>
      match date_col_of (df s) with
      | Some dc => t <- filter_dates (df s) dc start stop ;; Ok (rebind_df t s)
      | None => Ok s
      end
  | CountRows =>
      Ok (mkSession (df s) (derived s) (Some (List.length (rows (df s)))))
  | Reload csv =>
      t <- csv ;; Ok (rebind_df t s)
  | LatestMap date_col =>
      t <- latestPerLocation argsort date_col (df s) ;;
      Ok (bind_derived "latest" t s)
  end.

(** Steps run one after the other; the first exception ends the run. *)
Fixpoint run_steps (argsort : list cell -> list nat)
    (parse : cell -> option Z) (sts : list Step) (s : Session)
  : Result Session :=
  match sts with
  | [] => Ok s
  | st :: rest =>
      s1 <- run_step argsort parse st s ;;
      run_steps argsort parse rest s1
  end.


(** A frame whose [date] column went through the coercion of the load:
    it holds timestamps and missing values only. *)
Definition dates_coerced (d : DataFrame) : Prop :=
  forall k, get_loc "date" (columns d) = Some k ->
            datetime_dtype (series (iloc k) d) = true.

(* ================================================================== *)
(** ** The diagnostic script (scripts/check_data.py) *)

(** Characters before the first occurrence of [c]. *)
Fixpoint take_until (c : ascii) (l : list ascii) : list ascii :=
  match l with
  | [] => []
  | x :: rest => if Ascii.eqb x c then [] else x :: take_until c rest
  end.

(** [str.split(c)] on the characters of a string. *)
Fixpoint split_on (c : ascii) (l : list ascii) : list (list ascii) :=
  match l with
  | [] => [[]]
  | x :: rest =>
      if Ascii.eqb x c then [] :: split_on c rest
      else match split_on c rest with
           | h :: t => (x :: h) :: t
           | [] => [[x]]
           end
  end.

(** A component [Path] keeps: neither empty nor a single dot. *)
Definition kept_part (x : list ascii) : bool :=
  match x with
  | [] => false
  | [c] => negb (Ascii.eqb c ".")
  | _ => true
  end.

(** [Path(p).parts] without the root: the text between slashes, empty
    components and single dots dropped, so that a trailing slash or a
    trailing [/.] does not count. *)
Definition path_parts (p : string) : list (list ascii) :=
  filter kept_part (split_on "/" (list_ascii_of_string p)).

(** The root of a POSIX path: one slash, or two when the path starts
    with exactly two. *)
Definition path_root (l : list ascii) : list ascii :=
  match l with
  | a :: rest =>
      if Ascii.eqb a "/" then
        match rest with
        | b :: rest' =>
            if Ascii.eqb b "/" then
              match rest' with
              | c :: _ => if Ascii.eqb c "/" then ["/"%char]
                          else ["/"%char; "/"%char]
              | [] => ["/"%char; "/"%char]
              end
            else ["/"%char]
        | [] => ["/"%char]
        end
      else []
  | [] => []
  end.

Fixpoint join_parts (parts : list (list ascii)) : list ascii :=
  match parts with
  | [] => []
  | [x] => x
  | x :: rest => (x ++ "/"%char :: join_parts rest)%list
  end.

(** [str(Path(p))]: the root and the components joined by slashes, a
    dot when nothing is left. *)
Definition path_str (p : string) : string :=
  match (path_root (list_ascii_of_string p) ++ join_parts (path_parts p))%list with
  | [] => "."%string
  | l => string_of_list_ascii l
  end.

(** [Path.name]: the last component, empty when there is none. *)
Definition path_name (p : string) : list ascii :=
  last (path_parts p) [].

(** [Path.suffix]: [name[i:]] for [i = name.rfind(".")] when
    [0 < i < len(name) - 1], the empty string otherwise. *)
Definition suffix_of_name (name : list ascii) : string :=
  if existsb (Ascii.eqb ".") name then
    let ext := rev (take_until "." (rev name)) in
    let i := List.length name - List.length ext - 1 in
    if Nat.ltb 0 i && Nat.ltb i (List.length name - 1)
    then string_of_list_ascii ("."%char :: ext)
    else EmptyString
  else EmptyString.

Definition path_suffix (p : string) : string := suffix_of_name (path_name p).

Definition lower_ascii (c : ascii) : ascii :=
  let n := nat_of_ascii c in
  if Nat.leb 65 n && Nat.leb n 90 then ascii_of_nat (n + 32) else c.

(** [str.lower()] on the bytes of the string. *)
Fixpoint lower (s : string) : string :=
  match s with
  | EmptyString => EmptyString
  | String c rest => String (lower_ascii c) (lower rest)
  end.

Definition str_in (s : string) (l : list string) : bool :=
  existsb (String.eqb s) l.

(** [needle in hay] for strings. *)
Fixpoint contains (needle hay : string) : bool :=
  String.prefix needle hay
  || match hay with
     | EmptyString => false
     | String _ rest => contains needle rest
     end.

(** A column label as the readers return it: the text of a header cell,
    or the number [read_excel] makes of a numeric header cell. *)
Inductive Label : Type :=
| Text (s : string)
| Number (z : Z).

(** The table a reader returns: its column labels and its rows. *)
Record Table : Type := mkTable { labels : list Label; body : list Row }.

(** [c.lower()]: a number has no such method. *)
Definition lower_label (c : Label) : Result string :=
  match c with
  | Text s => Ok (lower s)
  | Number _ => Raise AttributeError
  end.

(** [[c for c in df.columns if p(c.lower())]], the labels taken from
    left to right. *)
Fixpoint select_labels (p : string -> bool) (ls : list Label)
  : Result (list Label) :=
  match ls with
  | [] => Ok []
  | c :: rest =>
      lc <- lower_label c ;;
      picked <- select_labels p rest ;;
      Ok (if p lc then c :: picked else picked)
  end.

(** What the script writes. *)
Inductive Printed : Type :=
| NotFound (path : string)       (* "File not found: {path}"              *)
| Unsupported (suffix : string)  (* "Unsupported file type: {suffix}"     *)
| Loaded (path : string) (shape : nat * nat) (cols : list Label)
                                 (* lines 24-29: file, shape, columns     *)
| Guesses (date_cols death_cols location_cols : list Label)
                                 (* lines 36-38                           *)
| Sample (head : list Row)       (* lines 40-41: [df.head(5)]             *)
| Traceback (e : Exception).     (* an exception nobody caught            *)

Record Outcome : Type := mkOutcome { exit_status : nat; printed : list Printed }.

(** Lines 24-41 on the table read.  The three guesses are computed
    (lines 32-34) before any of them is printed; an exception there is
    not caught. *)
Definition report (path : string) (t : Table) : Outcome :=
  let loaded :=
    Loaded path (List.length (body t), List.length (labels t)) (labels t) in
  let guesses :=
    date_cols <- select_labels (contains "date") (labels t) ;;
    death_cols <- select_labels (contains "death") (labels t) ;;
    location_cols <-
      select_labels
        (fun c => str_in c ["location"; "continent"; "iso_code"]%string)
        (labels t) ;;
    Ok (Guesses date_cols death_cols location_cols) in
  match guesses with
  | Ok g => mkOutcome 0 [loaded; g; Sample (firstn 5 (body t))]
  | Raise e => mkOutcome 1 [loaded; Traceback e]
  end.

(** A reader called on the path; what it raises is not caught: the
    interpreter prints the traceback and exits with status 1. *)
Definition read_and_report (reader : string -> Result Table) (path : string)
  : Outcome :=
  match reader path with
  | Ok t => report path t
  | Raise e => mkOutcome 1 [Traceback e]
  end.

(** [main()], with the file system and the two pandas readers as
    arguments; [arg] is the text given as [--path]. *)
Definition main (file_exists : string -> bool)
    (read_csv read_excel : string -> Result Table) (arg : string)
  : Outcome :=
  let path := path_str arg in
  if negb (file_exists path) then mkOutcome 1 [NotFound path]
  else
    let sfx := lower (path_suffix arg) in
    if str_in sfx [".csv"; ".txt"]%string then read_and_report read_csv path
    else if str_in sfx [".xlsx"; ".xls"]%string
         then read_and_report read_excel path
         else mkOutcome 1 [Unsupported (path_suffix arg)].

Definition supported_suffixes : list string :=
  [".csv"; ".txt"; ".xlsx"; ".xls"]%string.

(* ================================================================== *)
(** ** The options of the location selector (app.py, line 169) *)

(** [sorted(df["location"].dropna().unique())]; [sorted] compares the
    values, so a column of mixed kinds raises. *)
Definition location_options (d : DataFrame) : Result (list cell) :=
  loc <- getitem d "location" ;;
  if same_kind (series loc d)
  then Ok (group_keys loc (rows d))
  else Raise TypeError.

(** The rows a selection keeps: the location is one of the chosen ones
    and, when a pair of dates was given, the date lies between them. *)
Definition selected (locations : list string) (date_range : option (Z * Z))
    (loc date : Row -> cell) (r : Row) : bool :=
  isin locations (loc r)
  && match date_range with
     | Some (start, stop) =>
         cell_leb (Timestamp start) (date r) && cell_leb (date r) (Timestamp stop)
     | None => true
     end.

(* ================================================================== *)
(** ** The sidebar filters with their widgets (app.py, lines 153-177) *)

(** [st.multiselect(label, options, default=[...])]: the widget gives
    back what the user selected among the options; a default that is
    not one of the options is refused. *)
Definition multiselect (options : list cell) (default picked : list string)
  : Result (list string) :=
  if forallb (fun s => existsb (fun o => cell_eqb o (Str s)) options) default
  then Ok picked
  else Raise (WidgetError "multiselect").

(** [st.date_input("Date range", value=(min_date, max_date))]: the
    widget shows the two dates and gives back what the user picked.  A
    missing date ([NaT]) is no calendar date: the call raises. *)
Definition date_input (value : cell * cell) (picked : option (Z * Z))
  : Result (option (Z * Z)) :=
  match value with
  | (Timestamp _, Timestamp _) => Ok picked
  | _ => Raise (WidgetError "date_input")
  end.

(** Lines 153-177 as the script runs them: the date column coerced once
    more, [date_col] decided, the location selector offered the sorted
    locations with its two defaults, the location filter, the minimum
    and the maximum date of the rows kept handed to the date widget,
    and the date filter on what the user picked there.
    [picked_locations] and [picked_dates] are what the user chose. *)
Definition sidebar_filters (parse : cell -> option Z) (df : DataFrame)
    (picked_locations : list string) (picked_dates : option (Z * Z))
  : Result DataFrame :=
  let df0 := coerce_dates parse df in
  let date_col := date_col_of df0 in
  options <- location_options df0 ;;
  locations <- multiselect options ["India"; "United States"]%string
                           picked_locations ;;
  df1 <- filter_locations df0 locations ;;
  match date_col with
  | None => Ok df1
  | Some dc =>
      d <- getitem df1 dc ;;
      min_date <- checked_min (series d df1) ;;
      max_date <- checked_max (series d df1) ;;
      date_range <- date_input (min_date, max_date) picked_dates ;;
      match date_range with
      | Some (start, stop) => filter_dates df1 dc start stop
      | None => Ok df1
      end
  end.

(* ================================================================== *)
(** ** The script from the first read to the map (app.py, lines 15-207)

    The tables the script binds, in the order it binds them.  The chart
    calls and the sums of the key metrics are left out: they bind none
    of these variables.  [country], [locations] and [date_range] are
    what the widgets gave back.  [date_col] is decided once, at line 160, on the
    frame of the first read, and used again at line 207 on the frame of
    the second read. *)

Record Dashboard : Type := mkDashboard {
  country_table : DataFrame;      (* [country_df], line 39   *)
  scatter_table : DataFrame;      (* [scatter_df], line 73   *)
  top10_table : DataFrame;        (* [top10], line 122       *)
  filtered_rows : nat;            (* [len(df)], line 182     *)
  final_dataset : DataFrame;      (* [df] after line 196     *)
  latest_table : DataFrame        (* [latest], line 207      *)
}.

Definition dashboard (argsort : list cell -> list nat)
    (parse : cell -> option Z) (csv1 : Result DataFrame) (country : string)
    (locations : list string) (date_range : option (Z * Z))
    (csv2 : Result DataFrame) : Result Dashboard :=
  d <- load_dataset parse csv1 ;;
  country_df <- sliceByLocation d country ;;
  scatter_df <- dropna_population d ;;
  top <- top10 argsort d ;;
  let d' := coerce_dates parse d in
  let date_col := date_col_of d' in
  filtered <- filterBySelection d' locations date_range ;;
  d2 <- csv2 ;;
  latest <- latestPerLocation argsort date_col d2 ;;
  Ok (mkDashboard country_df scatter_df top
                  (List.length (rows filtered)) d2 latest).

(* ================================================================== *)
(** ** The column guesses of the diagnostic script (lines 32-34), on
    labels that are all text *)

(** [[c for c in df.columns if "date" in c.lower()]] *)
Definition date_columns (cols : list string) : list string :=
  filter (fun c => contains "date" (lower c)) cols.

(** [[c for c in df.columns if "death" in c.lower()]] *)
Definition death_columns (cols : list string) : list string :=
  filter (fun c => contains "death" (lower c)) cols.

(** [[c for c in df.columns if c.lower() in ["location", "continent",
    "iso_code"]]] *)
Definition location_columns (cols : list string) : list string :=
  filter (fun c => str_in (lower c) ["location"; "continent"; "iso_code"]%string)
         cols.

(* ================================================================== *)
(** ** Example tables and the readings of the specification

    The predicates below state what the specification says of an
    operation, so that it can be compared with what the script does. *)

Definition two_countries : DataFrame :=
  mkDF ["location"; "date"; "total_cases"]%string
       [ mkRow 0 [Str "A"; Timestamp 2; Num 7];
         mkRow 1 [Str "A"; Timestamp 1; Num 5];
         mkRow 2 [Str "B"; Timestamp 1; Num 3] ].

(** The reading of the specification: the slice is in ascending date
    order, missing dates last. *)
Definition slice_is_date_ordered (d : DataFrame) (country : string) : Prop :=
  exists t date, sliceByLocation d country = Ok t /\
                 getitem t "date" = Ok date /\
                 StronglySorted sort_le (series date t).



Definition india_us_table : DataFrame :=
  mkDF ["location"; "date"; "total_cases"]%string
       [ mkRow 0 [Str "India"; Str "2021-01-01"; Num 7];
         mkRow 1 [Str "United States"; Str "not a date"; Num 5];
         mkRow 2 [Str "Peru"; NA; Num 3] ].

(** How a loaded row relates to the row that was read: same label, same
    width, every cell outside the [date] column untouched; in the [date]
    column a missing cell stays missing, a timestamp stays, a string or
    number the parser reads becomes the timestamp it reads, one it
    rejects becomes missing. *)
Definition row_coerced (parse : cell -> option Z) (k : nat) (r r' : Row) : Prop :=
  label r' = label r /\
  List.length (values r') = List.length (values r) /\
  (iloc k r = NA -> iloc k r' = NA) /\
  (forall t, iloc k r = Timestamp t -> iloc k r' = Timestamp t) /\
  (forall t, parse (iloc k r) = Some t -> iloc k r <> NA ->
             (forall t', iloc k r <> Timestamp t') ->
             iloc k r' = Timestamp t) /\
  (parse (iloc k r) = None -> (forall t, iloc k r <> Timestamp t) ->
   iloc k r' = NA) /\
  (forall j, j <> k -> iloc j r' = iloc j r).

Definition raw_table : DataFrame :=
  mkDF ["location"; "date"; "total_cases"]%string
       [ mkRow 0 [Str "A"; Str "2021-01-01"; Num 7];
         mkRow 1 [Str "A"; Str "not a date"; Num 5];
         mkRow 2 [Str "B"; NA; Num 3] ].

(** A parser for the examples: it knows one date. *)
Definition parse_example (c : cell) : option Z :=
  match c with
  | Str s => if String.eqb s "2021-01-01" then Some 18628%Z else None
  | _ => None
  end.

(** The reading of the specification: a non-zero exit exactly when the
    file is missing or its suffix is not supported, and the
    unsupported-format message for every path ending in [.json]. *)
Definition exits_nonzero_iff_missing_or_unsupported
    (file_exists : string -> bool)
    (read_csv read_excel : string -> Result Table) (arg : string) : Prop :=
  exit_status (main file_exists read_csv read_excel arg) <> 0 <->
  (file_exists (path_str arg) = false \/
   str_in (lower (path_suffix arg)) supported_suffixes = false).

Definition json_reports_unsupported (file_exists : string -> bool)
    (read_csv read_excel : string -> Result Table) (arg : string) : Prop :=
  exit_status (main file_exists read_csv read_excel arg) <> 0 /\
  printed (main file_exists read_csv read_excel arg)
  = [Unsupported (path_suffix arg)].

(** Tables for the examples of the diagnostic script: a sheet with text
    headers, and one whose second header cell is the number 2020. *)
Definition text_sheet : Table :=
  mkTable [Text "location"; Text "Date"; Text "new_deaths"]
          [ mkRow 0 [Str "A"; Str "2021-01-01"; Num 7] ].

Definition year_sheet : Table :=
  mkTable [Text "location"; Number 2020]
          [ mkRow 0 [Str "A"; Num 7] ].

(** The reading of the specification: one row per location, no row of
    the location with a later date, and of the rows that carry the
    greatest date of the location the last in input order. *)
Definition latest_as_specified (argsort : list cell -> list nat)
    (d : DataFrame) : Prop :=
  exists out loc date,
    latestPerLocation argsort (Some "date"%string) d = Ok out /\
    getitem d "location" = Ok loc /\
    getitem d "date" = Ok date /\
    (forall g, List.length (group_rows loc g (rows out))
               = if existsb (fun r => cell_eqb (loc r) g) (rows d)
                 then 1 else 0) /\
    (forall r r', In r (rows out) -> In r' (rows d) ->
                  cell_eqb (loc r') (loc r) = true ->
                  cell_ltb (date r) (date r') = false) /\
    (forall g r, row_of loc g (rows out) = Some r ->
       Some r = last_opt
                  (filter (fun x =>
                     cell_eqb (loc x) g
                     && cell_eqb (date x)
                          (series_max (map date (group_rows loc g (rows d)))))
                     (rows d))).

Definition undated_then_tie : DataFrame :=
  mkDF ["location"; "date"]%string
       [ mkRow 0 [Str "A"; NA];
         mkRow 1 [Str "A"; Timestamp 5];
         mkRow 2 [Str "A"; Timestamp 5] ].

Definition plain_tie : DataFrame :=
  mkDF ["location"; "date"]%string
       [ mkRow 0 [Str "A"; Timestamp 5];
         mkRow 1 [Str "A"; Timestamp 5] ].

(** What the greatest value of a column over the rows chosen by [sel]
    is: no present value of a chosen row is greater than [m], and [m],
    when present, is the value of a chosen row; [m] is missing when no
    chosen row has a value. *)
Definition greatest_among (rs : list Row) (sel : Row -> Prop)
    (col : Row -> cell) (m : cell) : Prop :=
  (forall x, In x rs -> sel x -> notna (col x) = true ->
             notna m = true /\ cell_compare (col x) m <> Gt) /\
  (notna m = true -> exists x, In x rs /\ sel x /\ col x = m).

(** The row [x] carries the date [day]. *)
Definition carries_date (date : Row -> cell) (day : cell) (x : Row) : Prop :=
  date x = day /\ notna day = true.

(** What a top-[n] table is: the first [n] entries of an arrangement
    [ranking] that has one entry per location present among the rows
    chosen by [sel], pairs it with the greatest metric value of the
    chosen rows of the location and is in descending order of that
    value. *)
Definition top_n_of (rs : list Row) (sel : Row -> Prop)
    (loc metric : Row -> cell) (n : nat) (out : list Row) : Prop :=
  exists ranking : list (cell * cell),
    NoDup (map fst ranking) /\
    (forall g v,
        In (g, v) ranking <->
        notna g = true /\
        (exists x, In x rs /\ sel x /\ loc x = g) /\
        greatest_among rs (fun x => sel x /\ loc x = g) metric v) /\
    StronglySorted desc_le (map snd ranking) /\
    map (fun r => (iloc 0 r, iloc 1 r)) out = firstn n ranking.



(** Two numeric columns, the second constant. *)
Definition constant_column : list (list float) :=
  [ [1; 5]; [2; 5]; [3; 5] ]%float.

(** Two numeric columns, the first with the values 0 and 2^400. *)
Definition wide_column : list (list float) :=
  [ [0; 1]; [0x1p400; 2] ]%float.

(** Three numeric columns with a missing cell. *)
Definition three_columns : list (list float) :=
  [ [1; 2; 0.5]; [2; 4; 7]; [3; 6.5; 1]; [nan; 3; 2] ]%float.


Definition undated_table : DataFrame :=
  mkDF ["location"; "date"; "total_cases"]%string
       [ mkRow 0 [Str "A"; NA; Num 7];
         mkRow 1 [Str "B"; NA; Num 5] ].

Definition owid_sample : DataFrame :=
  mkDF ["location"; "date"; "total_cases"; "population"]%string
       [ mkRow 0 [Str "A"; Str "2021-01-01"; Num 7; Num 100];
         mkRow 1 [Str "B"; Str "2021-01-01"; Num 5; NA];
         mkRow 2 [Str "B"; Str "not a date"; Num 9; Num 200] ].

(** The characters allowed in an extension: neither a dot nor a slash. *)
Definition plain_char (x : ascii) : bool :=
  negb (Ascii.eqb x ".") && negb (Ascii.eqb x "/").

Definition tied_table : DataFrame :=
  mkDF ["location"; "date"; "total_cases"]%string
       [ mkRow 0 [Str "C"; Timestamp 2; Num 7];
         mkRow 1 [Str "B"; Timestamp 2; Num 8];
         mkRow 2 [Str "A"; Timestamp 2; Num 7];
         mkRow 3 [Str "D"; Timestamp 1; Num 50] ].

(* ================================================================== *)
(** * Properties *)

(** ** The order on cells *)

Lemma ascii_compare_lt_trans (a b c : ascii) :
  Ascii.compare a b = Lt -> Ascii.compare b c = Lt -> Ascii.compare a c = Lt.
Proof.
  unfold Ascii.compare. rewrite !N.compare_lt_iff. apply N.lt_trans.
Qed.

Lemma string_compare_refl (s : string) : String.compare s s = Eq.
Proof.
  induction s as [| a s IH]; simpl; auto.
  unfold Ascii.compare. now rewrite N.compare_refl.
Qed.

Lemma string_compare_lt_trans (a : string) :
  forall b c, String.compare a b = Lt -> String.compare b c = Lt ->
              String.compare a c = Lt.
Proof.
  induction a as [| x a IH]; intros [| y b] [| z c]; simpl;
    try discriminate; auto.
  destruct (Ascii.compare x y) eqn:Hxy; try discriminate.
  - apply Ascii.compare_eq_iff in Hxy. subst y.
    destruct (Ascii.compare x z); try discriminate; auto.
    intros H1 H2. eapply IH; eauto.
  - intros _. destruct (Ascii.compare y z) eqn:Hyz; try discriminate.
    + apply Ascii.compare_eq_iff in Hyz. subst z. now rewrite Hxy.
    + intros _. now rewrite (ascii_compare_lt_trans _ _ _ Hxy Hyz).
Qed.

Lemma cell_compare_refl (a : cell) : cell_compare a a = Eq.
Proof.
  destruct a; simpl; auto using Z.compare_refl, string_compare_refl.
Qed.

Lemma cell_compare_eq (a b : cell) : cell_compare a b = Eq -> a = b.
Proof.
  destruct a, b; simpl; try discriminate; auto; intros H.
  - apply Z.compare_eq in H. congruence.
  - apply String.compare_eq_iff in H. congruence.
  - apply Z.compare_eq in H. congruence.
Qed.

Lemma cell_compare_antisym (a b : cell) :
  cell_compare b a = CompOpp (cell_compare a b).
Proof.
  destruct a, b; simpl; auto using Z.compare_antisym, String.compare_antisym.
Qed.

Lemma cell_compare_lt_trans (a b c : cell) :
  cell_compare a b = Lt -> cell_compare b c = Lt -> cell_compare a c = Lt.
Proof.
  destruct a, b, c; simpl; try discriminate; auto;
    try (rewrite !Z.compare_lt_iff; lia);
    apply string_compare_lt_trans.
Qed.

Lemma cell_compare_gt_lt (a b : cell) :
  cell_compare a b = Gt <-> cell_compare b a = Lt.
Proof.
  rewrite (cell_compare_antisym a b).
  destruct (cell_compare a b); simpl; split; congruence.
Qed.

Lemma sort_le_refl (a : cell) : sort_le a a.
Proof. unfold sort_le. now rewrite cell_compare_refl. Qed.

Lemma sort_le_trans (a b c : cell) : sort_le a b -> sort_le b c -> sort_le a c.
Proof.
  unfold sort_le. intros Hab Hbc Hac.
  apply cell_compare_gt_lt in Hac.
  destruct (cell_compare a b) eqn:E1; try congruence.
  - apply cell_compare_eq in E1. subst b.
    apply Hbc. now apply cell_compare_gt_lt.
  - apply Hbc. apply cell_compare_gt_lt.
    eapply cell_compare_lt_trans; eauto.
Qed.

Lemma sort_le_antisym (a b : cell) : sort_le a b -> sort_le b a -> a = b.
Proof.
  unfold sort_le. intros Hab Hba.
  destruct (cell_compare a b) eqn:E; try congruence.
  - now apply cell_compare_eq.
  - exfalso. apply Hba. now apply cell_compare_gt_lt.
Qed.

Lemma sort_le_total (a b : cell) : sort_le a b \/ sort_le b a.
Proof.
  unfold sort_le. rewrite (cell_compare_antisym a b).
  destruct (cell_compare a b); simpl; [left | left | right]; congruence.
Qed.

Lemma sort_le_NA (a : cell) : sort_le a NA.
Proof. destruct a; unfold sort_le; simpl; congruence. Qed.

Lemma sort_le_NA_inv (a : cell) : sort_le NA a -> a = NA.
Proof. destruct a; unfold sort_le; simpl; congruence. Qed.

Lemma cell_eqb_true (a b : cell) :
  cell_eqb a b = true <-> a = b /\ notna a = true.
Proof.
  unfold cell_eqb. split.
  - intros H. apply andb_prop in H. destruct H as [H1 H2].
    apply andb_prop in H1. destruct H1 as [Ha Hb].
    destruct (cell_compare a b) eqn:E; try discriminate.
    split; auto. now apply cell_compare_eq.
  - intros [-> Hb]. rewrite Hb, cell_compare_refl. reflexivity.
Qed.

Lemma cell_eqb_refl (a : cell) : notna a = true -> cell_eqb a a = true.
Proof. intros H. now apply cell_eqb_true. Qed.

Lemma cell_eqb_sym (a b : cell) : cell_eqb a b = cell_eqb b a.
Proof.
  destruct (cell_eqb a b) eqn:E1, (cell_eqb b a) eqn:E2; auto.
  - apply cell_eqb_true in E1. destruct E1 as [-> H].
    rewrite cell_eqb_refl in E2; auto.
  - apply cell_eqb_true in E2. destruct E2 as [-> H].
    rewrite cell_eqb_refl in E1; auto.
Qed.

Lemma cell_ltb_sort_le (a b : cell) : sort_le a b -> cell_ltb b a = false.
Proof.
  unfold sort_le, cell_ltb. intros H.
  destruct (cell_compare b a) eqn:E.
  - now rewrite andb_false_r.
  - exfalso. apply H. now apply cell_compare_gt_lt.
  - now rewrite andb_false_r.
Qed.

(** ** Column lookup *)

Lemma get_loc_In (name : string) (cols : list string) :
  In name cols -> exists k, get_loc name cols = Some k.
Proof.
  induction cols as [| c cs IH]; simpl; [tauto |].
  intros [-> | H].
  - rewrite String.eqb_refl. eauto.
  - destruct (String.eqb c name); eauto.
    destruct (IH H) as [k ->]. simpl. eauto.
Qed.

Lemma getitem_In (d : DataFrame) (name : string) :
  In name (columns d) -> exists k, getitem d name = Ok (iloc k) /\
                                   get_loc name (columns d) = Some k.
Proof.
  intros H. destruct (get_loc_In _ _ H) as [k Hk].
  exists k. unfold getitem. now rewrite Hk.
Qed.

Lemma get_loc_Some_In (name : string) (cols : list string) (k : nat) :
  get_loc name cols = Some k -> In name cols.
Proof.
  revert k. induction cols as [| c cs IH]; simpl; [discriminate |].
  intros k. destruct (String.eqb c name) eqn:E.
  - apply String.eqb_eq in E. auto.
  - destruct (get_loc name cs); simpl; [| discriminate]. eauto.
Qed.

Lemma getitem_Ok (d : DataFrame) (name : string) (f : Row -> cell) :
  getitem d name = Ok f ->
  exists k, get_loc name (columns d) = Some k /\ f = iloc k.
Proof.
  unfold getitem. destruct (get_loc name (columns d)) as [k |];
    [| discriminate].
  intros [= <-]. eauto.
Qed.

Lemma filter_nil_iff {A : Type} (p : A -> bool) (l : list A) :
  (forall x, In x l -> p x = false) -> filter p l = [].
Proof.
  induction l as [| x l IH]; simpl; auto.
  intros H. rewrite (H x); auto.
Qed.

(** ** Country slice *)

(** C5: slicing by a location that is absent from the [location] column
    returns a table of length 0 and raises nothing. *)
Theorem slice_absent_location_is_empty (d : DataFrame) (country : string) :
  In "location"%string (columns d) ->
  (forall loc, getitem d "location" = Ok loc ->
               ~ In (Str country) (series loc d)) ->
  exists t, sliceByLocation d country = Ok t /\
            columns t = columns d /\
            List.length (rows t) = 0.
Proof.
  intros Hcol Habsent.
  destruct (getitem_In d _ Hcol) as [k [Hget _]].
  unfold sliceByLocation. rewrite Hget. simpl.
  eexists. split; [reflexivity |]. split; [reflexivity |].
  simpl. rewrite filter_nil_iff; auto.
  intros r Hr. destruct (cell_eqb (iloc k r) (Str country)) eqn:E; auto.
  apply cell_eqb_true in E. destruct E as [E _].
  exfalso. apply (Habsent _ Hget). unfold series.
  rewrite <- E. now apply in_map.
Qed.

Lemma slice_absent_location_is_empty_witness :
  exists t, sliceByLocation two_countries "C" = Ok t /\
            columns t = columns two_countries /\
            List.length (rows t) = 0.
Proof.
  apply (slice_absent_location_is_empty two_countries "C").
  - simpl. auto.
  - intros loc H. vm_compute in H. injection H as <-.
    vm_compute. intros [H | [H | [H | []]]]; discriminate.
Defined.

(** C4 fails on the code: the slice keeps the input order, so two rows
    of one country given with the later date first stay that way. *)
Lemma slice_not_date_ordered : ~ slice_is_date_ordered two_countries "A".
Proof.
  intros [t [date [Ht [Hd Hs]]]].
  vm_compute in Ht. injection Ht as <-.
  vm_compute in Hd. injection Hd as <-.
  unfold series in Hs. simpl in Hs.
  inversion Hs as [| ? ? _ Hall]. subst.
  inversion Hall as [| ? ? Hle _]. subst.
  apply Hle. reflexivity.
Qed.

Lemma StronglySorted_filter_map {A : Type} (R : cell -> cell -> Prop)
    (f : A -> cell) (p : A -> bool) (l : list A) :
  StronglySorted R (map f l) -> StronglySorted R (map f (filter p l)).
Proof.
  induction l as [| x l IH]; simpl; auto.
  intros H. inversion H as [| ? ? Hs Hall]; subst.
  destruct (p x); simpl; auto.
  constructor; auto.
  rewrite Forall_forall in *. intros c Hc.
  apply in_map_iff in Hc. destruct Hc as [y [<- Hy]].
  apply filter_In in Hy. destruct Hy as [Hy _].
  apply Hall. now apply in_map.
Qed.

(** C4 (amended): the slice holds exactly the rows whose location equals
    the chosen one, in input order; no sort is applied, so it is in
    ascending date order (missing dates last) whenever the input is. *)
Theorem slice_keeps_input_order (d : DataFrame) (country : string) :
  In "location"%string (columns d) ->
  exists t loc,
    getitem d "location" = Ok loc /\
    sliceByLocation d country = Ok t /\
    columns t = columns d /\
    rows t = group_rows loc (Str country) (rows d) /\
    (forall date : Row -> cell,
        StronglySorted sort_le (series date d) ->
        StronglySorted sort_le (series date t)).
Proof.
  intros Hcol. destruct (getitem_In d _ Hcol) as [k [Hget _]].
  exists (mask_rows (fun r => cell_eqb (iloc k r) (Str country)) d), (iloc k).
  unfold sliceByLocation. rewrite Hget. simpl.
  repeat split; auto.
  intros date. unfold series. simpl. apply StronglySorted_filter_map.
Qed.

Lemma slice_keeps_input_order_witness :
  exists t loc,
    getitem two_countries "location" = Ok loc /\
    sliceByLocation two_countries "A" = Ok t /\
    columns t = columns two_countries /\
    rows t = group_rows loc (Str "A") (rows two_countries) /\
    (forall date : Row -> cell,
        StronglySorted sort_le (series date two_countries) ->
        StronglySorted sort_le (series date t)).
Proof.
  apply (slice_keeps_input_order two_countries "A"). simpl. auto.
Defined.

(** ** Sidebar filters *)


(** ** Loading *)

Lemma nth_map_nth_ne {A : Type} (f : A -> A) (d : A) (k j : nat) (l : list A) :
  j <> k -> nth j (map_nth f k l) d = nth j l d.
Proof.
  revert k j. induction l as [| x l IH]; intros [| k] [| j] H; simpl;
    auto; congruence.
Qed.

Lemma nth_map_nth_eq {A : Type} (f : A -> A) (d : A) (k : nat) (l : list A) :
  f d = d -> nth k (map_nth f k l) d = f (nth k l d).
Proof.
  intros Hd. revert k. induction l as [| x l IH]; intros [| k]; simpl; auto.
Qed.

Lemma length_map_nth {A : Type} (f : A -> A) (k : nat) (l : list A) :
  List.length (map_nth f k l) = List.length l.
Proof.
  revert k. induction l as [| x l IH]; intros [| k]; simpl; auto.
Qed.

Lemma coerce_unparseable (parse : cell -> option Z) (c : cell) :
  parse c = None -> (forall t, c <> Timestamp t) ->
  to_datetime_coerce parse c = NA.
Proof.
  intros Hp Ht. destruct c; simpl; auto; try now rewrite Hp.
  exfalso. now apply (Ht t).
Qed.

(** The load of lines 15-27 does what C7 says: for a table with a
    column named [date] it raises nothing, keeps the columns (the [date]
    column among them), turns every date value the parser rejects into a
    missing value, every value it reads into the timestamp read, and
    leaves the cells of all other columns as they were read. *)
Lemma load_coerces_bad_dates (parse : cell -> option Z) (d : DataFrame)
    (k : nat) :
  get_loc "date" (columns d) = Some k ->
  exists t, load_dataset parse (Ok d) = Ok t /\
            columns t = columns d /\
            Forall2 (row_coerced parse k) (rows d) (rows t).
Proof.
  intros Hk. unfold load_dataset, coerce_dates. simpl. rewrite Hk.
  eexists. split; [reflexivity |]. split; [reflexivity |].
  simpl. induction (rows d) as [| r rs IH]; simpl; constructor; auto.
  assert (Hcell : iloc k (mkRow (label r)
                    (map_nth (to_datetime_coerce parse) k (values r)))
                  = to_datetime_coerce parse (iloc k r)).
  { unfold iloc. simpl. now apply nth_map_nth_eq. }
  unfold row_coerced. split; [reflexivity |].
  split; [apply length_map_nth |]. rewrite Hcell.
  split; [| split; [| split; [| split]]].
  - now intros ->.
  - now intros t ->.
  - intros t Hp Hna Hts.
    destruct (iloc k r); simpl; try congruence; now rewrite Hp.
  - intros Hp Ht. now apply coerce_unparseable.
  - intros j Hj. unfold iloc. simpl. now apply nth_map_nth_ne.
Qed.

Lemma load_coerces_bad_dates_witness :
  exists t, load_dataset parse_example (Ok raw_table) = Ok t /\
            columns t = columns raw_table /\
            Forall2 (row_coerced parse_example 1) (rows raw_table) (rows t).
Proof.
  apply (load_coerces_bad_dates parse_example raw_table). reflexivity.
Defined.

Lemma coerce_dates_columns (parse : cell -> option Z) (d : DataFrame) :
  columns (coerce_dates parse d) = columns d.
Proof.
  unfold coerce_dates. now destruct (get_loc "date" (columns d)).
Qed.

(** C7 (defect of the re-read): the table read again at lines 193-205
    is bound to [df] as it was read; the coercion that follows the read
    at lines 18-19 and 26-27 is not repeated there.  A date that cannot
    be parsed stays the string it was, where the first load of the same
    table makes it missing, and the map table that line 207 computes
    from it orders the dates as strings. *)
Theorem reload_keeps_bad_date :
  (forall argsort s,
      run_step argsort parse_example (Reload (Ok raw_table)) s
      = Ok (rebind_df raw_table s)) /\
  map (iloc 1) (rows raw_table) = [Str "2021-01-01"; Str "not a date"; NA] /\
  (exists t, load_dataset parse_example (Ok raw_table) = Ok t /\
             map (iloc 1) (rows t) = [Timestamp 18628; NA; NA]) /\
  (forall s,
      run_steps stable_argsort parse_example
                [Reload (Ok raw_table); LatestMap (Some "date"%string)] s
      = Ok (bind_derived "latest"
              (mkDF ["location"; "date"; "total_cases"]%string
                    [ mkRow 1 [Str "A"; Str "not a date"; Num 5];
                      mkRow 2 [Str "B"; NA; Num 3] ])
              (rebind_df raw_table s))).
Proof.
  split; [reflexivity |]. split; [reflexivity |].
  split; [eexists; split; reflexivity | reflexivity].
Qed.

(** ** The diagnostic script *)

Lemma list_ascii_of_string_app (a b : string) :
  list_ascii_of_string (a ++ b)
  = list_ascii_of_string a ++ list_ascii_of_string b.
Proof. induction a as [| c a IH]; simpl; congruence. Qed.

Lemma existsb_rev {A : Type} (p : A -> bool) (l : list A) :
  existsb p (rev l) = existsb p l.
Proof.
  destruct (existsb p l) eqn:E.
  - apply existsb_exists in E. destruct E as [x [Hx Hp]].
    apply existsb_exists. exists x. split; auto. now apply in_rev in Hx.
  - destruct (existsb p (rev l)) eqn:E'; auto.
    apply existsb_exists in E'. destruct E' as [x [Hx Hp]].
    apply in_rev in Hx.
    assert (existsb p l = true) by (apply existsb_exists; eauto).
    congruence.
Qed.

Lemma split_on_cons (c : ascii) (l : list ascii) :
  exists h t, split_on c l = h :: t.
Proof.
  induction l as [| x l [h [t IH]]]; simpl; eauto.
  destruct (Ascii.eqb x c); eauto. rewrite IH. eauto.
Qed.

(** Splitting at a separator splits the two sides. *)
Lemma split_on_app (c : ascii) (l1 l2 : list ascii) :
  split_on c (l1 ++ c :: l2) = split_on c l1 ++ split_on c l2.
Proof.
  induction l1 as [| x l1 IH]; simpl.
  - now rewrite Ascii.eqb_refl.
  - destruct (Ascii.eqb x c); [now rewrite IH |].
    rewrite IH. destruct (split_on_cons c l1) as [h [t ->]]. reflexivity.
Qed.

Lemma split_on_free (c : ascii) (l : list ascii) :
  forallb (fun x => negb (Ascii.eqb x c)) l = true -> split_on c l = [l].
Proof.
  induction l as [| x l IH]; simpl; auto.
  intros H. apply andb_prop in H. destruct H as [Hx Hl].
  apply negb_true_iff in Hx. rewrite Hx. now rewrite IH.
Qed.

(** Text without a separator, appended, extends the last component. *)
Lemma split_on_app_free (c : ascii) (l1 l2 : list ascii) :
  forallb (fun x => negb (Ascii.eqb x c)) l2 = true ->
  exists init h, split_on c (l1 ++ l2) = init ++ [h ++ l2].
Proof.
  intros Hfree. induction l1 as [| x l1 [init [h IH]]]; simpl.
  - exists [], []. simpl. now apply split_on_free.
  - destruct (Ascii.eqb x c).
    + exists ([] :: init), h. now rewrite IH.
    + rewrite IH. destruct init as [| i0 init]; simpl.
      * exists [], (x :: h). reflexivity.
      * exists ((x :: i0) :: init), h. reflexivity.
Qed.

Lemma kept_part_long (x : list ascii) :
  2 <= List.length x -> kept_part x = true.
Proof. destruct x as [| a [| b x]]; simpl; auto; lia. Qed.

(** The name of a path that ends in two or more characters without a
    slash ends in these characters. *)
Lemma path_name_app (stem tail : string) :
  forallb (fun x => negb (Ascii.eqb x "/")) (list_ascii_of_string tail) = true ->
  2 <= List.length (list_ascii_of_string tail) ->
  exists Y, path_name (stem ++ tail) = Y ++ list_ascii_of_string tail.
Proof.
  intros Hfree Hlen. unfold path_name, path_parts.
  rewrite list_ascii_of_string_app.
  destruct (split_on_app_free "/" (list_ascii_of_string stem) _ Hfree)
    as [init [h ->]].
  exists h. rewrite filter_app. simpl.
  rewrite kept_part_long by (rewrite length_app; lia).
  apply last_last.
Qed.

(** A trailing slash, and a trailing slash and dot, are no component. *)
Lemma path_parts_trailing (arg : string) :
  path_parts (arg ++ "/") = path_parts arg /\
  path_parts (arg ++ "/.") = path_parts arg.
Proof.
  unfold path_parts. rewrite !list_ascii_of_string_app. simpl.
  rewrite !split_on_app, !filter_app. simpl.
  now rewrite app_nil_r.
Qed.

Lemma suffix_of_name_json (Y : list ascii) :
  suffix_of_name (Y ++ ["."; "j"; "s"; "o"; "n"]%char)
  = match Y with [] => EmptyString | _ => ".json"%string end.
Proof.
  unfold suffix_of_name.
  rewrite existsb_app, rev_app_distr, length_app. simpl.
  rewrite orb_true_r.
  destruct Y as [| y Y]; simpl; auto.
  match goal with
  | |- (if ?a && ?b then _ else _) = _ =>
      assert (Ha : a = true) by (apply Nat.ltb_lt; lia);
      assert (Hb : b = true) by (apply Nat.ltb_lt; lia);
      rewrite Ha, Hb
  end.
  reflexivity.
Qed.

(** The suffix of a path that ends in [.json] is [.json], or empty when
    the file name is just [.json]; neither is a supported suffix. *)
Lemma json_suffix (stem : string) :
  path_suffix (stem ++ ".json") = ".json"%string \/
  path_suffix (stem ++ ".json") = EmptyString.
Proof.
  unfold path_suffix.
  destruct (@path_name_app stem ".json" eq_refl) as [Y ->];
    [simpl; lia |].
  simpl. rewrite suffix_of_name_json. destruct Y; auto.
Qed.

Lemma json_suffix_unsupported (stem : string) :
  str_in (lower (path_suffix (stem ++ ".json"))) [".csv"; ".txt"]%string = false /\
  str_in (lower (path_suffix (stem ++ ".json"))) [".xlsx"; ".xls"]%string = false.
Proof.
  destruct (json_suffix stem) as [-> | ->]; split; reflexivity.
Qed.

(** The guesses on labels that are all text are the guesses on the
    texts. *)
Lemma select_labels_text (p : string -> bool) (cols : list string) :
  select_labels p (map Text cols)
  = Ok (map Text (filter (fun c => p (lower c)) cols)).
Proof.
  induction cols as [| c cols IH]; simpl; auto.
  rewrite IH. simpl. now destruct (p (lower c)).
Qed.

(** A label that is a number stops every guess. *)
Lemma select_labels_number (p : string -> bool) (ls : list Label) (z : Z) :
  In (Number z) ls -> select_labels p ls = Raise AttributeError.
Proof.
  induction ls as [| c ls IH]; simpl; [tauto |].
  intros [-> | H]; [reflexivity |].
  destruct c; simpl; auto. now rewrite IH.
Qed.

Lemma labels_cases (ls : list Label) :
  (exists cols, ls = map Text cols) \/ (exists z, In (Number z) ls).
Proof.
  induction ls as [| c ls [[cols ->] | [z Hz]]].
  - left. now exists [].
  - destruct c as [s | z].
    + left. now exists (s :: cols).
    + right. exists z. simpl. auto.
  - right. exists z. simpl. auto.
Qed.

Lemma text_labels_no_number (cols : list string) (z : Z) :
  ~ In (Number z) (map Text cols).
Proof.
  intros H. apply in_map_iff in H. destruct H as [c [Hc _]]. discriminate.
Qed.

(** The report on a table whose labels are all text. *)
Lemma report_text (path : string) (cols : list string) (rs : list Row) :
  report path (mkTable (map Text cols) rs)
  = mkOutcome 0
      [ Loaded path (List.length rs, List.length cols) (map Text cols);
        Guesses (map Text (date_columns cols)) (map Text (death_columns cols))
                (map Text (location_columns cols));
        Sample (firstn 5 rs) ].
Proof.
  unfold report. cbn [labels body].
  rewrite !select_labels_text. cbn [bind]. now rewrite length_map.
Qed.

(** The report on a table one of whose labels is a number. *)
Lemma report_number (path : string) (t : Table) (z : Z) :
  In (Number z) (labels t) ->
  report path t
  = mkOutcome 1
      [ Loaded path (List.length (body t), List.length (labels t)) (labels t);
        Traceback AttributeError ].
Proof.
  intros H. unfold report.
  now rewrite (select_labels_number (contains "date") _ _ H).
Qed.

Lemma report_status (path : string) (t : Table) :
  (exit_status (report path t) = 0 \/ exit_status (report path t) = 1) /\
  (exit_status (report path t) = 0 <-> exists cols, labels t = map Text cols).
Proof.
  destruct t as [ls rs].
  destruct (labels_cases ls) as [[cols ->] | [z Hz]].
  - rewrite report_text. simpl. split; auto. split; eauto.
  - rewrite (@report_number path (mkTable ls rs) z Hz). simpl.
    split; auto. split; [discriminate |].
    intros [cols ->]. now apply text_labels_no_number in Hz.
Qed.

Lemma read_and_report_status (reader : string -> Result Table) (path : string) :
  (exit_status (read_and_report reader path) = 0 \/
   exit_status (read_and_report reader path) = 1) /\
  (exit_status (read_and_report reader path) = 0 <->
   exists cols rs, reader path = Ok (mkTable (map Text cols) rs)).
Proof.
  unfold read_and_report. destruct (reader path) as [t | e].
  - destruct (report_status path t) as [H01 Hiff]. split; auto.
    rewrite Hiff. split.
    + intros [cols H]. exists cols, (body t). destruct t. simpl in *.
      now rewrite H.
    + intros [cols [rs [= ->]]]. now exists cols.
  - simpl. split; auto. split; [discriminate |].
    intros [cols [rs H]]. discriminate.
Qed.

(** C9 fails on the code in two places: a reader that raises on an
    existing [.csv] file ends the script with status 1, and a missing
    [.json] file is reported as not found, the existence test coming
    first. *)
Lemma cli_claim_fails :
  ~ exits_nonzero_iff_missing_or_unsupported
      (fun _ => true)
      (fun _ => Raise (ReadError "No columns to parse from file"))
      (fun _ => Raise (ReadError "unused")) "empty.csv" /\
  ~ json_reports_unsupported
      (fun _ => false)
      (fun _ => Raise (ReadError "unused"))
      (fun _ => Raise (ReadError "unused")) "data.json".
Proof.
  split.
  - intros [H _]. vm_compute in H.
    destruct H as [H | H]; [discriminate | discriminate | discriminate].
  - intros [_ H]. vm_compute in H. discriminate.
Qed.

Lemma str_in_supported (s : string) :
  str_in s supported_suffixes
  = str_in s [".csv"; ".txt"]%string || str_in s [".xlsx"; ".xls"]%string.
Proof.
  unfold str_in, supported_suffixes. simpl.
  now rewrite !orb_false_r, !orb_assoc.
Qed.

(** C9 (amended): the path is taken as [Path] normalises it, so that a
    trailing slash or slash and dot does not change its suffix.  A
    missing file gives the not-found message and status 1 whatever its
    suffix; an existing file with an unsupported suffix gives the
    unsupported message and status 1.  With a supported suffix the
    reader is called: what it raises ends the script with status 1, and
    so does a column label that is not text, on which the guesses of
    lines 32-34 raise; status 0 is reached exactly for an existing file
    with a supported suffix whose reader returned a table with text
    labels.  A path ending in [.json] always exits with status 1, with
    the unsupported message (for the suffix [.json], or the empty
    suffix of a file named [.json]) when the file exists and the
    not-found message when it does not. *)
Theorem cli_exit_status (file_exists : string -> bool)
    (read_csv read_excel : string -> Result Table) (arg : string) :
  let path := path_str arg in
  let out := main file_exists read_csv read_excel arg in
  let sfx := lower (path_suffix arg) in
  let reader := if str_in sfx [".csv"; ".txt"]%string
                then read_csv else read_excel in
  (path_suffix (arg ++ "/") = path_suffix arg /\
   path_suffix (arg ++ "/.") = path_suffix arg) /\
  (file_exists path = false -> out = mkOutcome 1 [NotFound path]) /\
  (file_exists path = true -> str_in sfx supported_suffixes = false ->
   out = mkOutcome 1 [Unsupported (path_suffix arg)]) /\
  (file_exists path = true -> str_in sfx supported_suffixes = true ->
   (forall e, reader path = Raise e -> out = mkOutcome 1 [Traceback e]) /\
   (forall t z, reader path = Ok t -> In (Number z) (labels t) ->
      out = mkOutcome 1
              [ Loaded path (List.length (body t), List.length (labels t))
                       (labels t);
                Traceback AttributeError ]) /\
   (forall cols rs, reader path = Ok (mkTable (map Text cols) rs) ->
      out = mkOutcome 0
              [ Loaded path (List.length rs, List.length cols) (map Text cols);
                Guesses (map Text (date_columns cols))
                        (map Text (death_columns cols))
                        (map Text (location_columns cols));
                Sample (firstn 5 rs) ])) /\
  (exit_status out = 0 \/ exit_status out = 1) /\
  (exit_status out = 0 <->
   file_exists path = true /\
   str_in sfx supported_suffixes = true /\
   exists cols rs, reader path = Ok (mkTable (map Text cols) rs)) /\
  (forall stem, arg = (stem ++ ".json")%string ->
     exit_status out = 1 /\
     (path_suffix arg = ".json"%string \/ path_suffix arg = EmptyString) /\
     printed out = if file_exists path
                   then [Unsupported (path_suffix arg)]
                   else [NotFound path]).
Proof.
  intros path out sfx reader.
  split.
  { unfold path_suffix, path_name.
    destruct (path_parts_trailing arg) as [-> ->]. auto. }
  assert (Hjson : forall stem, arg = (stem ++ ".json")%string ->
            str_in sfx [".csv"; ".txt"]%string = false /\
            str_in sfx [".xlsx"; ".xls"]%string = false).
  { intros stem ->. apply json_suffix_unsupported. }
  assert (Hsfx : forall stem, arg = (stem ++ ".json")%string ->
            path_suffix arg = ".json"%string \/ path_suffix arg = EmptyString).
  { intros stem ->. apply json_suffix. }
  subst out reader. unfold main. fold path. fold sfx.
  rewrite (str_in_supported sfx).
  destruct (file_exists path); cbn [negb].
  - destruct (str_in sfx [".csv"; ".txt"]%string) eqn:Ecsv; cbn [orb].
    + destruct (read_and_report_status read_csv path) as [H01 Hiff].
      split; [discriminate |]. split; [discriminate |].
      split; [| split; [exact H01 | split]].
      * intros _ _. unfold read_and_report. split; [| split].
        -- now intros e ->.
        -- intros t z -> Hz. now apply report_number with (z := z).
        -- intros cols rs ->. apply report_text.
      * rewrite Hiff. tauto.
      * intros stem Hs. destruct (Hjson stem Hs). discriminate.
    + destruct (str_in sfx [".xlsx"; ".xls"]%string) eqn:Exl.
      * destruct (read_and_report_status read_excel path) as [H01 Hiff].
        split; [discriminate |]. split; [discriminate |].
        split; [| split; [exact H01 | split]].
        -- intros _ _. unfold read_and_report. split; [| split].
           ++ now intros e ->.
           ++ intros t z -> Hz. now apply report_number with (z := z).
           ++ intros cols rs ->. apply report_text.
        -- rewrite Hiff. tauto.
        -- intros stem Hs. destruct (Hjson stem Hs). discriminate.
      * simpl. split; [discriminate |]. split; [reflexivity |].
        split; [discriminate |]. split; [auto |]. split.
        -- split; [discriminate | intros [_ [H _]]; discriminate].
        -- intros stem Hs.
           split; [reflexivity | split; [now apply (Hsfx stem) | reflexivity]].
  - simpl. split; [reflexivity |]. split; [discriminate |].
    split; [discriminate |]. split; [auto |]. split.
    + split; [discriminate | intros [H _]; discriminate].
    + intros stem Hs.
      split; [reflexivity | split; [now apply (Hsfx stem) | reflexivity]].
Qed.

(** A trailing slash is dropped before the suffix is taken: the file is
    read. *)
Example trailing_slash :
  main (fun p => String.eqb p "owid.csv") (fun _ => Ok text_sheet)
       (fun _ => Raise (ReadError "unused")) "owid.csv/"
  = mkOutcome 0
      [ Loaded "owid.csv" (1, 3)
               [Text "location"; Text "Date"; Text "new_deaths"];
        Guesses [Text "Date"] [Text "new_deaths"] [Text "location"];
        Sample [mkRow 0 [Str "A"; Str "2021-01-01"; Num 7]] ].
Proof. reflexivity. Qed.

(** A sheet with a numeric header cell is read, its shape and columns
    are printed, and the guesses raise. *)
Example numeric_header :
  main (fun _ => true) (fun _ => Raise (ReadError "unused"))
       (fun _ => Ok year_sheet) "data/years.xlsx"
  = mkOutcome 1
      [ Loaded "data/years.xlsx" (1, 2) [Text "location"; Number 2020];
        Traceback AttributeError ].
Proof. reflexivity. Qed.

(** ** Positional selection *)

Lemma take_app {A : Type} (l : list A) (a b : list nat) :
  take l (a ++ b) = take l a ++ take l b.
Proof.
  induction a as [| i a IH]; simpl; auto.
  destruct (nth_error l i); simpl; congruence.
Qed.

Lemma take_In {A : Type} (l : list A) (ix : list nat) (x : A) :
  In x (take l ix) -> In x l.
Proof.
  induction ix as [| i ix IH]; simpl; [tauto |].
  destruct (nth_error l i) eqn:E; auto.
  intros [<- | H]; auto. eapply nth_error_In; eauto.
Qed.

Lemma map_take {A B : Type} (f : A -> B) (l : list A) (ix : list nat) :
  map f (take l ix) = take (map f l) ix.
Proof.
  induction ix as [| i ix IH]; simpl; auto.
  rewrite nth_error_map. destruct (nth_error l i); simpl; congruence.
Qed.

Lemma take_Permutation {A : Type} (l : list A) (ix ix' : list nat) :
  Permutation ix ix' -> Permutation (take l ix) (take l ix').
Proof.
  induction 1 as [| i ix ix' _ IH | i j ix | ix1 ix2 ix3 _ IH1 _ IH2]; simpl.
  - constructor.
  - destruct (nth_error l i); auto.
  - destruct (nth_error l i), (nth_error l j); auto. constructor.
  - eapply Permutation_trans; eauto.
Qed.

(** Selecting the positions where a property of the mapped list holds is
    filtering. *)
Lemma take_filter_seq_from {A B : Type} (f : A -> B) (q : B -> bool) (d : B)
    (l pre : list A) :
  take (pre ++ l)
       (filter (fun i => q (nth i (map f (pre ++ l)) d))
               (seq (List.length pre) (List.length l)))
  = filter (fun x => q (f x)) l.
Proof.
  revert pre. induction l as [| x l IH]; intros pre; simpl; auto.
  assert (Hnth : nth (List.length pre) (map f (pre ++ x :: l)) d = f x).
  { rewrite map_app, app_nth2; rewrite length_map; auto.
    now rewrite Nat.sub_diag. }
  assert (Herr : nth_error (pre ++ x :: l) (List.length pre) = Some x).
  { rewrite nth_error_app2; auto. now rewrite Nat.sub_diag. }
  specialize (IH (pre ++ [x])).
  rewrite <- app_assoc, length_app, Nat.add_1_r in IH. simpl in IH.
  rewrite Hnth. destruct (q (f x)); simpl.
  - rewrite Herr. now rewrite IH.
  - apply IH.
Qed.

Lemma take_filter_seq {A B : Type} (f : A -> B) (q : B -> bool) (d : B)
    (l : list A) :
  take l (filter (fun i => q (nth i (map f l) d)) (seq 0 (List.length l)))
  = filter (fun x => q (f x)) l.
Proof. apply (take_filter_seq_from f q d l []). Qed.

Lemma filter_all {A : Type} (p : A -> bool) (l : list A) :
  (forall x, In x l -> p x = true) -> filter p l = l.
Proof.
  induction l as [| x l IH]; simpl; auto.
  intros H. rewrite (H x); auto. f_equal. auto.
Qed.

Lemma take_seq_all {A : Type} (l : list A) : take l (seq 0 (List.length l)) = l.
Proof.
  destruct l as [| x l]; auto.
  pose proof (take_filter_seq (fun y : A => y) (fun _ => true) x (x :: l)) as H.
  rewrite !filter_all in H; auto.
Qed.

Lemma nth_error_take {A : Type} (l : list A) (ix : list nat) (j : nat) :
  Forall (fun i => i < List.length l) ix ->
  nth_error (take l ix) j
  = match nth_error ix j with
    | Some i => nth_error l i
    | None => None
    end.
Proof.
  intros H. revert j. induction H as [| i ix Hi _ IH]; intros j; simpl.
  - now destruct j.
  - destruct (nth_error l i) eqn:E.
    + destruct j; simpl; auto.
    + apply nth_error_None in E. lia.
Qed.

Lemma take_take {A : Type} (l : list A) (ix1 ix2 : list nat) :
  Forall (fun i => i < List.length l) ix1 ->
  take l (take ix1 ix2) = take (take l ix1) ix2.
Proof.
  intros H. induction ix2 as [| j ix2 IH]; simpl; auto.
  rewrite (@nth_error_take _ l ix1 j H).
  destruct (nth_error ix1 j) as [i |] eqn:Ej; simpl; auto.
  destruct (nth_error l i) eqn:E; simpl; [congruence |].
  apply nth_error_None in E. apply nth_error_In in Ej.
  rewrite Forall_forall in H. specialize (H i Ej). lia.
Qed.

(** ** Sorting by a column *)

Lemma filter_map_comm {A B : Type} (f : A -> B) (q : B -> bool) (l : list A) :
  filter q (map f l) = map f (filter (fun x => q (f x)) l).
Proof.
  induction l as [| x l IH]; simpl; auto.
  destruct (q (f x)); simpl; congruence.
Qed.

Lemma filter_seq_lt (p : nat -> bool) (n : nat) :
  Forall (fun i => i < n) (filter p (seq 0 n)).
Proof.
  apply Forall_forall. intros i Hi. apply filter_In in Hi.
  destruct Hi as [Hi _]. apply in_seq in Hi. lia.
Qed.

(** The sorted frame is the present-key rows in the order [argsort]
    gives them, followed by the missing-key rows in input order. *)
Lemma sort_rows_split (argsort : list cell -> list nat) (key : Row -> cell)
    (rs : list Row) :
  let present := filter (fun r => notna (key r)) rs in
  sort_rows argsort key rs
  = take present (argsort (map key present))
    ++ filter (fun r => isna (key r)) rs.
Proof.
  intros present. unfold sort_rows, nargsort.
  rewrite length_map, take_app.
  rewrite (take_filter_seq key isna NA rs).
  rewrite take_take.
  - rewrite (take_filter_seq key notna NA rs).
    now rewrite filter_map_comm.
  - apply filter_seq_lt.
Qed.

Section Sorter.

Variable argsort : list cell -> list nat.
Hypothesis argsort_ok : argsort_spec argsort.

Variable key : Row -> cell.

Lemma take_argsort_Permutation {A : Type} (f : A -> cell) (l : list A) :
  Permutation (take l (argsort (map f l))) l.
Proof.
  destruct (argsort_ok (map f l)) as [Hperm _].
  rewrite length_map in Hperm.
  apply (take_Permutation l) in Hperm.
  now rewrite take_seq_all in Hperm.
Qed.

Lemma take_argsort_sorted {A : Type} (f : A -> cell) (l : list A) :
  StronglySorted sort_le (map f (take l (argsort (map f l)))).
Proof.
  rewrite map_take. apply argsort_ok.
Qed.

Lemma filter_partition_Permutation {A : Type} (p : A -> bool) (l : list A) :
  Permutation (filter p l ++ filter (fun x => negb (p x)) l) l.
Proof.
  induction l as [| x l IH]; simpl; auto.
  destruct (p x); simpl.
  - now constructor.
  - apply Permutation_sym. apply Permutation_cons_app.
    now apply Permutation_sym.
Qed.

Lemma sort_rows_Permutation (rs : list Row) :
  Permutation (sort_rows argsort key rs) rs.
Proof.
  rewrite sort_rows_split.
  eapply Permutation_trans.
  - apply Permutation_app_tail. apply take_argsort_Permutation.
  - pose proof (filter_partition_Permutation
                  (fun r => notna (key r)) rs) as H.
    unfold notna in H at 2.
    erewrite (filter_ext (fun r => isna (key r))); [exact H |].
    intros r. simpl. now rewrite negb_involutive.
Qed.

Lemma StronglySorted_app_sort_le (l1 l2 : list cell) :
  StronglySorted sort_le l1 -> Forall (fun c => c = NA) l2 ->
  StronglySorted sort_le (l1 ++ l2).
Proof.
  intros H1 H2. induction H1 as [| c l1 Hs IH Hall]; simpl.
  - induction H2 as [| c l2 -> Hall IH]; constructor; auto.
    eapply Forall_impl; [| exact Hall]. intros d ->. apply sort_le_NA.
  - constructor; auto. apply Forall_app. split; auto.
    eapply Forall_impl; [| exact H2]. intros d ->. apply sort_le_NA.
Qed.

Lemma sort_rows_sorted (rs : list Row) :
  StronglySorted sort_le (map key (sort_rows argsort key rs)).
Proof.
  rewrite sort_rows_split, map_app.
  apply StronglySorted_app_sort_le.
  - apply take_argsort_sorted.
  - apply Forall_forall. intros c Hc. apply in_map_iff in Hc.
    destruct Hc as [r [<- Hr]]. apply filter_In in Hr.
    destruct Hr as [_ Hr]. now destruct (key r).
Qed.

(** Rows with a missing key keep their input order. *)
Lemma sort_rows_missing (rs : list Row) :
  filter (fun r => isna (key r)) (sort_rows argsort key rs)
  = filter (fun r => isna (key r)) rs.
Proof.
  rewrite sort_rows_split, filter_app.
  rewrite (filter_nil_iff (fun r => isna (key r))
             (take _ (argsort _))).
  - simpl. apply filter_all. intros r Hr. apply filter_In in Hr. tauto.
  - intros r Hr. apply take_In in Hr. apply filter_In in Hr.
    destruct Hr as [_ Hr]. unfold notna in Hr.
    now destruct (isna (key r)).
Qed.

End Sorter.

(** ** Stable sorters *)

Lemma StronglySorted_filter {A : Type} (R : A -> A -> Prop) (p : A -> bool)
    (l : list A) :
  StronglySorted R l -> StronglySorted R (filter p l).
Proof.
  induction 1 as [| x l Hs IH Hall]; simpl; [constructor |].
  destruct (p x); auto. constructor; auto.
  apply Forall_forall. intros y Hy. apply filter_In in Hy.
  rewrite Forall_forall in Hall. apply Hall. tauto.
Qed.

Lemma StronglySorted_impl_In {A : Type} (R R' : A -> A -> Prop) (l : list A) :
  (forall x y, In x l -> In y l -> R x y -> R' x y) ->
  StronglySorted R l -> StronglySorted R' l.
Proof.
  intros Himp H. induction H as [| x l Hs IH Hall]; constructor.
  - apply IH. intros a b Ha Hb. apply Himp; simpl; auto.
  - rewrite Forall_forall in *. intros y Hy.
    apply Himp; simpl; auto.
Qed.

Lemma StronglySorted_map {A B : Type} (R : B -> B -> Prop) (f : A -> B)
    (l : list A) :
  StronglySorted R (map f l) <-> StronglySorted (fun x y => R (f x) (f y)) l.
Proof.
  induction l as [| x l IH]; simpl; split; intros H;
    try constructor; inversion H as [| ? ? Hs Hall]; subst.
  - now apply IH.
  - rewrite Forall_forall in *. intros y Hy. apply Hall. now apply in_map.
  - now apply IH.
  - rewrite Forall_forall in *. intros c Hc. apply in_map_iff in Hc.
    destruct Hc as [y [<- Hy]]. auto.
Qed.

Lemma StronglySorted_seq (a n : nat) : StronglySorted lt (seq a n).
Proof.
  revert a. induction n as [| n IH]; intros a; simpl; constructor; auto.
  apply Forall_forall. intros i Hi. apply in_seq in Hi. lia.
Qed.

(** Two increasing lists with the same elements are the same list. *)
Lemma StronglySorted_lt_unique (l l' : list nat) :
  StronglySorted lt l -> StronglySorted lt l' -> Permutation l l' -> l = l'.
Proof.
  intros H. revert l'. induction H as [| a l Hs IH Hall]; intros l' H' Hp.
  - apply Permutation_nil in Hp. now subst.
  - destruct H' as [| b l' Hs' Hall'].
    + apply Permutation_sym, Permutation_nil in Hp. discriminate.
    + assert (Ha : In a (b :: l'))
        by (eapply Permutation_in; [exact Hp | simpl; auto]).
      assert (Hb : In b (a :: l))
        by (eapply Permutation_in;
            [apply Permutation_sym; exact Hp | simpl; auto]).
      rewrite Forall_forall in Hall, Hall'.
      assert (a = b).
      { destruct Ha as [Ha | Ha]; auto. destruct Hb as [Hb | Hb]; auto.
        apply Hall in Hb. apply Hall' in Ha. lia. }
      subst b. f_equal. apply IH; auto.
      eapply Permutation_cons_inv; eauto.
Qed.

Lemma filter_Permutation {A : Type} (p : A -> bool) (l l' : list A) :
  Permutation l l' -> Permutation (filter p l) (filter p l').
Proof.
  induction 1 as [| x l l' _ IH | x y l | l1 l2 l3 _ IH1 _ IH2]; simpl.
  - constructor.
  - destruct (p x); auto.
  - destruct (p x), (p y); auto. constructor.
  - eapply Permutation_trans; eauto.
Qed.

Lemma filter_take {A : Type} (f : A -> cell) (q : cell -> bool) (l : list A)
    (ix : list nat) :
  filter (fun x => q (f x)) (take l ix)
  = take l (filter (fun i => q (nth i (map f l) NA)) ix).
Proof.
  induction ix as [| i ix IH]; simpl; auto.
  destruct (nth_error l i) as [x |] eqn:E.
  - assert (Hn : nth i (map f l) NA = f x).
    { apply nth_error_nth. now apply map_nth_error. }
    rewrite Hn. simpl. destruct (q (f x)); simpl; rewrite ?E; congruence.
  - destruct (q (nth i (map f l) NA)); simpl; rewrite ?E; auto.
Qed.

(** Under a stable sorter the elements with one given key come out in
    their input order. *)
Lemma take_stable_argsort {A : Type} (argsort : list cell -> list nat)
    (f : A -> cell) (l : list A) (k : cell) :
  argsort_spec argsort -> argsort_stable argsort ->
  filter (fun x => cell_eqb (f x) k) (take l (argsort (map f l)))
  = filter (fun x => cell_eqb (f x) k) l.
Proof.
  intros Hspec Hstable.
  rewrite (filter_take f (fun c => cell_eqb c k)).
  rewrite <- (take_filter_seq f (fun c => cell_eqb c k) NA l).
  f_equal.
  destruct (Hspec (map f l)) as [Hperm _]. rewrite length_map in Hperm.
  apply StronglySorted_lt_unique.
  - apply StronglySorted_impl_In
      with (R := fun i j => nth i (map f l) NA = nth j (map f l) NA -> i < j).
    + intros i j Hi Hj Hij. apply Hij.
      apply filter_In in Hi, Hj. destruct Hi as [_ Hi], Hj as [_ Hj].
      apply cell_eqb_true in Hi, Hj. destruct Hi as [-> _], Hj as [-> _].
      reflexivity.
    + apply StronglySorted_filter. apply Hstable.
  - apply StronglySorted_filter, StronglySorted_seq.
  - now apply filter_Permutation.
Qed.

Lemma sort_rows_stable (argsort : list cell -> list nat) (key : Row -> cell)
    (rs : list Row) (k : cell) :
  argsort_spec argsort -> argsort_stable argsort ->
  filter (fun r => cell_eqb (key r) k) (sort_rows argsort key rs)
  = filter (fun r => cell_eqb (key r) k) rs.
Proof.
  intros Hspec Hstable.
  rewrite sort_rows_split, filter_app.
  rewrite take_stable_argsort; auto.
  rewrite (filter_nil_iff (fun r => cell_eqb (key r) k)
             (filter (fun r => isna (key r)) rs)).
  - rewrite app_nil_r.
    induction rs as [| r rs IH]; simpl; auto.
    destruct (notna (key r)) eqn:En; simpl.
    + destruct (cell_eqb (key r) k); congruence.
    + destruct (cell_eqb (key r) k) eqn:E; auto.
      apply cell_eqb_true in E. destruct E as [_ E]. congruence.
  - intros r Hr. apply filter_In in Hr. destruct Hr as [_ Hr].
    destruct (cell_eqb (key r) k) eqn:E; auto.
    apply cell_eqb_true in E. destruct E as [_ E].
    unfold notna in E. rewrite Hr in E. discriminate.
Qed.

(** Insertion of positions meets the contract of [argsort] as soon as
    the test that keeps an element in front agrees with the order. *)
Section Insertion.

Variable stays : cell -> cell -> bool.
Hypothesis stays_true : forall a b, stays a b = true -> sort_le a b.
Hypothesis stays_false : forall a b, stays a b = false -> sort_le b a.

Variable ks : list cell.

Let key_le (i j : nat) : Prop := sort_le (nth i ks NA) (nth j ks NA).

Lemma insert_idx_Permutation (i : nat) (l : list nat) :
  Permutation (insert_idx stays ks i l) (i :: l).
Proof.
  induction l as [| j l IH]; simpl; auto.
  destruct (stays (nth j ks NA) (nth i ks NA)); auto.
  eapply Permutation_trans; [apply perm_skip, IH | apply perm_swap].
Qed.

Lemma insert_idx_sorted (i : nat) (l : list nat) :
  StronglySorted key_le l -> StronglySorted key_le (insert_idx stays ks i l).
Proof.
  induction 1 as [| j l Hs IH Hall]; simpl.
  - repeat constructor.
  - destruct (stays (nth j ks NA) (nth i ks NA)) eqn:E.
    + constructor; auto.
      apply Forall_forall. intros x Hx.
      apply (Permutation_in _ (insert_idx_Permutation i l)) in Hx.
      destruct Hx as [<- | Hx].
      * now apply stays_true.
      * rewrite Forall_forall in Hall. auto.
    + apply stays_false in E.
      constructor; [constructor; auto |].
      constructor; auto.
      eapply Forall_impl; [| exact Hall].
      intros x Hx. eapply sort_le_trans; eauto.
Qed.

Lemma fold_insert_Permutation (l : list nat) :
  Permutation (fold_right (insert_idx stays ks) [] l) l.
Proof.
  induction l as [| i l IH]; simpl; auto.
  eapply Permutation_trans; [apply insert_idx_Permutation |].
  now constructor.
Qed.

Lemma fold_insert_sorted (l : list nat) :
  StronglySorted key_le (fold_right (insert_idx stays ks) [] l).
Proof.
  induction l as [| i l IH]; simpl; [constructor |].
  now apply insert_idx_sorted.
Qed.

End Insertion.

Lemma take_in_range {A : Type} (d : A) (l : list A) (ix : list nat) :
  Forall (fun i => i < List.length l) ix ->
  take l ix = map (fun i => nth i l d) ix.
Proof.
  induction 1 as [| i ix Hi _ IH]; simpl; auto.
  destruct (nth_error l i) eqn:E.
  - rewrite (nth_error_nth _ _ d E). congruence.
  - apply nth_error_None in E. lia.
Qed.

Lemma insertion_argsort_spec (stays : cell -> cell -> bool) :
  (forall a b, stays a b = true -> sort_le a b) ->
  (forall a b, stays a b = false -> sort_le b a) ->
  argsort_spec (insertion_argsort stays).
Proof.
  intros Ht Hf ks. unfold insertion_argsort.
  pose proof (fold_insert_Permutation stays ks (seq 0 (List.length ks))) as Hp.
  split; auto.
  rewrite (take_in_range NA).
  - apply StronglySorted_map. now apply fold_insert_sorted.
  - apply Forall_forall. intros i Hi.
    apply (Permutation_in _ Hp) in Hi. apply in_seq in Hi. lia.
Qed.

Lemma compare_ltb_true (a b : cell) : compare_ltb a b = true -> sort_le a b.
Proof.
  unfold compare_ltb, sort_le.
  destruct (cell_compare a b); congruence.
Qed.

Lemma compare_ltb_false (a b : cell) : compare_ltb a b = false -> sort_le b a.
Proof.
  unfold compare_ltb, sort_le. intros H Hgt.
  apply cell_compare_gt_lt in Hgt. now rewrite Hgt in H.
Qed.

Lemma stable_argsort_spec : argsort_spec stable_argsort.
Proof.
  apply insertion_argsort_spec;
    auto using compare_ltb_true, compare_ltb_false.
Qed.

Lemma reversing_argsort_spec : argsort_spec reversing_argsort.
Proof.
  apply insertion_argsort_spec; intros a b H.
  - apply negb_true_iff in H. now apply compare_ltb_false.
  - apply negb_false_iff in H. now apply compare_ltb_true.
Qed.



(** ** Last elements *)

Lemma last_opt_cons {A : Type} (x : A) (l : list A) :
  l <> [] -> last_opt (x :: l) = last_opt l.
Proof. destruct l; simpl; congruence. Qed.

Lemma last_opt_In {A : Type} (l : list A) (x : A) :
  last_opt l = Some x -> In x l.
Proof.
  induction l as [| y l IH]; simpl; [discriminate |].
  destruct l as [| z l].
  - intros [= ->]. auto.
  - intros H. right. now apply IH.
Qed.

Lemma last_opt_nonempty {A : Type} (l : list A) :
  l <> [] -> exists x, last_opt l = Some x.
Proof.
  induction l as [| y l IH]; [congruence |]. intros _.
  destruct l as [| z l]; [simpl; eauto |].
  rewrite last_opt_cons; [| discriminate]. apply IH. discriminate.
Qed.

Lemma In_nonempty {A : Type} (x : A) (l : list A) : In x l -> l <> [].
Proof. destruct l; simpl; [tauto | discriminate]. Qed.

(** In a sorted list every element stands before the last one. *)
Lemma last_opt_greatest {A : Type} (R : A -> A -> Prop) (l : list A) (r : A) :
  (forall x, R x x) -> StronglySorted R l -> last_opt l = Some r ->
  forall x, In x l -> R x r.
Proof.
  intros Hrefl H. induction H as [| y l Hs IH Hall]; simpl; [discriminate |].
  destruct l as [| z l].
  - intros [= ->] x [<- | []]. apply Hrefl.
  - intros Hr x [<- | Hx].
    + rewrite Forall_forall in Hall. apply Hall.
      now apply last_opt_In.
    + now apply IH.
Qed.

Lemma filter_andb {A : Type} (p q : A -> bool) (l : list A) :
  filter (fun x => p x && q x) l = filter p (filter q l).
Proof.
  induction l as [| x l IH]; simpl; auto.
  destruct (q x); simpl; rewrite ?andb_true_r, ?andb_false_r.
  - destruct (p x); congruence.
  - exact IH.
Qed.

(** If, among the elements satisfying [p], property [q] once reached
    holds for all later ones, then the last [p]-element and the last
    [p]-and-[q]-element coincide. *)
Lemma last_opt_filter_upward {A : Type} (p q : A -> bool) (l : list A) :
  StronglySorted
    (fun x y => p x = true -> q x = true -> p y = true -> q y = true) l ->
  (exists x, In x l /\ p x = true /\ q x = true) ->
  last_opt (filter p l) = last_opt (filter (fun x => p x && q x) l).
Proof.
  induction 1 as [| a l Hs IH Hall]; intros [x [Hin [Hp Hq]]].
  - destruct Hin.
  - cbn [filter]. destruct (p a) eqn:Epa; cbn [andb].
    + destruct (q a) eqn:Eqa.
      * assert (Heq : filter p l = filter (fun y => p y && q y) l).
        { apply filter_ext_in. intros y Hy.
          rewrite Forall_forall in Hall.
          destruct (p y) eqn:Epy; auto. simpl. symmetry. now apply Hall. }
        now rewrite Heq.
      * destruct Hin as [-> | Hin]; [congruence |].
        rewrite last_opt_cons.
        -- apply IH. eauto.
        -- apply (In_nonempty x). apply filter_In. auto.
    + destruct Hin as [-> | Hin]; [congruence |]. apply IH. eauto.
Qed.

(** ** The tail of each group *)

Lemma existsb_ext {A : Type} (p q : A -> bool) (l : list A) :
  (forall x, p x = q x) -> existsb p l = existsb q l.
Proof.
  intros H. induction l as [| x l IH]; simpl; congruence.
Qed.

Section Groups.

Variable loc : Row -> cell.

Lemma existsb_group (g : cell) (l : list Row) :
  existsb (fun r => cell_eqb (loc r) g) l = false ->
  group_rows loc g l = [].
Proof.
  intros H. apply filter_nil_iff. intros r Hr.
  destruct (cell_eqb (loc r) g) eqn:E; auto.
  assert (existsb (fun r => cell_eqb (loc r) g) l = true)
    by (apply existsb_exists; eauto).
  congruence.
Qed.

Lemma group_nonempty (g : cell) (l : list Row) :
  existsb (fun r => cell_eqb (loc r) g) l = true ->
  group_rows loc g l <> [].
Proof.
  intros H. apply existsb_exists in H. destruct H as [r [Hr E]].
  apply (In_nonempty r). apply filter_In. auto.
Qed.

Lemma cell_eqb_trans_l (a b g : cell) :
  cell_eqb a g = true -> cell_eqb b a = cell_eqb b g.
Proof.
  intros H. apply cell_eqb_true in H. now destruct H as [-> _].
Qed.

(** The row kept for a group is the last row of the group. *)
Lemma tail1_row_of (g : cell) (l : list Row) :
  row_of loc g (groupby_tail1 loc l) = last_opt (group_rows loc g l).
Proof.
  unfold row_of, group_rows.
  induction l as [| r l IH]; [reflexivity |].
  cbn [groupby_tail1 filter].
  destruct (cell_eqb (loc r) g) eqn:Eg.
  - assert (Hn : notna (loc r) = true).
    { apply cell_eqb_true in Eg. destruct Eg as [_ Hn]. exact Hn. }
    rewrite Hn.
    rewrite (existsb_ext _ (fun r' => cell_eqb (loc r') g));
      [| intros r'; now apply cell_eqb_trans_l].
    destruct (existsb (fun r' => cell_eqb (loc r') g) l) eqn:Ex;
      cbn [andb negb find].
    + rewrite IH. symmetry. apply last_opt_cons.
      now apply group_nonempty.
    + rewrite Eg. apply existsb_group in Ex. unfold group_rows in Ex.
      now rewrite Ex.
  - destruct (notna (loc r) &&
              negb (existsb (fun r' => cell_eqb (loc r') (loc r)) l));
      cbn [find]; rewrite ?Eg; exact IH.
Qed.

Lemma tail1_In (r : Row) (l : list Row) :
  In r (groupby_tail1 loc l) -> In r l /\ notna (loc r) = true.
Proof.
  induction l as [| x l IH]; simpl; [tauto |].
  destruct (notna (loc x)) eqn:En; simpl.
  - destruct (existsb (fun r' => cell_eqb (loc r') (loc x)) l); simpl.
    + intros H. apply IH in H. tauto.
    + intros [<- | H]; [auto |]. apply IH in H. tauto.
  - intros H. apply IH in H. tauto.
Qed.

(** Exactly one row is kept for each key that occurs, none for a key
    that does not. *)
Lemma tail1_count (g : cell) (l : list Row) :
  List.length (group_rows loc g (groupby_tail1 loc l))
  = if existsb (fun r => cell_eqb (loc r) g) l then 1 else 0.
Proof.
  unfold group_rows.
  induction l as [| r l IH]; simpl; auto.
  destruct (cell_eqb (loc r) g) eqn:Eg; simpl.
  - assert (Hn : notna (loc r) = true).
    { apply cell_eqb_true in Eg. destruct Eg as [_ Hn]. exact Hn. }
    rewrite Hn. simpl.
    rewrite (existsb_ext _ (fun r' => cell_eqb (loc r') g));
      [| intros r'; now apply cell_eqb_trans_l].
    destruct (existsb (fun r' => cell_eqb (loc r') g) l) eqn:Ex; simpl.
    + exact IH.
    + rewrite Eg. simpl. now rewrite IH.
  - destruct (notna (loc r) &&
              negb (existsb (fun r' => cell_eqb (loc r') (loc r)) l));
      simpl; rewrite ?Eg; exact IH.
Qed.

End Groups.

Lemma existsb_Permutation {A : Type} (p : A -> bool) (l l' : list A) :
  Permutation l l' -> existsb p l = existsb p l'.
Proof.
  induction 1 as [| x l l' _ IH | x y l | l1 l2 l3 _ IH1 _ IH2]; simpl;
    try congruence.
  destruct (p x), (p y); reflexivity.
Qed.

(** ** Maximum of a column *)

Lemma cell_max_cases (a b : cell) : cell_max a b = a \/ cell_max a b = b.
Proof.
  unfold cell_max. destruct a, b; auto;
    destruct (cell_compare _ _); auto.
Qed.

Lemma cell_max_l (a b : cell) :
  notna a = true -> notna (cell_max a b) = true /\ sort_le a (cell_max a b).
Proof.
  intros Ha. unfold cell_max.
  destruct a; try discriminate; destruct b;
    try (split; [reflexivity | apply sort_le_refl]);
    destruct (cell_compare _ _) eqn:E;
    (split; [reflexivity |]);
    try apply sort_le_refl; unfold sort_le; congruence.
Qed.

Lemma cell_max_r (a b : cell) :
  notna b = true -> notna (cell_max a b) = true /\ sort_le b (cell_max a b).
Proof.
  intros Hb. unfold cell_max.
  destruct b; try discriminate; destruct a;
    try (split; [reflexivity | apply sort_le_refl]);
    destruct (cell_compare _ _) eqn:E;
    (split; [reflexivity |]);
    try apply sort_le_refl; unfold sort_le;
    rewrite cell_compare_antisym, E; simpl; congruence.
Qed.

Lemma fold_max_spec (cs : list cell) :
  forall a,
    let m := fold_left cell_max cs a in
    (m = a \/ In m cs) /\
    (notna a = true -> notna m = true /\ sort_le a m) /\
    (forall c, In c cs -> notna c = true -> notna m = true /\ sort_le c m).
Proof.
  induction cs as [| c cs IH]; intros a; simpl.
  - split; [auto |]. split; [auto using sort_le_refl | tauto].
  - destruct (IH (cell_max a c)) as [Hin [Hacc Hall]].
    split; [| split].
    + destruct Hin as [-> | Hin]; auto.
      destruct (cell_max_cases a c) as [-> | ->]; auto.
    + intros Ha. destruct (cell_max_l a c Ha) as [Hn Hle].
      destruct (Hacc Hn) as [Hn' Hle']. split; auto.
      eapply sort_le_trans; eauto.
    + intros d [<- | Hd] Hn.
      * destruct (cell_max_r a c Hn) as [Hn1 Hle].
        destruct (Hacc Hn1) as [Hn' Hle']. split; auto.
        eapply sort_le_trans; eauto.
      * now apply Hall.
Qed.

Lemma series_max_upper (cs : list cell) (c : cell) :
  In c cs -> notna c = true ->
  notna (series_max cs) = true /\ sort_le c (series_max cs).
Proof. intros Hc Hn. now apply (fold_max_spec cs NA). Qed.

Lemma series_max_In (cs : list cell) (c : cell) :
  In c cs -> notna c = true -> In (series_max cs) cs.
Proof.
  intros Hc Hn. destruct (series_max_upper cs c Hc Hn) as [Hm _].
  destruct (fold_max_spec cs NA) as [[H | H] _]; auto.
  unfold series_max in Hm. rewrite H in Hm. discriminate.
Qed.

Lemma series_max_all_missing (cs : list cell) :
  (forall c, In c cs -> c = NA) -> series_max cs = NA.
Proof.
  intros H. destruct (fold_max_spec cs NA) as [[Hm | Hm] _]; auto.
Qed.

(** ** The latest row of each location *)

Lemma find_filter {A : Type} (p : A -> bool) (l : list A) :
  find p l = hd_error (filter p l).
Proof.
  induction l as [| x l IH]; simpl; auto. destruct (p x); auto.
Qed.

Section Latest.

Variable argsort : list cell -> list nat.
Hypothesis argsort_ok : argsort_spec argsort.

Variables loc date : Row -> cell.
Variable rs : list Row.

Let sorted : list Row := sort_rows argsort date rs.
Let out : list Row := groupby_tail1 loc sorted.

Lemma latest_In (r : Row) :
  In r out -> In r rs /\ notna (loc r) = true.
Proof.
  intros H. apply tail1_In in H. destruct H as [H Hn]. split; auto.
  eapply Permutation_in; [| exact H].
  now apply sort_rows_Permutation.
Qed.

Lemma latest_count (g : cell) :
  List.length (group_rows loc g out)
  = if existsb (fun r => cell_eqb (loc r) g) rs then 1 else 0.
Proof.
  unfold out. rewrite tail1_count.
  now rewrite (existsb_Permutation _
                 (sort_rows_Permutation argsort_ok date rs)).
Qed.

Lemma latest_row_of_iff (g : cell) (r : Row) :
  row_of loc g out = Some r <-> group_rows loc g out = [r].
Proof.
  unfold row_of. rewrite find_filter. fold (group_rows loc g out).
  pose proof (latest_count g) as Hc.
  destruct (group_rows loc g out) as [| x [| y l]]; simpl in *.
  - split; discriminate.
  - split; congruence.
  - destruct (existsb _ rs); discriminate.
Qed.

Lemma latest_row_of_In (r : Row) :
  In r out -> row_of loc (loc r) out = Some r.
Proof.
  intros H. apply latest_row_of_iff.
  assert (Hg : In r (group_rows loc (loc r) out)).
  { apply filter_In. split; auto. apply cell_eqb_refl.
    now apply latest_In. }
  pose proof (latest_count (loc r)) as Hc.
  destruct (group_rows loc (loc r) out) as [| x [| y l]]; simpl in *.
  - tauto.
  - destruct Hg as [-> | []]. reflexivity.
  - destruct (existsb _ rs); discriminate.
Qed.

Lemma latest_is_last_sorted (g : cell) :
  row_of loc g out = last_opt (group_rows loc g sorted).
Proof. apply tail1_row_of. Qed.

Lemma sorted_group_sorted (g : cell) :
  StronglySorted (fun x y => sort_le (date x) (date y))
                 (group_rows loc g sorted).
Proof.
  apply StronglySorted_filter. apply StronglySorted_map.
  now apply sort_rows_sorted.
Qed.

Lemma In_sorted_group (g : cell) (r : Row) :
  In r rs -> cell_eqb (loc r) g = true -> In r (group_rows loc g sorted).
Proof.
  intros Hr Hg. apply filter_In. split; auto.
  eapply Permutation_in; [| exact Hr].
  apply Permutation_sym. now apply sort_rows_Permutation.
Qed.

(** No row of the group sorts after the row that is kept. *)
Lemma latest_greatest (g : cell) (r r' : Row) :
  row_of loc g out = Some r -> In r' rs -> cell_eqb (loc r') g = true ->
  sort_le (date r') (date r).
Proof.
  rewrite latest_is_last_sorted. intros Hlast Hr' Hg.
  eapply (@last_opt_greatest Row (fun x y => sort_le (date x) (date y))).
  - intros x. apply sort_le_refl.
  - apply (sorted_group_sorted g).
  - exact Hlast.
  - now apply In_sorted_group.
Qed.

Lemma latest_not_later (r r' : Row) :
  In r out -> In r' rs -> cell_eqb (loc r') (loc r) = true ->
  cell_ltb (date r) (date r') = false.
Proof.
  intros Hr Hr' Hg. apply cell_ltb_sort_le.
  apply (latest_greatest (loc r)); auto.
  now apply latest_row_of_In.
Qed.

(** A group with a missing date: the last such row of the group, in
    input order, is the one kept. *)
Lemma latest_missing_date (g : cell) (r0 : Row) :
  In r0 rs -> cell_eqb (loc r0) g = true -> isna (date r0) = true ->
  row_of loc g out
  = last_opt (filter (fun r => cell_eqb (loc r) g && isna (date r)) rs).
Proof.
  intros Hr0 Hg Hna. rewrite latest_is_last_sorted. unfold group_rows.
  rewrite (last_opt_filter_upward
             (fun r => cell_eqb (loc r) g) (fun r => isna (date r))).
  - rewrite !filter_andb. unfold sorted.
    now rewrite (sort_rows_missing argsort date rs).
  - apply StronglySorted_impl_In
      with (R := fun x y => sort_le (date x) (date y)).
    + intros x y _ _ Hle _ Hx _.
      destruct (date x); try discriminate.
      now rewrite (sort_le_NA_inv Hle).
    + apply StronglySorted_map. now apply sort_rows_sorted.
  - exists r0. split; auto.
    eapply Permutation_in; [| exact Hr0].
    apply Permutation_sym. now apply sort_rows_Permutation.
Qed.

Section FullyDated.

Variable g : cell.
Hypothesis dated :
  forallb (fun x => notna (date x)) (group_rows loc g rs) = true.

Let latest_date : cell := series_max (map date (group_rows loc g rs)).

Lemma group_date_present (x : Row) :
  In x rs -> cell_eqb (loc x) g = true -> notna (date x) = true.
Proof.
  intros Hx Hg. rewrite forallb_forall in dated. apply dated.
  apply filter_In. auto.
Qed.

Lemma group_date_le_max (x : Row) :
  In x rs -> cell_eqb (loc x) g = true ->
  notna latest_date = true /\ sort_le (date x) latest_date.
Proof.
  intros Hx Hg. apply series_max_upper.
  - apply in_map. apply filter_In. auto.
  - now apply group_date_present.
Qed.

(** The row kept carries the greatest date of its group. *)
Lemma latest_max_date (r : Row) :
  row_of loc g out = Some r -> date r = latest_date.
Proof.
  intros Hrow.
  assert (Hr : In r out /\ cell_eqb (loc r) g = true).
  { apply latest_row_of_iff in Hrow.
    assert (H : In r (group_rows loc g out)) by (rewrite Hrow; simpl; auto).
    apply filter_In in H. exact H. }
  destruct Hr as [Hr Hg]. apply latest_In in Hr. destruct Hr as [Hr _].
  destruct (group_date_le_max r Hr Hg) as [Hn Hle].
  apply sort_le_antisym; auto.
  assert (Hin : In latest_date (map date (group_rows loc g rs))).
  { apply series_max_In with (c := date r).
    - apply in_map. apply filter_In. auto.
    - now apply group_date_present. }
  apply in_map_iff in Hin. destruct Hin as [x [Hx Hin]].
  apply filter_In in Hin. destruct Hin as [Hin Hxg].
  rewrite <- Hx. now apply (latest_greatest g).
Qed.

(** Under a stable sorter, of the rows of the group that carry its
    greatest date the last in input order is kept. *)
Lemma latest_stable_tie (r : Row) :
  argsort_stable argsort ->
  row_of loc g out = Some r ->
  Some r = last_opt (filter (fun x => cell_eqb (loc x) g
                                      && cell_eqb (date x) latest_date) rs).
Proof.
  intros Hstable Hrow. rewrite <- Hrow.
  assert (Hr : In r rs /\ cell_eqb (loc r) g = true).
  { apply latest_row_of_iff in Hrow.
    assert (H : In r (group_rows loc g out)) by (rewrite Hrow; simpl; auto).
    apply filter_In in H. destruct H as [H Hg]. split; auto.
    now apply latest_In. }
  destruct Hr as [Hr Hg].
  rewrite latest_is_last_sorted. unfold group_rows.
  rewrite (last_opt_filter_upward
             (fun x => cell_eqb (loc x) g)
             (fun x => cell_eqb (date x) latest_date)).
  - rewrite !filter_andb. unfold sorted.
    now rewrite (sort_rows_stable date rs latest_date argsort_ok Hstable).
  - apply StronglySorted_impl_In
      with (R := fun x y => sort_le (date x) (date y)).
    + intros x y _ Hy Hle _ Hx Hyg.
      apply cell_eqb_true in Hx. destruct Hx as [Hx Hnx].
      apply cell_eqb_true. split.
      * apply sort_le_antisym.
        -- apply group_date_le_max; auto.
           eapply Permutation_in; [| exact Hy].
           now apply sort_rows_Permutation.
        -- now rewrite <- Hx.
      * apply group_date_present; auto.
        eapply Permutation_in; [| exact Hy].
        now apply sort_rows_Permutation.
    + apply StronglySorted_map. now apply sort_rows_sorted.
  - exists r. split; [| split; auto].
    + eapply Permutation_in; [| exact Hr].
      apply Permutation_sym. now apply sort_rows_Permutation.
    + apply cell_eqb_true. split.
      * now apply latest_max_date.
      * now apply group_date_present.
Qed.

End FullyDated.

End Latest.

Lemma latestPerLocation_ok (argsort : list cell -> list nat) (d : DataFrame)
    (dc : string) (kd kl : nat) :
  get_loc dc (columns d) = Some kd ->
  get_loc "location" (columns d) = Some kl ->
  same_kind (series (iloc kd) d) = true ->
  latestPerLocation argsort (Some dc) d
  = Ok (mkDF (columns d)
             (groupby_tail1 (iloc kl) (sort_rows argsort (iloc kd) (rows d)))).
Proof.
  intros Hkd Hkl Hsame.
  unfold latestPerLocation, sort_values, getitem.
  rewrite Hkd. simpl. rewrite Hsame. simpl. now rewrite Hkl.
Qed.

(** C1 fails on the code: rows 1 and 2 tie on the greatest date of
    location A, yet the row kept is row 0, whose date is missing and
    therefore sorted last. *)
Lemma latest_not_as_specified :
  ~ latest_as_specified stable_argsort undated_then_tie.
Proof.
  intros [out [loc [date [Hout [Hloc [Hdate [_ [_ Htie]]]]]]]].
  vm_compute in Hout. injection Hout as <-.
  vm_compute in Hloc. injection Hloc as <-.
  vm_compute in Hdate. injection Hdate as <-.
  specialize (Htie (Str "A") (mkRow 0 [Str "A"; NA]) eq_refl).
  vm_compute in Htie. discriminate.
Qed.

(** The order of equal dates is the sorter's: a sorter that meets the
    contract of [argsort] and reverses equal keys keeps row 0. *)
Lemma tie_order_is_the_sorters :
  argsort_spec reversing_argsort /\
  ~ latest_as_specified reversing_argsort plain_tie /\
  latestPerLocation stable_argsort (Some "date"%string) plain_tie
  = Ok (mkDF ["location"; "date"]%string [mkRow 1 [Str "A"; Timestamp 5]]).
Proof.
  split; [apply reversing_argsort_spec |]. split; [| reflexivity].
  intros [out [loc [date [Hout [Hloc [Hdate [_ [_ Htie]]]]]]]].
  vm_compute in Hout. injection Hout as <-.
  vm_compute in Hloc. injection Hloc as <-.
  vm_compute in Hdate. injection Hdate as <-.
  specialize (Htie (Str "A") (mkRow 0 [Str "A"; Timestamp 5]) eq_refl).
  vm_compute in Htie. discriminate.
Qed.

(** C1 (amended): for every dataset with a [location] column and a date
    column of one kind, the result has exactly one row for each location
    value that occurs (none for a missing location), every row of it is
    an input row, and no row of the same location has a strictly greater
    date.  When no row of a location has a missing date, the row kept
    carries the greatest date of the location, and it is the last in
    input order of the rows carrying it provided the sorter is stable.
    When some row of the location has a missing date, the last such row
    in input order is kept. *)
Theorem latest_per_location_rows (argsort : list cell -> list nat)
    (d : DataFrame) (dc : string) (kd kl : nat) :
  argsort_spec argsort ->
  get_loc dc (columns d) = Some kd ->
  get_loc "location" (columns d) = Some kl ->
  same_kind (series (iloc kd) d) = true ->
  exists out,
    latestPerLocation argsort (Some dc) d = Ok out /\
    columns out = columns d /\
    (forall r, In r (rows out) ->
               In r (rows d) /\ notna (iloc kl r) = true) /\
    (forall g, List.length (group_rows (iloc kl) g (rows out))
               = if existsb (fun r => cell_eqb (iloc kl r) g) (rows d)
                 then 1 else 0) /\
    (forall r r', In r (rows out) -> In r' (rows d) ->
                  cell_eqb (iloc kl r') (iloc kl r) = true ->
                  cell_ltb (iloc kd r) (iloc kd r') = false) /\
    (forall g r, row_of (iloc kl) g (rows out) = Some r ->
       forallb (fun x => notna (iloc kd x))
               (group_rows (iloc kl) g (rows d)) = true ->
       iloc kd r
       = series_max (map (iloc kd) (group_rows (iloc kl) g (rows d))) /\
       (argsort_stable argsort ->
        Some r = last_opt
                   (filter (fun x =>
                      cell_eqb (iloc kl x) g
                      && cell_eqb (iloc kd x)
                           (series_max
                              (map (iloc kd)
                                   (group_rows (iloc kl) g (rows d)))))
                      (rows d)))) /\
    (forall g r0, In r0 (rows d) -> cell_eqb (iloc kl r0) g = true ->
       isna (iloc kd r0) = true ->
       row_of (iloc kl) g (rows out)
       = last_opt (filter (fun x => cell_eqb (iloc kl x) g
                                    && isna (iloc kd x)) (rows d))).
Proof.
  intros Hspec Hkd Hkl Hsame.
  rewrite (@latestPerLocation_ok argsort d dc kd kl Hkd Hkl Hsame).
  eexists. split; [reflexivity |].
  split; [reflexivity |]. cbn [rows].
  split; [| split; [| split; [| split]]].
  - intros r. now apply latest_In.
  - intros g. now apply latest_count.
  - intros r r'. now apply latest_not_later.
  - intros g r Hrow Hdated. split.
    + now apply (latest_max_date Hspec (iloc kl) (iloc kd) (rows d) g).
    + intros Hstable.
      now apply (latest_stable_tie Hspec (iloc kl) (iloc kd) (rows d) g).
  - intros g r0. now apply latest_missing_date.
Qed.

Lemma latest_per_location_rows_witness :
  exists out,
    latestPerLocation stable_argsort (Some "date"%string) two_countries = Ok out /\
    columns out = columns two_countries /\
    (forall r, In r (rows out) ->
               In r (rows two_countries) /\ notna (iloc 0 r) = true) /\
    (forall g, List.length (group_rows (iloc 0) g (rows out))
               = if existsb (fun r => cell_eqb (iloc 0 r) g) (rows two_countries)
                 then 1 else 0) /\
    (forall r r', In r (rows out) -> In r' (rows two_countries) ->
                  cell_eqb (iloc 0 r') (iloc 0 r) = true ->
                  cell_ltb (iloc 1 r) (iloc 1 r') = false) /\
    (forall g r, row_of (iloc 0) g (rows out) = Some r ->
       forallb (fun x => notna (iloc 1 x))
               (group_rows (iloc 0) g (rows two_countries)) = true ->
       iloc 1 r
       = series_max (map (iloc 1) (group_rows (iloc 0) g (rows two_countries))) /\
       (argsort_stable stable_argsort ->
        Some r = last_opt
                   (filter (fun x =>
                      cell_eqb (iloc 0 x) g
                      && cell_eqb (iloc 1 x)
                           (series_max
                              (map (iloc 1)
                                   (group_rows (iloc 0) g (rows two_countries)))))
                      (rows two_countries)))) /\
    (forall g r0, In r0 (rows two_countries) -> cell_eqb (iloc 0 r0) g = true ->
       isna (iloc 1 r0) = true ->
       row_of (iloc 0) g (rows out)
       = last_opt (filter (fun x => cell_eqb (iloc 0 x) g
                                    && isna (iloc 1 x)) (rows two_countries))).
Proof.
  apply (latest_per_location_rows two_countries "date" (kd := 1) (kl := 0)).
  - apply stable_argsort_spec.
  - reflexivity.
  - reflexivity.
  - reflexivity.
Defined.

(** C10: when some row of a location has a missing date, the row kept
    for that location is the last row of the location with a missing
    date, in input order, whatever valid dates its other rows carry. *)
Theorem missing_date_row_is_latest (argsort : list cell -> list nat)
    (d : DataFrame) (dc : string) (kd kl : nat) (g : cell) (r0 : Row) :
  argsort_spec argsort ->
  get_loc dc (columns d) = Some kd ->
  get_loc "location" (columns d) = Some kl ->
  same_kind (series (iloc kd) d) = true ->
  In r0 (rows d) -> cell_eqb (iloc kl r0) g = true ->
  isna (iloc kd r0) = true ->
  exists out r,
    latestPerLocation argsort (Some dc) d = Ok out /\
    group_rows (iloc kl) g (rows out) = [r] /\
    isna (iloc kd r) = true /\
    last_opt (filter (fun x => cell_eqb (iloc kl x) g && isna (iloc kd x))
                     (rows d)) = Some r.
Proof.
  intros Hspec Hkd Hkl Hsame Hr0 Hg Hna.
  set (undated := filter (fun x => cell_eqb (iloc kl x) g && isna (iloc kd x))
                         (rows d)).
  assert (Hne : undated <> []).
  { apply (In_nonempty r0). apply filter_In. split; auto.
    now rewrite Hg, Hna. }
  destruct (last_opt_nonempty Hne) as [r Hr].
  exists (mkDF (columns d)
            (groupby_tail1 (iloc kl) (sort_rows argsort (iloc kd) (rows d)))), r.
  split; [exact (@latestPerLocation_ok argsort d dc kd kl Hkd Hkl Hsame) |].
  cbn [rows].
  assert (Hrow : row_of (iloc kl) g
                   (groupby_tail1 (iloc kl)
                      (sort_rows argsort (iloc kd) (rows d))) = Some r).
  { rewrite <- Hr. now apply (latest_missing_date Hspec) with (r0 := r0). }
  split; [now apply (latest_row_of_iff Hspec) |].
  split; auto.
  apply last_opt_In in Hr. apply filter_In in Hr.
  destruct Hr as [_ Hr]. apply andb_prop in Hr. tauto.
Qed.

Lemma missing_date_row_is_latest_witness :
  exists out r,
    latestPerLocation stable_argsort (Some "date"%string) undated_then_tie
    = Ok out /\
    group_rows (iloc 0) (Str "A") (rows out) = [r] /\
    isna (iloc 1 r) = true /\
    last_opt (filter (fun x => cell_eqb (iloc 0 x) (Str "A") && isna (iloc 1 x))
                     (rows undated_then_tie)) = Some r.
Proof.
  apply (missing_date_row_is_latest undated_then_tie "date"
           (kd := 1) (kl := 0) (Str "A") (mkRow 0 [Str "A"; NA])).
  - apply stable_argsort_spec.
  - reflexivity.
  - reflexivity.
  - reflexivity.
  - simpl. auto.
  - reflexivity.
  - reflexivity.
Defined.

(** ** The dataset across the steps of the script *)

Lemma map_nth_fixed {A : Type} (f : A -> A) (d : A) (k : nat) (l : list A) :
  f (nth k l d) = nth k l d -> f d = d -> map_nth f k l = l.
Proof.
  revert k. induction l as [| x l IH]; intros [| k]; simpl; auto.
  - intros -> _. reflexivity.
  - intros H Hd. f_equal. now apply IH.
Qed.

Lemma coerce_datetime_cell (parse : cell -> option Z) (c : cell) :
  datetime_dtype [c] = true -> to_datetime_coerce parse c = c.
Proof. destruct c; simpl; auto; discriminate. Qed.

(** Coercing the dates of a frame that was coerced before changes
    nothing. *)
Lemma coerce_dates_fixed (parse : cell -> option Z) (d : DataFrame) :
  dates_coerced d -> coerce_dates parse d = d.
Proof.
  intros H. unfold coerce_dates.
  destruct (get_loc "date" (columns d)) as [k |] eqn:Hk; auto.
  specialize (H k Hk). unfold datetime_dtype, series in H.
  rewrite forallb_forall in H.
  destruct d as [cols rs]. unfold assign_column. simpl in *. f_equal.
  induction rs as [| r rs IH]; simpl; auto.
  rewrite IH by (intros c Hc; apply H; simpl; auto). f_equal.
  destruct r as [lbl vs]. simpl. f_equal.
  apply map_nth_fixed with (d := NA); auto.
  apply coerce_datetime_cell. simpl. rewrite andb_true_r.
  apply (H (iloc k (mkRow lbl vs))). simpl. auto.
Qed.

(** The load leaves a coerced frame. *)
Lemma coerce_dates_coerced (parse : cell -> option Z) (d : DataFrame) :
  dates_coerced (coerce_dates parse d).
Proof.
  unfold coerce_dates.
  destruct (get_loc "date" (columns d)) as [k |] eqn:Hk.
  - intros k' Hk'. simpl in Hk'. rewrite Hk in Hk'. injection Hk' as <-.
    unfold datetime_dtype, series. apply forallb_forall.
    intros c Hc. apply in_map_iff in Hc. destruct Hc as [r [<- Hr]].
    simpl in Hr. apply in_map_iff in Hr. destruct Hr as [r0 [<- _]].
    unfold iloc. simpl. rewrite nth_map_nth_eq by reflexivity.
    destruct (nth k (values r0) NA); simpl; auto;
      destruct (parse _); reflexivity.
  - intros k' Hk'. congruence.
Qed.







Lemma two_countries_coerced : dates_coerced two_countries.
Proof.
  intros k Hk. vm_compute in Hk. injection Hk as <-. reflexivity.
Qed.

(** The table read again is not coerced. *)
Lemma raw_table_not_coerced : ~ dates_coerced raw_table.
Proof. intros H. specialize (H 1 eq_refl). discriminate. Qed.

(** ** Descending order *)

Lemma take_rev {A : Type} (l : list A) (ix : list nat) :
  take l (rev ix) = rev (take l ix).
Proof.
  induction ix as [| i ix IH]; simpl; auto.
  rewrite take_app, IH. simpl.
  destruct (nth_error l i); simpl; auto using app_nil_r.
Qed.

Lemma take_firstn {A : Type} (l : list A) (ix : list nat) (n : nat) :
  Forall (fun i => i < List.length l) ix ->
  take l (firstn n ix) = firstn n (take l ix).
Proof.
  intros H. revert n. induction H as [| i ix Hi _ IH]; intros [| n]; simpl;
    auto.
  destruct (nth_error l i) eqn:E; simpl.
  - now rewrite IH.
  - apply nth_error_None in E. lia.
Qed.

Lemma firstn_In {A : Type} (n : nat) (l : list A) (x : A) :
  In x (firstn n l) -> In x l.
Proof.
  rewrite <- (firstn_skipn n l) at 2. intros H. apply in_or_app. auto.
Qed.

Lemma StronglySorted_app {A : Type} (R : A -> A -> Prop) (l1 l2 : list A) :
  StronglySorted R l1 -> StronglySorted R l2 ->
  (forall a b, In a l1 -> In b l2 -> R a b) ->
  StronglySorted R (l1 ++ l2).
Proof.
  intros H1 H2 H. induction H1 as [| x l1 Hs IH Hall]; simpl; auto.
  constructor.
  - apply IH. intros a b Ha. apply H. simpl. auto.
  - apply Forall_app. split; auto.
    apply Forall_forall. intros b Hb. apply H; simpl; auto.
Qed.

Lemma StronglySorted_rev {A : Type} (R : A -> A -> Prop) (l : list A) :
  StronglySorted R l -> StronglySorted (fun a b => R b a) (rev l).
Proof.
  induction 1 as [| x l Hs IH Hall]; simpl; [constructor |].
  apply StronglySorted_app; auto.
  - repeat constructor.
  - intros a b Ha [<- | []]. rewrite Forall_forall in Hall.
    apply Hall. now apply in_rev.
Qed.

Lemma StronglySorted_firstn {A : Type} (R : A -> A -> Prop) (n : nat)
    (l : list A) :
  StronglySorted R l -> StronglySorted R (firstn n l).
Proof.
  intros H. revert n. induction H as [| x l Hs IH Hall]; intros [| n]; simpl;
    try constructor; auto.
  apply Forall_forall. intros y Hy. apply firstn_In in Hy.
  rewrite Forall_forall in Hall. auto.
Qed.

Lemma NoDup_firstn {A : Type} (n : nat) (l : list A) :
  NoDup l -> NoDup (firstn n l).
Proof.
  intros H. revert n. induction H as [| x l Hx Hl IH]; intros [| n]; simpl;
    try constructor; auto.
  intros Hin. apply Hx. eapply firstn_In; eauto.
Qed.

Lemma NoDup_firstn_app {A : Type} (n : nat) (l1 l2 : list A) :
  NoDup (l1 ++ l2) -> NoDup (firstn n l1 ++ l2).
Proof.
  revert n. induction l1 as [| x l1 IH]; intros [| n] H; simpl in *; auto.
  - inversion H; subst. now apply (IH 0).
  - inversion H as [| ? ? Hx Hl]; subst. constructor; auto.
    intros Hin. apply Hx. apply in_app_or in Hin. apply in_or_app.
    destruct Hin as [Hin | Hin]; auto. left. eapply firstn_In; eauto.
Qed.

Lemma desc_le_all_missing (M : list cell) :
  Forall (fun c => c = NA) M -> StronglySorted desc_le M.
Proof.
  induction 1 as [| c M -> Hall IH]; constructor; auto.
  eapply Forall_impl; [| exact Hall]. intros d ->. exact I.
Qed.

(** Present values in descending order, the missing ones after them. *)
Lemma desc_le_of_ascending (T M : list cell) :
  StronglySorted sort_le T ->
  Forall (fun c => notna c = true) T ->
  Forall (fun c => c = NA) M ->
  StronglySorted desc_le (rev T ++ M).
Proof.
  intros Hs Hn Hm. apply StronglySorted_app.
  - apply StronglySorted_impl_In with (R := fun a b => sort_le b a).
    + intros a b Ha Hb Hle. rewrite Forall_forall in Hn.
      apply in_rev in Ha, Hb. apply Hn in Ha, Hb.
      destruct a, b; try discriminate; exact Hle.
    + now apply StronglySorted_rev.
  - now apply desc_le_all_missing.
  - intros a b _ Hb. rewrite Forall_forall in Hm. rewrite (Hm b Hb).
    now destruct a.
Qed.

Lemma negate_ascending (a b : cell) :
  numeric_dtype [a; b] = true -> notna a = true -> notna b = true ->
  sort_le (negate a) (negate b) -> desc_le a b.
Proof.
  destruct a, b; try discriminate. intros _ _ _.
  unfold sort_le, desc_le. simpl. now rewrite Z.compare_opp.
Qed.

(** The descending indexer: present values from the greatest down, then
    the missing ones in input order. *)
Lemma nargsort_desc_split {A : Type} (argsort : list cell -> list nat)
    (val : A -> cell) (s : list A) :
  let present := rev (filter (fun x => notna (val x)) s) in
  take s (nargsort_desc argsort (map val s))
  = rev (take present (argsort (map val present)))
    ++ filter (fun x => isna (val x)) s.
Proof.
  intros present. unfold nargsort_desc.
  rewrite length_map, take_app, take_rev.
  rewrite (take_filter_seq val isna NA s).
  rewrite take_take.
  - rewrite take_rev, (take_filter_seq val notna NA s).
    now rewrite filter_map_comm, <- map_rev.
  - apply Forall_rev, filter_seq_lt.
Qed.

Section NLargest.

Variable argsort : list cell -> list nat.
Hypothesis argsort_ok : argsort_spec argsort.

Variable s : list (cell * cell).

Let present : list (cell * cell) := filter (fun kv => notna (snd kv)) s.
Let missing : list (cell * cell) := filter (fun kv => isna (snd kv)) s.

Lemma present_missing_Permutation : Permutation (present ++ missing) s.
Proof.
  pose proof (@filter_partition_Permutation (cell * cell)
                (fun kv => notna (snd kv)) s) as H.
  unfold present, missing.
  erewrite (filter_ext (fun kv => isna (snd kv))); [exact H |].
  intros kv. unfold notna. now rewrite negb_involutive.
Qed.

Lemma missing_values : Forall (fun c => c = NA) (map snd missing).
Proof.
  apply Forall_forall. intros c Hc. apply in_map_iff in Hc.
  destruct Hc as [kv [<- Hkv]]. apply filter_In in Hkv.
  destruct Hkv as [_ Hkv]. now destruct (snd kv).
Qed.

Lemma present_values (l : list (cell * cell)) :
  (forall kv, In kv l -> In kv present) ->
  Forall (fun c => notna c = true) (map snd l).
Proof.
  intros H. apply Forall_forall. intros c Hc. apply in_map_iff in Hc.
  destruct Hc as [kv [<- Hkv]]. apply H in Hkv.
  apply filter_In in Hkv. tauto.
Qed.

(** The series sorted descending by the default sorter. *)
Let slow : list (cell * cell) := take s (nargsort_desc argsort (map snd s)).

Lemma slow_Permutation : Permutation slow s.
Proof.
  unfold slow. rewrite nargsort_desc_split.
  eapply Permutation_trans; [| exact present_missing_Permutation].
  apply Permutation_app_tail.
  eapply Permutation_trans; [apply Permutation_sym, Permutation_rev |].
  eapply Permutation_trans; [now apply take_argsort_Permutation |].
  apply Permutation_sym, Permutation_rev.
Qed.

Lemma slow_sorted : StronglySorted desc_le (map snd slow).
Proof.
  unfold slow. rewrite nargsort_desc_split, map_app, map_rev.
  apply desc_le_of_ascending.
  - now apply take_argsort_sorted.
  - apply present_values. intros kv Hkv. apply take_In in Hkv.
    now apply in_rev in Hkv.
  - exact missing_values.
Qed.

(** The present entries in the stable order of their negated values. *)
Let fast : list (cell * cell) :=
  take present (stable_argsort (map negate (map snd present))).

Lemma fast_indices_in_range :
  Forall (fun i => i < List.length present)
         (stable_argsort (map negate (map snd present))).
Proof.
  destruct (stable_argsort_spec (map negate (map snd present))) as [Hp _].
  rewrite !length_map in Hp.
  apply Forall_forall. intros i Hi.
  apply (Permutation_in _ Hp) in Hi. apply in_seq in Hi. lia.
Qed.

Lemma fast_Permutation : Permutation fast present.
Proof.
  unfold fast. rewrite map_map.
  apply (take_argsort_Permutation stable_argsort_spec).
Qed.

Lemma fast_sorted :
  numeric_dtype (map snd s) = true ->
  StronglySorted desc_le (map snd fast).
Proof.
  intros Hnum.
  pose proof (take_argsort_sorted stable_argsort_spec
                (fun kv : cell * cell => negate (snd kv)) present) as H.
  assert (Hfast : fast = take present
                     (stable_argsort
                        (map (fun kv : cell * cell => negate (snd kv))
                             present)))
    by (unfold fast; now rewrite map_map).
  rewrite <- Hfast in H.
  apply StronglySorted_map.
  apply (proj1 (StronglySorted_map sort_le
                  (fun kv : cell * cell => negate (snd kv)) fast)) in H.
  eapply StronglySorted_impl_In; [| exact H].
  intros x y Hx Hy Hle. simpl in Hle.
  assert (Hin : forall kv, In kv fast ->
                  notna (snd kv) = true /\
                  numeric_dtype [snd kv] = true).
  { intros kv Hkv.
    apply (Permutation_in _ fast_Permutation) in Hkv.
    apply filter_In in Hkv. destruct Hkv as [Hkv Hn]. split; auto.
    unfold numeric_dtype in *. rewrite forallb_forall in Hnum.
    simpl. rewrite andb_true_r. apply Hnum. now apply in_map. }
  destruct (Hin x Hx) as [Hnx Hkx], (Hin y Hy) as [Hny Hky].
  apply negate_ascending; auto.
  simpl in *. rewrite andb_true_r in *. now rewrite Hkx, Hky.
Qed.

Variable n : nat.

Lemma nlargest_length : List.length (nlargest argsort n s) <= n.
Proof.
  unfold nlargest. destruct (Nat.eqb n 0) eqn:E0.
  - simpl. lia.
  - destruct (Nat.leb (List.length s) n); apply firstn_le_length.
Qed.

Lemma nlargest_In (kv : cell * cell) :
  In kv (nlargest argsort n s) -> In kv s.
Proof.
  unfold nlargest. destruct (Nat.eqb n 0); [simpl; tauto |].
  destruct (Nat.leb (List.length s) n); intros H; apply firstn_In in H.
  - now apply (Permutation_in _ slow_Permutation).
  - apply (Permutation_in _ present_missing_Permutation).
    apply in_app_or in H. apply in_or_app.
    destruct H as [H | H]; auto. left.
    apply take_In in H. exact H.
Qed.

Lemma nlargest_NoDup :
  NoDup (map fst s) -> NoDup (map fst (nlargest argsort n s)).
Proof.
  intros Hnd. unfold nlargest. destruct (Nat.eqb n 0); [constructor |].
  destruct (Nat.leb (List.length s) n); rewrite <- firstn_map;
    apply NoDup_firstn.
  - eapply Permutation_NoDup; [| exact Hnd].
    apply Permutation_map, Permutation_sym, slow_Permutation.
  - rewrite take_firstn by exact fast_indices_in_range.
    fold fast. rewrite map_app, <- firstn_map.
    apply NoDup_firstn_app. rewrite <- map_app.
    eapply Permutation_NoDup; [| exact Hnd].
    apply Permutation_map, Permutation_sym.
    eapply Permutation_trans; [| exact present_missing_Permutation].
    apply Permutation_app_tail, fast_Permutation.
Qed.

Lemma nlargest_sorted :
  numeric_dtype (map snd s) = true ->
  StronglySorted desc_le (map snd (nlargest argsort n s)).
Proof.
  intros Hnum. unfold nlargest. destruct (Nat.eqb n 0); [constructor |].
  destruct (Nat.leb (List.length s) n); rewrite <- firstn_map;
    apply StronglySorted_firstn.
  - exact slow_sorted.
  - rewrite take_firstn by exact fast_indices_in_range.
    fold fast. rewrite map_app, <- firstn_map.
    apply StronglySorted_app.
    + apply StronglySorted_firstn. now apply fast_sorted.
    + apply desc_le_all_missing, missing_values.
    + intros a b _ Hb. pose proof missing_values as Hm.
      rewrite Forall_forall in Hm. rewrite (Hm b Hb). now destruct a.
Qed.

Lemma firstn_firstn_app {A : Type} (k : nat) (a b : list A) :
  firstn k (firstn k a ++ b) = firstn k (a ++ b).
Proof.
  revert a. induction k as [| k IH]; intros [| x a]; simpl; auto.
  now rewrite IH.
Qed.

(** The result is a prefix of a descending arrangement of the whole
    series. *)
Lemma nlargest_prefix :
  numeric_dtype (map snd s) = true ->
  exists ranking,
    Permutation ranking s /\
    StronglySorted desc_le (map snd ranking) /\
    nlargest argsort n s = firstn n ranking.
Proof.
  intros Hnum. unfold nlargest. destruct (Nat.eqb n 0) eqn:E0.
  - apply Nat.eqb_eq in E0. subst n. exists slow.
    split; [exact slow_Permutation |]. split; [exact slow_sorted | reflexivity].
  - destruct (Nat.leb (List.length s) n).
    + exists slow.
      split; [exact slow_Permutation |].
      split; [exact slow_sorted | reflexivity].
    + exists (fast ++ missing). split; [| split].
      * eapply Permutation_trans; [| exact present_missing_Permutation].
        apply Permutation_app_tail, fast_Permutation.
      * rewrite map_app. apply StronglySorted_app.
        -- now apply fast_sorted.
        -- apply desc_le_all_missing, missing_values.
        -- intros a b _ Hb. pose proof missing_values as Hm.
           rewrite Forall_forall in Hm. rewrite (Hm b Hb). now destruct a.
      * rewrite take_firstn by exact fast_indices_in_range.
        fold fast. apply firstn_firstn_app.
Qed.

End NLargest.

(** ** Group labels and the aggregated series *)

Lemma unique_In (cs : list cell) (c : cell) :
  In c (unique cs) -> In c cs /\ notna c = true.
Proof.
  induction cs as [| d cs IH]; simpl; [tauto |].
  destruct (isna d) eqn:E.
  - intros H. apply IH in H. tauto.
  - intros [<- | H].
    + split; auto. unfold notna. now rewrite E.
    + apply filter_In in H. destruct H as [H _]. apply IH in H. tauto.
Qed.

Lemma unique_NoDup (cs : list cell) : NoDup (unique cs).
Proof.
  induction cs as [| d cs IH]; simpl; [constructor |].
  destruct (isna d) eqn:E; auto.
  constructor.
  - intros H. apply filter_In in H. destruct H as [_ H].
    rewrite cell_eqb_refl in H; [discriminate |].
    unfold notna. now rewrite E.
  - now apply NoDup_filter.
Qed.

Lemma In_unique (cs : list cell) (c : cell) :
  In c cs -> notna c = true -> In c (unique cs).
Proof.
  intros Hc Hn. induction cs as [| d cs IH]; simpl in *; [tauto |].
  destruct Hc as [-> | Hc].
  - unfold notna in Hn. destruct (isna c); [discriminate | simpl; auto].
  - destruct (isna d); auto.
    destruct (cell_eqb c d) eqn:E.
    + apply cell_eqb_true in E. destruct E as [-> _]. simpl. auto.
    + right. apply filter_In. split; auto. now rewrite E.
Qed.

Lemma group_keys_Permutation (key : Row -> cell) (rs : list Row) :
  Permutation (group_keys key rs) (unique (map key rs)).
Proof.
  unfold group_keys.
  pose proof (take_argsort_Permutation stable_argsort_spec
                (fun c : cell => c) (unique (map key rs))) as H.
  now rewrite map_id in H.
Qed.

Lemma group_keys_NoDup (key : Row -> cell) (rs : list Row) :
  NoDup (group_keys key rs).
Proof.
  eapply Permutation_NoDup;
    [apply Permutation_sym, group_keys_Permutation | apply unique_NoDup].
Qed.

Lemma group_keys_In (key : Row -> cell) (rs : list Row) (g : cell) :
  In g (group_keys key rs) ->
  notna g = true /\ existsb (fun r => cell_eqb (key r) g) rs = true.
Proof.
  intros H. apply (Permutation_in _ (group_keys_Permutation key rs)) in H.
  apply unique_In in H. destruct H as [H Hn]. split; auto.
  apply in_map_iff in H. destruct H as [r [<- Hr]].
  apply existsb_exists. exists r. split; auto. now apply cell_eqb_refl.
Qed.

Lemma In_group_keys (key : Row -> cell) (rs : list Row) (g : cell) :
  notna g = true -> existsb (fun r => cell_eqb (key r) g) rs = true ->
  In g (group_keys key rs).
Proof.
  intros Hn Hex. apply existsb_exists in Hex. destruct Hex as [r [Hr E]].
  apply cell_eqb_true in E. destruct E as [E _].
  apply (Permutation_in _ (Permutation_sym (group_keys_Permutation key rs))).
  apply In_unique; auto. rewrite <- E. now apply in_map.
Qed.

Lemma groupby_max_keys (key metric : Row -> cell) (rs : list Row) :
  map fst (groupby_max key metric rs) = group_keys key rs.
Proof. unfold groupby_max. rewrite map_map. simpl. apply map_id. Qed.

Lemma groupby_max_In (key metric : Row -> cell) (rs : list Row)
    (kv : cell * cell) :
  In kv (groupby_max key metric rs) ->
  In (fst kv) (group_keys key rs) /\
  snd kv = series_max (map metric (group_rows key (fst kv) rs)).
Proof.
  unfold groupby_max. intros H. apply in_map_iff in H.
  destruct H as [g [<- Hg]]. simpl. auto.
Qed.

Lemma series_max_numeric (cs : list cell) :
  numeric_dtype cs = true -> numeric_dtype [series_max cs] = true.
Proof.
  intros H. destruct (fold_max_spec cs NA) as [[Hm | Hm] _].
  - unfold series_max. now rewrite Hm.
  - unfold numeric_dtype in *. rewrite forallb_forall in H.
    simpl. rewrite andb_true_r. now apply H.
Qed.

Lemma numeric_dtype_incl (cs cs' : list cell) :
  (forall c, In c cs' -> In c cs) ->
  numeric_dtype cs = true -> numeric_dtype cs' = true.
Proof.
  unfold numeric_dtype. rewrite !forallb_forall. auto.
Qed.

Lemma groupby_max_numeric (key metric : Row -> cell) (rs : list Row) :
  numeric_dtype (map metric rs) = true ->
  numeric_dtype (map snd (groupby_max key metric rs)) = true.
Proof.
  intros H. unfold numeric_dtype at 1. apply forallb_forall.
  intros c Hc. apply in_map_iff in Hc. destruct Hc as [kv [<- Hkv]].
  apply groupby_max_In in Hkv. destruct Hkv as [_ ->].
  assert (Hn : numeric_dtype
                 [series_max (map metric (group_rows key (fst kv) rs))] = true).
  { apply series_max_numeric. eapply numeric_dtype_incl; [| exact H].
    intros c Hc. apply in_map_iff in Hc. destruct Hc as [r [<- Hr]].
    apply in_map. apply filter_In in Hr. tauto. }
  simpl in Hn. now rewrite andb_true_r in Hn.
Qed.

Lemma map_combine_seq {B C : Type} (h : B -> C) (s : list B) (a : nat) :
  map (fun iv : nat * B => h (snd iv)) (combine (seq a (List.length s)) s)
  = map h s.
Proof.
  revert a. induction s as [| x s IH]; intros a; simpl; auto.
  now rewrite IH.
Qed.

Lemma reset_index_labels (a b : string) (s : list (cell * cell)) :
  map (iloc 0) (rows (reset_index a b s)) = map fst s.
Proof.
  unfold reset_index. simpl. rewrite map_map.
  apply (map_combine_seq (fun kv : cell * cell => fst kv)).
Qed.

Lemma reset_index_values (a b : string) (s : list (cell * cell)) :
  map (iloc 1) (rows (reset_index a b s)) = map snd s.
Proof.
  unfold reset_index. simpl. rewrite map_map.
  apply (map_combine_seq (fun kv : cell * cell => snd kv)).
Qed.

Lemma reset_index_length (a b : string) (s : list (cell * cell)) :
  List.length (rows (reset_index a b s)) = List.length s.
Proof.
  rewrite <- (length_map (iloc 0)), reset_index_labels. apply length_map.
Qed.

Lemma reset_index_In (a b : string) (s : list (cell * cell)) (r : Row) :
  In r (rows (reset_index a b s)) -> In (iloc 0 r, iloc 1 r) s.
Proof.
  unfold reset_index. simpl. intros H. apply in_map_iff in H.
  destruct H as [[i [k v]] [<- H]]. apply in_combine_r in H. exact H.
Qed.

Lemma reset_index_entries (a b : string) (s : list (cell * cell)) :
  map (fun r => (iloc 0 r, iloc 1 r)) (rows (reset_index a b s)) = s.
Proof.
  unfold reset_index. simpl. rewrite map_map.
  rewrite (map_combine_seq (fun kv : cell * cell => (fst kv, snd kv))).
  rewrite <- (map_id s) at 2. apply map_ext. now intros [k v].
Qed.

Lemma datetime_same_kind (cs : list cell) :
  datetime_dtype cs = true -> same_kind cs = true.
Proof.
  unfold datetime_dtype. induction cs as [| c cs IH]; simpl; auto.
  intros H. apply andb_prop in H. destruct H as [Hc Hcs].
  rewrite IH by exact Hcs. rewrite andb_true_r.
  apply forallb_forall. intros d Hd.
  rewrite forallb_forall in Hcs. specialize (Hcs d Hd).
  destruct c, d; try discriminate; reflexivity.
Qed.

(** ** Top countries *)

Lemma series_max_greatest (rs : list Row) (p : Row -> bool)
    (sel : Row -> Prop) (col : Row -> cell) :
  (forall x, p x = true <-> sel x) ->
  greatest_among rs sel col (series_max (map col (filter p rs))).
Proof.
  intros Hp. split.
  - intros x Hx Hsel Hn.
    apply (series_max_upper (map col (filter p rs)) (col x)); auto.
    apply in_map. apply filter_In. split; auto. now apply Hp.
  - intros Hn.
    destruct (fold_max_spec (map col (filter p rs)) NA) as [[Hm | Hm] _].
    + unfold series_max in Hn. rewrite Hm in Hn. discriminate.
    + apply in_map_iff in Hm. destruct Hm as [x [Hx Hin]].
      apply filter_In in Hin. destruct Hin as [Hin Hpx].
      exists x. split; auto. split; [now apply Hp | exact Hx].
Qed.

(** The greatest value is determined by the rows. *)
Lemma greatest_among_unique (rs : list Row) (sel : Row -> Prop)
    (col : Row -> cell) (m m' : cell) :
  greatest_among rs sel col m -> greatest_among rs sel col m' -> m = m'.
Proof.
  intros [Hu Ha] [Hu' Ha'].
  destruct (notna m) eqn:Hm.
  - destruct (Ha eq_refl) as [x [Hx [Hs Hc]]].
    assert (Hnx : notna (col x) = true) by now rewrite Hc.
    destruct (Hu' x Hx Hs Hnx) as [Hm' Hle].
    destruct (Ha' Hm') as [y [Hy [Hsy Hcy]]].
    assert (Hny : notna (col y) = true) by now rewrite Hcy.
    destruct (Hu y Hy Hsy Hny) as [_ Hle'].
    rewrite Hc in Hle. rewrite Hcy in Hle'.
    now apply sort_le_antisym.
  - destruct (notna m') eqn:Hm'.
    + destruct (Ha' eq_refl) as [y [Hy [Hsy Hcy]]].
      assert (Hny : notna (col y) = true) by now rewrite Hcy.
      destruct (Hu y Hy Hsy Hny) as [Hn _]. congruence.
    + destruct m, m'; try discriminate; reflexivity.
Qed.

Lemma greatest_among_ext (rs : list Row) (sel sel' : Row -> Prop)
    (col : Row -> cell) (m : cell) :
  (forall x, sel x <-> sel' x) ->
  greatest_among rs sel col m -> greatest_among rs sel' col m.
Proof.
  intros He [Hu Ha]. split.
  - intros x Hx Hs. apply Hu; auto. now apply He.
  - intros Hn. destruct (Ha Hn) as [x [Hx [Hs Hc]]].
    exists x. split; auto. split; auto. now apply He.
Qed.

(** The rows of a location among the rows at a date, as the script
    selects them. *)
Lemma group_at_date (date loc : Row -> cell) (day g : cell) (rs : list Row) :
  notna g = true ->
  group_rows loc g (filter (fun x => cell_eqb (date x) day) rs)
  = filter (fun x => cell_eqb (loc x) g && cell_eqb (date x) day) rs
  /\ forall x, cell_eqb (loc x) g && cell_eqb (date x) day = true
                <-> carries_date date day x /\ loc x = g.
Proof.
  intros Hg. split.
  - unfold group_rows. now rewrite filter_andb.
  - intros x. unfold carries_date. split.
    + intros H. apply andb_prop in H. destruct H as [H1 H2].
      apply cell_eqb_true in H1. apply cell_eqb_true in H2.
      destruct H1 as [H1 _]. destruct H2 as [H2 Hn].
      split; auto. split; auto. now rewrite <- H2.
    + intros [[Hd Hn] Hl]. apply andb_true_intro. split.
      * apply cell_eqb_true. split; auto. now rewrite Hl.
      * apply cell_eqb_true. split; auto. now rewrite Hd.
Qed.

Lemma group_present_at_date (date loc : Row -> cell) (day g : cell)
    (rs : list Row) :
  existsb (fun x => cell_eqb (loc x) g)
          (filter (fun x => cell_eqb (date x) day) rs) = true <->
  notna g = true /\ exists x, In x rs /\ carries_date date day x /\ loc x = g.
Proof.
  unfold carries_date. split.
  - intros H. apply existsb_exists in H. destruct H as [x [Hx He]].
    apply filter_In in Hx. destruct Hx as [Hx Hd].
    apply cell_eqb_true in He. apply cell_eqb_true in Hd.
    destruct He as [He Hn]. destruct Hd as [Hd Hnd].
    split; [now rewrite <- He |].
    exists x. split; auto. split; auto. split; auto. now rewrite <- Hd.
  - intros [Hg [x [Hx [[Hd Hn] Hl]]]]. apply existsb_exists. exists x. split.
    + apply filter_In. split; auto. apply cell_eqb_true.
      split; auto. now rewrite Hd.
    + apply cell_eqb_true. split; auto. now rewrite Hl.
Qed.

(** C3: for a dataset with [location], [date] and a numeric
    [total_cases] column and every [n], the top-[n] table is computed
    from the rows that carry the greatest date of the dataset, grouped
    by location with the greatest metric value of each group; it has at
    most [n] rows, is in descending order of that value (missing values
    last) and names no location twice.  It is the first [n] entries of
    a descending ranking of all the locations present at that date.
    The greatest date and the greatest value of a group are stated on
    the rows themselves: no present value is greater, and the value is
    attained. *)
Theorem top_n_by_metric (argsort : list cell -> list nat) (d : DataFrame)
    (n kd kl km : nat) :
  argsort_spec argsort ->
  get_loc "date" (columns d) = Some kd ->
  get_loc "location" (columns d) = Some kl ->
  get_loc "total_cases" (columns d) = Some km ->
  datetime_dtype (series (iloc kd) d) = true ->
  numeric_dtype (series (iloc km) d) = true ->
  exists out latest_date,
    topNByMetric argsort d n = Ok out /\
    greatest_among (rows d) (fun _ => True) (iloc kd) latest_date /\
    columns out = ["location"; "total_cases"]%string /\
    List.length (rows out) <= n /\
    StronglySorted desc_le (map (iloc 1) (rows out)) /\
    NoDup (map (iloc 0) (rows out)) /\
    (forall r, In r (rows out) ->
       notna (iloc 0 r) = true /\
       (exists x, In x (rows d) /\ carries_date (iloc kd) latest_date x /\
                  iloc kl x = iloc 0 r) /\
       greatest_among (rows d)
         (fun x => carries_date (iloc kd) latest_date x /\ iloc kl x = iloc 0 r)
         (iloc km) (iloc 1 r)) /\
    top_n_of (rows d) (carries_date (iloc kd) latest_date)
             (iloc kl) (iloc km) n (rows out).
Proof.
  intros Hspec Hkd Hkl Hkm Hdate Hnum.
  unfold topNByMetric, getitem, checked_max.
  rewrite Hkd. simpl. rewrite (datetime_same_kind _ Hdate). simpl.
  rewrite Hkl, Hkm. simpl. rewrite Hnum. simpl.
  set (latest_date := series_max (series (iloc kd) d)).
  set (latest_rows :=
         filter (fun x => cell_eqb (iloc kd x) latest_date) (rows d)).
  set (agg := groupby_max (iloc kl) (iloc km) latest_rows).
  assert (Hagg : numeric_dtype (map snd agg) = true).
  { apply groupby_max_numeric. eapply numeric_dtype_incl; [| exact Hnum].
    intros c Hc. apply in_map_iff in Hc. destruct Hc as [r [<- Hr]].
    apply in_map. apply filter_In in Hr. tauto. }
  assert (Hentry : forall g v,
            In (g, v) agg <->
            notna g = true /\
            (exists x, In x (rows d) /\ carries_date (iloc kd) latest_date x /\
                       iloc kl x = g) /\
            greatest_among (rows d)
              (fun x => carries_date (iloc kd) latest_date x /\ iloc kl x = g)
              (iloc km) v).
  { intros g v.
    assert (Hmax : notna g = true ->
              greatest_among (rows d)
                (fun x => carries_date (iloc kd) latest_date x /\ iloc kl x = g)
                (iloc km)
                (series_max (map (iloc km) (group_rows (iloc kl) g latest_rows)))).
    { intros Hg. unfold latest_rows.
      destruct (@group_at_date (iloc kd) (iloc kl) latest_date g (rows d) Hg)
        as [-> Hiff].
      now apply series_max_greatest. }
    split.
    - intros H. apply groupby_max_In in H. simpl in H. destruct H as [Hg Hv].
      apply group_keys_In in Hg. destruct Hg as [Hg Hex].
      apply group_present_at_date in Hex. destruct Hex as [_ Hex].
      split; auto. split; auto. rewrite Hv. now apply Hmax.
    - intros [Hg [Hex Hv]].
      unfold agg, groupby_max. apply in_map_iff. exists g. split.
      + f_equal. eapply greatest_among_unique; [now apply Hmax | exact Hv].
      + apply In_group_keys; auto. apply group_present_at_date. auto. }
  eexists. exists latest_date. split; [reflexivity |].
  split.
  { unfold latest_date, series.
    rewrite <- (filter_all (fun _ : Row => true) (rows d)) at 2
      by reflexivity.
    apply series_max_greatest. intros x. tauto. }
  split; [reflexivity |].
  split; [| split; [| split; [| split]]].
  - rewrite reset_index_length. apply nlargest_length.
  - rewrite reset_index_values. now apply nlargest_sorted.
  - rewrite reset_index_labels. apply nlargest_NoDup; auto.
    unfold agg. rewrite groupby_max_keys. apply group_keys_NoDup.
  - intros r Hr. apply reset_index_In in Hr.
    apply (nlargest_In Hspec) in Hr. now apply Hentry.
  - destruct (nlargest_prefix Hspec agg n Hagg) as [ranking [Hp [Hs Heq]]].
    exists ranking. split; [| split; [| split]]; auto.
    + eapply Permutation_NoDup;
        [apply Permutation_map, Permutation_sym, Hp |].
      unfold agg. rewrite groupby_max_keys. apply group_keys_NoDup.
    + intros g v. rewrite <- Hentry. split.
      * apply (Permutation_in _ Hp).
      * apply (Permutation_in _ (Permutation_sym Hp)).
    + rewrite reset_index_entries. exact Heq.
Qed.

Lemma top_n_by_metric_witness :
  exists out latest_date,
    topNByMetric stable_argsort tied_table 2 = Ok out /\
    greatest_among (rows tied_table) (fun _ => True) (iloc 1) latest_date /\
    columns out = ["location"; "total_cases"]%string /\
    List.length (rows out) <= 2 /\
    StronglySorted desc_le (map (iloc 1) (rows out)) /\
    NoDup (map (iloc 0) (rows out)) /\
    (forall r, In r (rows out) ->
       notna (iloc 0 r) = true /\
       (exists x, In x (rows tied_table) /\
                  carries_date (iloc 1) latest_date x /\
                  iloc 0 x = iloc 0 r) /\
       greatest_among (rows tied_table)
         (fun x => carries_date (iloc 1) latest_date x /\ iloc 0 x = iloc 0 r)
         (iloc 2) (iloc 1 r)) /\
    top_n_of (rows tied_table) (carries_date (iloc 1) latest_date)
             (iloc 0) (iloc 2) 2 (rows out).
Proof.
  apply (@top_n_by_metric stable_argsort tied_table 2 1 0 2).
  - apply stable_argsort_spec.
  - reflexivity.
  - reflexivity.
  - reflexivity.
  - reflexivity.
  - reflexivity.
Defined.

(** On the table of the witness the greatest date is 2; of the three
    locations that carry it the two with the greatest totals are
    listed, B before A. *)
Example top_two_of_tied_table :
  topNByMetric stable_argsort tied_table 2
  = Ok (mkDF ["location"; "total_cases"]%string
          [ mkRow 0 [Str "B"; Num 8];
            mkRow 1 [Str "A"; Num 7] ]).
Proof. reflexivity. Qed.

Example top10_example :
  top10 stable_argsort
    (mkDF ["location"; "date"; "total_cases"]%string
       [ mkRow 0 [Str "A"; Timestamp 1; Num 9];
         mkRow 1 [Str "A"; Timestamp 2; Num 7];
         mkRow 2 [Str "B"; Timestamp 2; Num 8];
         mkRow 3 [Str "C"; Timestamp 2; NA];
         mkRow 4 [NA; Timestamp 2; Num 99] ])
  = Ok (mkDF ["location"; "total_cases"]%string
          [ mkRow 0 [Str "B"; Num 8];
            mkRow 1 [Str "A"; Num 7];
            mkRow 2 [Str "C"; NA] ]).
Proof. reflexivity. Qed.

(** ** Correlation heatmap *)







Example constant_column_matrix :
  map (fun i => map (nancorr constant_column 2 (fun _ _ => 0%float) i)
                    (seq 0 2)) (seq 0 2)
  = [ [1%float; nan]; [nan; nan] ].
Proof. reflexivity. Qed.

Example wide_column_matrix :
  map (fun i => map (nancorr wide_column 2 (fun _ _ => 0%float) i)
                    (seq 0 2)) (seq 0 2)
  = [ [0; 1]; [1; 1] ]%float.
Proof. reflexivity. Qed.



(** On three ordinary columns, one cell missing, the diagonal is 1 and
    the entries mirror each other under [==]. *)
Example three_columns_matrix :
  forallb (fun i => (nancorr three_columns 3 (fun _ _ => 0%float) i i =? 1)%float)
          (seq 0 3) = true /\
  forallb (fun i =>
     forallb (fun j => (nancorr three_columns 3 (fun _ _ => 0%float) i j
                        =? nancorr three_columns 3 (fun _ _ => 0%float) j i)%float)
             (seq 0 3)) (seq 0 3) = true.
Proof. split; reflexivity. Qed.

(** ** Worked examples *)

(** Three rows, two locations: the later row of A and the only row of B
    are kept, in the order of the sorted frame. *)
Example latest_three_rows :
  latestPerLocation stable_argsort (Some "date"%string)
    (mkDF ["location"; "date"]%string
       [ mkRow 0 [Str "A"; Str "2021-01-01"];
         mkRow 1 [Str "A"; Str "2021-01-02"];
         mkRow 2 [Str "B"; Str "2021-01-01"] ])
  = Ok (mkDF ["location"; "date"]%string
          [ mkRow 2 [Str "B"; Str "2021-01-01"];
            mkRow 1 [Str "A"; Str "2021-01-02"] ]).
Proof. reflexivity. Qed.

(** More groups than requested: the stable branch of [nlargest]. *)
Example top_two_of_three :
  topNByMetric stable_argsort
    (mkDF ["location"; "date"; "total_cases"]%string
       [ mkRow 0 [Str "A"; Timestamp 2; Num 7];
         mkRow 1 [Str "B"; Timestamp 2; Num 8];
         mkRow 2 [Str "C"; Timestamp 2; Num 7];
         mkRow 3 [Str "D"; Timestamp 1; Num 50] ]) 2
  = Ok (mkDF ["location"; "total_cases"]%string
          [ mkRow 0 [Str "B"; Num 8];
            mkRow 1 [Str "A"; Num 7] ]).
Proof. reflexivity. Qed.

(** The re-read of lines 193-205 does not coerce the dates: the strings
    stay as they were read. *)
Example reload_keeps_strings :
  run_step stable_argsort parse_example (Reload (Ok raw_table))
           (mkSession two_countries [] None)
  = Ok (mkSession raw_table [] None).
Proof. reflexivity. Qed.

(** The first load of the same table coerces them. *)
Example load_raw_table :
  load_dataset parse_example (Ok raw_table)
  = Ok (mkDF ["location"; "date"; "total_cases"]%string
          [ mkRow 0 [Str "A"; Timestamp 18628; Num 7];
            mkRow 1 [Str "A"; NA; Num 5];
            mkRow 2 [Str "B"; NA; Num 3] ]).
Proof. reflexivity. Qed.

(** The suffix is compared in lower case. *)
Example upper_case_suffix :
  exit_status (main (fun _ => true) (fun _ => Ok text_sheet)
                    (fun _ => Raise (ReadError "unused")) "data/OWID.CSV")
  = 0.
Proof. reflexivity. Qed.

(** A file named [.csv] has no suffix. *)
Example hidden_file_has_no_suffix :
  main (fun _ => true) (fun _ => Ok text_sheet)
       (fun _ => Raise (ReadError "unused")) "data/.csv"
  = mkOutcome 1 [Unsupported EmptyString].
Proof. reflexivity. Qed.

(* ================================================================== *)
(** * Further properties of the script *)

(** ** The sidebar filters *)

(** X1: selecting a single location in the sidebar gives the same table
    as the country slice of that location, and fails when it fails. *)
Theorem single_location_filter_is_slice (d : DataFrame) (country : string) :
  filter_locations d [country] = sliceByLocation d country.
Proof.
  unfold filter_locations, sliceByLocation.
  destruct (getitem d "location") as [loc | e]; simpl; auto.
  unfold mask_rows. do 2 f_equal. apply filter_ext. intros r.
  unfold isin. simpl. apply orb_false_r.
Qed.

Lemma datetime_dtype_filter (f : Row -> cell) (p : Row -> bool) (rs : list Row) :
  datetime_dtype (map f rs) = true ->
  datetime_dtype (map f (filter p rs)) = true.
Proof.
  unfold datetime_dtype. rewrite !forallb_forall. intros H c Hc.
  apply H. apply in_map_iff in Hc. destruct Hc as [r [<- Hr]].
  apply in_map. apply filter_In in Hr. tauto.
Qed.

Lemma datetime_same_kind_with (t : Z) (cs : list cell) :
  datetime_dtype cs = true -> same_kind (Timestamp t :: cs) = true.
Proof.
  intros H. apply (datetime_same_kind (Timestamp t :: cs)).
  unfold datetime_dtype in *. simpl. exact H.
Qed.

(** A cell lies between two timestamps exactly when it is a timestamp
    between them; a missing date never does. *)
Lemma between_timestamps (start stop : Z) (c : cell) :
  cell_leb (Timestamp start) c && cell_leb c (Timestamp stop) = true <->
  exists t, c = Timestamp t /\ (start <= t <= stop)%Z.
Proof.
  split.
  - intros H. apply andb_prop in H. destruct H as [H1 H2].
    destruct c as [| z | s | t]; try discriminate.
    exists t. split; auto.
    unfold cell_leb in *. simpl in *.
    destruct (start ?= t)%Z eqn:E1; try discriminate;
      destruct (t ?= stop)%Z eqn:E2; try discriminate;
      try apply Z.compare_eq in E1; try apply Z.compare_eq in E2;
      try rewrite Z.compare_lt_iff in *; lia.
  - intros [t [-> [H1 H2]]]. unfold cell_leb. simpl.
    destruct (start ?= t)%Z eqn:E1;
      try (rewrite Z.compare_gt_iff in E1; lia);
      destruct (t ?= stop)%Z eqn:E2;
      try (rewrite Z.compare_gt_iff in E2; lia); reflexivity.
Qed.

(** The whole filter block on a frame with a datetime [date] column. *)
Lemma filterBySelection_selected (d : DataFrame) (locations : list string)
    (date_range : option (Z * Z)) (kl kd : nat) :
  get_loc "location" (columns d) = Some kl ->
  get_loc "date" (columns d) = Some kd ->
  datetime_dtype (series (iloc kd) d) = true ->
  filterBySelection d locations date_range
  = Ok (mask_rows (selected locations date_range (iloc kl) (iloc kd)) d).
Proof.
  intros Hkl Hkd Hdt.
  unfold filterBySelection, date_col_of, filter_locations, getitem.
  rewrite Hkd, Hkl. simpl. rewrite Hkd. simpl.
  assert (Hf : datetime_dtype
                 (series (iloc kd)
                    (mask_rows (fun r => isin locations (iloc kl r)) d)) = true)
    by (apply datetime_dtype_filter; exact Hdt).
  unfold checked_min, checked_max.
  rewrite (datetime_same_kind _ Hf). simpl.
  unfold selected. destruct date_range as [[start stop] |].
  - unfold filter_dates, getitem. simpl. rewrite Hkd. simpl.
    pose proof (datetime_same_kind_with start _ Hf) as Hk.
    simpl in Hk. rewrite Hk.
    unfold mask_rows. simpl. do 2 f_equal.
    rewrite <- filter_andb. apply filter_ext. intros r. apply andb_comm.
  - unfold mask_rows. do 2 f_equal. apply filter_ext. intros r.
    now rewrite andb_true_r.
Qed.

(** X2: on a frame with a [location] column and a datetime [date]
    column, the filter block with a pair of dates keeps, in input order,
    exactly the rows whose location is selected and whose date is a
    timestamp within the inclusive range; rows with a missing date are
    dropped. *)
Theorem filter_with_date_range (d : DataFrame) (locations : list string)
    (start stop : Z) (kl kd : nat) :
  get_loc "location" (columns d) = Some kl ->
  get_loc "date" (columns d) = Some kd ->
  datetime_dtype (series (iloc kd) d) = true ->
  exists t,
    filterBySelection d locations (Some (start, stop)) = Ok t /\
    columns t = columns d /\
    rows t = filter (selected locations (Some (start, stop)) (iloc kl) (iloc kd))
                    (rows d) /\
    (forall r, In r (rows t) <->
               In r (rows d) /\ isin locations (iloc kl r) = true /\
               exists ts, iloc kd r = Timestamp ts /\ (start <= ts <= stop)%Z).
Proof.
  intros Hkl Hkd Hdt.
  rewrite (filterBySelection_selected d locations (Some (start, stop))
             Hkl Hkd Hdt).
  eexists. split; [reflexivity |]. split; [reflexivity |].
  split; [reflexivity |].
  intros r. simpl. rewrite filter_In. unfold selected.
  rewrite andb_true_iff, between_timestamps. tauto.
Qed.

Lemma filter_with_date_range_witness :
  exists t,
    filterBySelection two_countries ["A"%string] (Some (2, 5)%Z) = Ok t /\
    columns t = columns two_countries /\
    rows t = filter (selected ["A"%string] (Some (2, 5)%Z) (iloc 0) (iloc 1))
                    (rows two_countries) /\
    (forall r, In r (rows t) <->
               In r (rows two_countries) /\
               isin ["A"%string] (iloc 0 r) = true /\
               exists ts, iloc 1 r = Timestamp ts /\ (2 <= ts <= 5)%Z).
Proof.
  apply (@filter_with_date_range two_countries ["A"%string] 2%Z 5%Z 0 1);
    reflexivity.
Defined.

(** X3: without a pair of dates the filter block is the location mask
    alone, so rows with a missing date stay; this holds on every frame
    whose [date] column, if any, is coerced. *)
Theorem filter_without_date_range (d : DataFrame) (locations : list string) :
  dates_coerced d ->
  filterBySelection d locations None = filter_locations d locations.
Proof.
  intros Hc. unfold filterBySelection, date_col_of.
  destruct (filter_locations d locations) as [d1 |] eqn:Hf; simpl; auto.
  destruct (get_loc "date" (columns d)) as [kd |] eqn:Hkd; auto.
  unfold filter_locations in Hf.
  destruct (getitem d "location") as [loc |]; simpl in Hf; [| discriminate].
  injection Hf as <-.
  unfold getitem. simpl. rewrite Hkd. simpl.
  assert (Hd : datetime_dtype
                 (series (iloc kd)
                    (mask_rows (fun r => isin locations (loc r)) d)) = true)
    by (apply datetime_dtype_filter; now apply Hc).
  unfold checked_min, checked_max.
  now rewrite (datetime_same_kind _ Hd).
Qed.

Lemma filter_without_date_range_witness :
  filterBySelection two_countries ["B"%string] None
  = filter_locations two_countries ["B"%string].
Proof.
  apply (@filter_without_date_range two_countries ["B"%string]).
  exact two_countries_coerced.
Defined.

(** ** Minimum of a column *)

Lemma cell_min_cases (a b : cell) : cell_min a b = a \/ cell_min a b = b.
Proof.
  unfold cell_min. destruct a, b; auto;
    destruct (cell_compare _ _); auto.
Qed.

Lemma cell_min_l (a b : cell) :
  notna a = true -> notna (cell_min a b) = true /\ sort_le (cell_min a b) a.
Proof.
  intros Ha. unfold cell_min.
  destruct a; try discriminate; destruct b;
    try (split; [reflexivity | apply sort_le_refl]);
    destruct (cell_compare _ _) eqn:E;
    (split; [reflexivity |]);
    try apply sort_le_refl; unfold sort_le;
    rewrite cell_compare_antisym, E; simpl; congruence.
Qed.

Lemma cell_min_r (a b : cell) :
  notna b = true -> notna (cell_min a b) = true /\ sort_le (cell_min a b) b.
Proof.
  intros Hb. unfold cell_min.
  destruct b; try discriminate; destruct a;
    try (split; [reflexivity | apply sort_le_refl]);
    destruct (cell_compare _ _) eqn:E;
    (split; [reflexivity |]);
    try apply sort_le_refl; unfold sort_le; congruence.
Qed.

Lemma fold_min_spec (cs : list cell) :
  forall a,
    let m := fold_left cell_min cs a in
    (m = a \/ In m cs) /\
    (notna a = true -> notna m = true /\ sort_le m a) /\
    (forall c, In c cs -> notna c = true -> notna m = true /\ sort_le m c).
Proof.
  induction cs as [| c cs IH]; intros a; simpl.
  - split; [auto |]. split; [auto using sort_le_refl | tauto].
  - destruct (IH (cell_min a c)) as [Hin [Hacc Hall]].
    split; [| split].
    + destruct Hin as [-> | Hin]; auto.
      destruct (cell_min_cases a c) as [-> | ->]; auto.
    + intros Ha. destruct (cell_min_l a c Ha) as [Hn Hle].
      destruct (Hacc Hn) as [Hn' Hle']. split; auto.
      eapply sort_le_trans; eauto.
    + intros x [<- | Hx] Hn.
      * destruct (cell_min_r a c Hn) as [Hn1 Hle].
        destruct (Hacc Hn1) as [Hn' Hle']. split; auto.
        eapply sort_le_trans; eauto.
      * now apply Hall.
Qed.

Lemma series_min_lower (cs : list cell) (c : cell) :
  In c cs -> notna c = true -> sort_le (series_min cs) c.
Proof. intros Hc Hn. now apply (fold_min_spec cs NA). Qed.

Lemma sort_le_timestamps (a b : Z) :
  sort_le (Timestamp a) (Timestamp b) <-> (a <= b)%Z.
Proof.
  unfold sort_le, Z.le. simpl. tauto.
Qed.

(** X4: filtering by the range from the least to the greatest date of
    the column keeps exactly the rows that have a date: the rows with a
    missing date are dropped, all others stay, in input order. *)
Theorem full_date_range_keeps_dated_rows (d : DataFrame) (kd : nat)
    (first_date last_date : Z) :
  get_loc "date" (columns d) = Some kd ->
  datetime_dtype (series (iloc kd) d) = true ->
  series_min (series (iloc kd) d) = Timestamp first_date ->
  series_max (series (iloc kd) d) = Timestamp last_date ->
  filter_dates d "date" first_date last_date
  = Ok (mask_rows (fun r => notna (iloc kd r)) d).
Proof.
  intros Hkd Hdt Hmin Hmax.
  unfold filter_dates, getitem. rewrite Hkd. simpl.
  pose proof (datetime_same_kind_with first_date _ Hdt) as Hk.
  simpl in Hk. rewrite Hk.
  unfold mask_rows. do 2 f_equal. apply filter_ext_in. intros r Hr.
  assert (Hin : In (iloc kd r) (series (iloc kd) d))
    by (unfold series; now apply in_map).
  unfold datetime_dtype in Hdt. rewrite forallb_forall in Hdt.
  specialize (Hdt _ Hin).
  destruct (iloc kd r) as [| z | s | t] eqn:E; try discriminate.
  - reflexivity.
  - apply between_timestamps. exists t. split; auto.
    pose proof (series_min_lower _ _ Hin eq_refl) as Hlo.
    destruct (series_max_upper _ _ Hin eq_refl) as [_ Hhi].
    rewrite Hmin in Hlo. rewrite Hmax in Hhi.
    apply (proj1 (sort_le_timestamps _ _)) in Hlo.
    apply (proj1 (sort_le_timestamps _ _)) in Hhi. lia.
Qed.

Lemma full_date_range_keeps_dated_rows_witness :
  filter_dates two_countries "date" 1 2
  = Ok (mask_rows (fun r => notna (iloc 1 r)) two_countries).
Proof.
  apply (@full_date_range_keeps_dated_rows two_countries 1 1%Z 2%Z);
    reflexivity.
Defined.

(** ** Loading twice *)

(** X5: the date coercion of line 155 changes nothing on a table that
    came out of the load of lines 15-27, whatever the parser makes of
    the values: coercing a coerced table is the identity. *)
Theorem coercion_after_load_is_identity (parse : cell -> option Z)
    (csv : Result DataFrame) (t : DataFrame) :
  load_dataset parse csv = Ok t -> coerce_dates parse t = t.
Proof.
  unfold load_dataset. destruct csv as [d | e]; simpl; [| discriminate].
  intros [= <-]. apply coerce_dates_fixed, coerce_dates_coerced.
Qed.

Lemma coercion_after_load_is_identity_witness :
  coerce_dates parse_example (coerce_dates parse_example raw_table)
  = coerce_dates parse_example raw_table.
Proof.
  apply (@coercion_after_load_is_identity parse_example (Ok raw_table)).
  reflexivity.
Defined.

(** ** The options of the location selector *)

Lemma StronglySorted_strict (l : list cell) :
  StronglySorted sort_le l -> NoDup l ->
  StronglySorted (fun a b => cell_compare a b = Lt) l.
Proof.
  induction 1 as [| x l Hs IH Hall]; intros Hnd; constructor;
    inversion Hnd as [| ? ? Hx Hl]; subst; auto.
  rewrite Forall_forall in *. intros y Hy. specialize (Hall y Hy).
  unfold sort_le in Hall.
  destruct (cell_compare x y) eqn:E; try congruence.
  apply cell_compare_eq in E. subst y. contradiction.
Qed.

Lemma group_keys_ascending (key : Row -> cell) (rs : list Row) :
  StronglySorted (fun a b => cell_compare a b = Lt) (group_keys key rs).
Proof.
  apply StronglySorted_strict; [| apply group_keys_NoDup].
  unfold group_keys.
  pose proof (take_argsort_sorted stable_argsort_spec
                (fun c : cell => c) (unique (map key rs))) as H.
  now rewrite !map_id in H.
Qed.

Lemma group_rows_nonempty_iff (loc : Row -> cell) (g : cell) (rs : list Row) :
  group_rows loc g rs <> [] <->
  existsb (fun r => cell_eqb (loc r) g) rs = true.
Proof.
  split.
  - intros H. destruct (existsb _ rs) eqn:E; auto.
    exfalso. apply H. now apply existsb_group.
  - apply group_nonempty.
Qed.

(** X6: the options offered by the location selector are in strictly
    ascending order, hence without repetition, and a string is an
    option exactly when the country slice of that string has at least
    one row. *)
Theorem options_are_the_sliceable_locations (d : DataFrame)
    (options : list cell) :
  location_options d = Ok options ->
  StronglySorted (fun a b => cell_compare a b = Lt) options /\
  NoDup options /\
  (forall country,
      In (Str country) options <->
      exists t, sliceByLocation d country = Ok t /\ rows t <> []).
Proof.
  unfold location_options, sliceByLocation.
  destruct (getitem d "location") as [loc | e]; simpl; [| discriminate].
  destruct (same_kind (series loc d)); [| discriminate].
  intros [= <-].
  split; [apply group_keys_ascending |].
  split; [apply group_keys_NoDup |].
  intros country. split.
  - intros H. apply group_keys_In in H. destruct H as [_ H].
    eexists. split; [reflexivity |]. simpl.
    now apply (group_rows_nonempty_iff loc (Str country)).
  - intros [t [[= <-] Hne]]. simpl in Hne.
    apply In_group_keys; [reflexivity |].
    now apply (group_rows_nonempty_iff loc (Str country)).
Qed.

Lemma options_are_the_sliceable_locations_witness :
  StronglySorted (fun a b => cell_compare a b = Lt) [Str "A"; Str "B"] /\
  NoDup [Str "A"; Str "B"] /\
  (forall country,
      In (Str country) [Str "A"; Str "B"] <->
      exists t, sliceByLocation two_countries country = Ok t /\ rows t <> []).
Proof.
  apply (@options_are_the_sliceable_locations two_countries).
  reflexivity.
Defined.

(** ** The sidebar filters with their widgets *)

Lemma get_loc_inj (a b : string) (cols : list string) (k : nat) :
  get_loc a cols = Some k -> get_loc b cols = Some k -> a = b.
Proof.
  revert k. induction cols as [| c cols IH]; intros k; simpl; [discriminate |].
  destruct (String.eqb c a) eqn:Ea, (String.eqb c b) eqn:Eb.
  - apply String.eqb_eq in Ea, Eb. congruence.
  - intros [= <-]. destruct (get_loc b cols); discriminate.
  - intros H [= <-]. destruct (get_loc a cols); discriminate.
  - destruct (get_loc a cols) as [ka |] eqn:Ha; [| discriminate].
    destruct (get_loc b cols) as [kb |] eqn:Hb; [| discriminate].
    simpl. intros [= <-] [= Hk]. subst kb. now apply (IH ka).
Qed.

(** The coercion of the dates leaves the other columns as they are. *)
Lemma coerce_dates_other_column (parse : cell -> option Z) (d : DataFrame)
    (name : string) (k : nat) :
  get_loc name (columns d) = Some k -> name <> "date"%string ->
  series (iloc k) (coerce_dates parse d) = series (iloc k) d.
Proof.
  intros Hk Hname. unfold coerce_dates.
  destruct (get_loc "date" (columns d)) as [kd |] eqn:Hkd; auto.
  assert (Hne : k <> kd).
  { intros ->. apply Hname. now apply (get_loc_inj _ _ _ Hk Hkd). }
  unfold series, assign_column. simpl. rewrite map_map.
  apply map_ext. intros r. unfold iloc. simpl.
  now apply nth_map_nth_ne.
Qed.

Lemma group_keys_map (key key' : Row -> cell) (rs rs' : list Row) :
  map key rs = map key' rs' -> group_keys key rs = group_keys key' rs'.
Proof. unfold group_keys. now intros ->. Qed.

Lemma option_offered (key : Row -> cell) (rs : list Row) (s : string) :
  existsb (fun o => cell_eqb o (Str s)) (group_keys key rs) = true <->
  In (Str s) (map key rs).
Proof.
  split.
  - intros H. apply existsb_exists in H. destruct H as [o [Ho He]].
    apply cell_eqb_true in He. destruct He as [-> _].
    apply group_keys_In in Ho. destruct Ho as [_ Ho].
    apply existsb_exists in Ho. destruct Ho as [r [Hr He]].
    apply cell_eqb_true in He. destruct He as [<- _]. now apply in_map.
  - intros H. apply existsb_exists. exists (Str s).
    split; [| now apply cell_eqb_refl].
    apply In_group_keys; [reflexivity |].
    apply in_map_iff in H. destruct H as [r [Hr Hin]].
    apply existsb_exists. exists r. split; auto.
    rewrite Hr. now apply cell_eqb_refl.
Qed.





(** When the block returns a table, it is the table of the filter block
    on the coerced frame for what the user chose. *)
Lemma sidebar_filters_Ok (parse : cell -> option Z) (d : DataFrame)
    (locations : list string) (picked : option (Z * Z)) (t : DataFrame) :
  sidebar_filters parse d locations picked = Ok t ->
  filterBySelection (coerce_dates parse d) locations picked = Ok t.
Proof.
  unfold sidebar_filters, filterBySelection.
  destruct (location_options (coerce_dates parse d)) as [options |];
    cbn [bind]; [| discriminate].
  unfold multiselect. destruct (forallb _ _); cbn [bind]; [| discriminate].
  destruct (filter_locations (coerce_dates parse d) locations) as [d1 |];
    simpl; [| discriminate].
  destruct (date_col_of (coerce_dates parse d)) as [dc |]; auto.
  destruct (getitem d1 dc) as [date |]; simpl; [| discriminate].
  destruct (checked_min (series date d1)) as [lo |]; simpl; [| discriminate].
  destruct (checked_max (series date d1)) as [hi |]; simpl; [| discriminate].
  destruct lo; simpl; try discriminate.
  destruct hi; simpl; try discriminate. auto.
Qed.

(** The least and the greatest date of a datetime column are
    timestamps when the column has a date, and missing otherwise. *)
Lemma datetime_extremes (cs : list cell) :
  datetime_dtype cs = true ->
  (existsb notna cs = true ->
   exists lo hi, series_min cs = Timestamp lo /\ series_max cs = Timestamp hi) /\
  (existsb notna cs = false -> series_min cs = NA /\ series_max cs = NA).
Proof.
  intros Hdt. unfold datetime_dtype in Hdt. rewrite forallb_forall in Hdt.
  assert (Hts : forall m, In m cs -> notna m = true -> exists t, m = Timestamp t).
  { intros m Hm Hn. specialize (Hdt m Hm).
    destruct m; try discriminate; eauto. }
  split.
  - intros Hex. apply existsb_exists in Hex. destruct Hex as [c [Hc Hn]].
    destruct (fold_min_spec cs NA) as [[Hmin | Hmin] [_ Hlow]];
      destruct (Hlow c Hc Hn) as [Hnmin _].
    + unfold series_min in *. rewrite Hmin in Hnmin. discriminate.
    + destruct (Hts _ Hmin Hnmin) as [lo Hlo].
      destruct (series_max_upper cs c Hc Hn) as [Hnmax _].
      pose proof (series_max_In cs c Hc Hn) as Hmax.
      destruct (Hts _ Hmax Hnmax) as [hi Hhi].
      exists lo, hi. split; [exact Hlo | exact Hhi].
  - intros Hex.
    assert (Hall : forall c, In c cs -> c = NA).
    { intros c Hc. destruct (notna c) eqn:Hn.
      - assert (existsb notna cs = true)
          by (apply existsb_exists; eauto). congruence.
      - destruct c; try discriminate; reflexivity. }
    split; [| now apply series_max_all_missing].
    destruct (fold_min_spec cs NA) as [[Hmin | Hmin] _]; auto.
Qed.

Lemma existsb_map_filter (f : Row -> cell) (p : Row -> bool) (rs : list Row) :
  existsb notna (map f (filter p rs))
  = existsb (fun r => p r && notna (f r)) rs.
Proof.
  induction rs as [| r rs IH]; simpl; auto.
  destruct (p r); simpl; now rewrite IH.
Qed.

(** X16: on a table whose locations are of one kind and include the two
    defaults of the selector, and that has a [date] column, the block
    of lines 153-177 raises at the date widget exactly when no row of a
    selected location has a date after the coercion; otherwise it
    returns, in input order, the coerced rows whose location is
    selected and, when a pair of dates was picked, whose date lies
    within it, which is the table of the filter block for what the
    widgets gave back. *)
Theorem sidebar_filters_cases (parse : cell -> option Z) (d : DataFrame)
    (locations : list string) (picked : option (Z * Z)) (kl kd : nat) :
  get_loc "location" (columns d) = Some kl ->
  get_loc "date" (columns d) = Some kd ->
  same_kind (series (iloc kl) d) = true ->
  In (Str "India") (series (iloc kl) d) ->
  In (Str "United States") (series (iloc kl) d) ->
  sidebar_filters parse d locations picked
  = (if existsb (fun r => isin locations (iloc kl r) && notna (iloc kd r))
                (rows (coerce_dates parse d))
     then Ok (mask_rows (selected locations picked (iloc kl) (iloc kd))
                        (coerce_dates parse d))
     else Raise (WidgetError "date_input")) /\
  (forall t, sidebar_filters parse d locations picked = Ok t ->
             filterBySelection (coerce_dates parse d) locations picked = Ok t).
Proof.
  intros Hkl Hkd Hkind Hin Hus. split; [| apply sidebar_filters_Ok].
  set (d0 := coerce_dates parse d).
  assert (Hkl0 : get_loc "location" (columns d0) = Some kl)
    by (unfold d0; now rewrite coerce_dates_columns).
  assert (Hkd0 : get_loc "date" (columns d0) = Some kd)
    by (unfold d0; now rewrite coerce_dates_columns).
  assert (Hdt : datetime_dtype (series (iloc kd) d0) = true)
    by (apply (coerce_dates_coerced parse d); exact Hkd0).
  assert (Hser : series (iloc kl) d0 = series (iloc kl) d)
    by (apply coerce_dates_other_column with (name := "location"%string);
        [exact Hkl | discriminate]).
  pose proof (filterBySelection_selected d0 locations picked Hkl0 Hkd0 Hdt)
    as Hsel.
  unfold filterBySelection in Hsel.
  unfold sidebar_filters. fold d0.
  unfold location_options, getitem at 1. rewrite Hkl0. cbn [bind].
  rewrite Hser, Hkind. cbn [bind].
  unfold multiselect. cbn [forallb].
  rewrite (proj2 (option_offered (iloc kl) (rows d0) "India"))
    by exact (eq_ind_r (In _) Hin Hser).
  rewrite (proj2 (option_offered (iloc kl) (rows d0) "United States"))
    by exact (eq_ind_r (In _) Hus Hser).
  cbn [andb bind].
  unfold date_col_of in *. rewrite Hkd0 in *.
  unfold filter_locations, getitem in *. rewrite Hkl0 in *. cbn [bind] in *.
  cbn [mask_rows columns] in *. rewrite Hkd0 in *. cbn [bind] in *.
  set (d1 := mask_rows (fun r => isin locations (iloc kl r)) d0) in *.
  assert (Hdt1 : datetime_dtype (series (iloc kd) d1) = true)
    by (apply datetime_dtype_filter; exact Hdt).
  unfold checked_min, checked_max in *.
  rewrite (datetime_same_kind _ Hdt1) in *. cbn [bind] in *.
  destruct (datetime_extremes _ Hdt1) as [Hsome Hnone].
  assert (Hex : existsb notna (series (iloc kd) d1)
                = existsb (fun r => isin locations (iloc kl r)
                                    && notna (iloc kd r)) (rows d0))
    by apply existsb_map_filter.
  rewrite Hex in Hsome, Hnone.
  destruct (existsb (fun r => isin locations (iloc kl r) && notna (iloc kd r))
                    (rows d0)).
  - destruct (Hsome eq_refl) as [lo [hi [Hlo Hhi]]].
    rewrite Hlo, Hhi. cbn [date_input bind]. exact Hsel.
  - destruct (Hnone eq_refl) as [Hlo Hhi].
    rewrite Hlo, Hhi. reflexivity.
Qed.

Lemma sidebar_filters_cases_witness :
  sidebar_filters parse_example india_us_table
                  ["United States"; "Peru"]%string (Some (0, 5)%Z)
  = Raise (WidgetError "date_input").
Proof.
  apply (@sidebar_filters_cases parse_example india_us_table
           ["United States"; "Peru"]%string (Some (0, 5)%Z) 0 1);
    try reflexivity; simpl; auto.
Defined.

(** The default locations are offered, one is kept, and its row has a
    date: the block returns the rows of India. *)
Example sidebar_filters_india :
  sidebar_filters parse_example india_us_table ["India"%string] None
  = Ok (mkDF ["location"; "date"; "total_cases"]%string
          [ mkRow 0 [Str "India"; Timestamp 18628; Num 7] ]).
Proof. reflexivity. Qed.

(** A table that lacks one of the two defaults stops at the selector. *)
Example sidebar_filters_without_defaults :
  sidebar_filters parse_example two_countries ["A"%string] None
  = Raise (WidgetError "multiselect").
Proof. reflexivity. Qed.

(** ** The table of the map *)

(** What a successful call went through. *)
Lemma latestPerLocation_Ok (argsort : list cell -> list nat) (d : DataFrame)
    (date_col : option string) (out : DataFrame) :
  latestPerLocation argsort date_col d = Ok out ->
  exists dc kd kl,
    date_col = Some dc /\
    get_loc dc (columns d) = Some kd /\
    get_loc "location" (columns d) = Some kl /\
    same_kind (series (iloc kd) d) = true /\
    out = mkDF (columns d)
               (groupby_tail1 (iloc kl) (sort_rows argsort (iloc kd) (rows d))).
Proof.
  unfold latestPerLocation. destruct date_col as [dc |]; [| discriminate].
  unfold sort_values.
  destruct (getitem d dc) as [date |] eqn:Hd; simpl; [| discriminate].
  apply getitem_Ok in Hd. destruct Hd as [kd [Hkd ->]].
  destruct (same_kind (series (iloc kd) d)) eqn:Hk; simpl; [| discriminate].
  unfold getitem. simpl.
  destruct (get_loc "location" (columns d)) as [kl |] eqn:Hkl; simpl;
    [| discriminate].
  intros [= <-]. exists dc, kd, kl. auto.
Qed.

Lemma StronglySorted_tail1 (R : Row -> Row -> Prop) (key : Row -> cell)
    (l : list Row) :
  StronglySorted R l -> StronglySorted R (groupby_tail1 key l).
Proof.
  induction 1 as [| r l Hs IH Hall]; simpl; [constructor |].
  destruct (notna (key r) && negb (existsb _ l)); auto.
  constructor; auto.
  rewrite Forall_forall in *. intros y Hy.
  apply tail1_In in Hy. apply Hall. tauto.
Qed.

(** X7: the table of the map lists its rows in ascending order of the
    date column, rows with a missing date last, for any sorter that
    meets the contract of [argsort]. *)
Theorem latest_table_in_date_order (argsort : list cell -> list nat)
    (d out : DataFrame) (dc : string) (date : Row -> cell) :
  argsort_spec argsort ->
  latestPerLocation argsort (Some dc) d = Ok out ->
  getitem d dc = Ok date ->
  StronglySorted sort_le (series date out).
Proof.
  intros Hspec Hout Hdate.
  apply latestPerLocation_Ok in Hout.
  destruct Hout as [dc' [kd [kl [[= <-] [Hkd [_ [_ ->]]]]]]].
  apply getitem_Ok in Hdate. destruct Hdate as [k [Hk ->]].
  rewrite Hkd in Hk. injection Hk as <-.
  unfold series. simpl. apply StronglySorted_map.
  apply StronglySorted_tail1.
  apply (proj1 (StronglySorted_map sort_le (iloc kd) _)).
  now apply sort_rows_sorted.
Qed.

Lemma latest_table_in_date_order_witness :
  StronglySorted sort_le
    (series (iloc 1)
       (mkDF ["location"; "date"; "total_cases"]%string
          [ mkRow 2 [Str "B"; Timestamp 1; Num 3];
            mkRow 0 [Str "A"; Timestamp 2; Num 7] ])).
Proof.
  apply (@latest_table_in_date_order stable_argsort two_countries _ "date").
  - apply stable_argsort_spec.
  - reflexivity.
  - reflexivity.
Defined.

Lemma tail1_keys_NoDup (loc : Row -> cell) (l : list Row) :
  NoDup (map loc (groupby_tail1 loc l)).
Proof.
  induction l as [| r l IH]; simpl; [constructor |].
  destruct (notna (loc r)) eqn:En; simpl; auto.
  destruct (existsb (fun r' => cell_eqb (loc r') (loc r)) l) eqn:Ex; simpl;
    auto.
  constructor; auto.
  intros Hin. apply in_map_iff in Hin. destruct Hin as [r' [Heq Hr']].
  apply tail1_In in Hr'. destruct Hr' as [Hr' _].
  assert (existsb (fun r' => cell_eqb (loc r') (loc r)) l = true).
  { apply existsb_exists. exists r'. split; auto.
    rewrite Heq. now apply cell_eqb_refl. }
  congruence.
Qed.

Lemma tail1_keys_In (loc : Row -> cell) (l : list Row) (g : cell) :
  In g (map loc (groupby_tail1 loc l)) <->
  notna g = true /\ existsb (fun r => cell_eqb (loc r) g) l = true.
Proof.
  split.
  - intros H. apply in_map_iff in H. destruct H as [r [<- Hr]].
    apply tail1_In in Hr. destruct Hr as [Hr Hn]. split; auto.
    apply existsb_exists. exists r. split; auto. now apply cell_eqb_refl.
  - intros [Hn Hex].
    pose proof (tail1_count loc g l) as Hc. rewrite Hex in Hc.
    destruct (group_rows loc g (groupby_tail1 loc l)) as [| r rest] eqn:E;
      [discriminate |].
    assert (Hr : In r (group_rows loc g (groupby_tail1 loc l)))
      by (rewrite E; simpl; auto).
    apply filter_In in Hr. destruct Hr as [Hr Hg].
    apply cell_eqb_true in Hg. destruct Hg as [<- _]. now apply in_map.
Qed.

(** X8: the table of the map has exactly one row for each option of the
    location selector: its locations are the options, each once. *)
Theorem latest_table_has_one_row_per_option (argsort : list cell -> list nat)
    (d out : DataFrame) (date_col : option string) (options : list cell)
    (loc : Row -> cell) :
  argsort_spec argsort ->
  latestPerLocation argsort date_col d = Ok out ->
  location_options d = Ok options ->
  getitem d "location" = Ok loc ->
  Permutation (series loc out) options /\
  List.length (rows out) = List.length options.
Proof.
  intros Hspec Hout Hopt Hloc.
  apply latestPerLocation_Ok in Hout.
  destruct Hout as [dc [kd [kl [_ [_ [Hkl [_ ->]]]]]]].
  unfold location_options in Hopt. rewrite Hloc in Hopt. simpl in Hopt.
  destruct (same_kind (series loc d)); [| discriminate].
  injection Hopt as <-.
  apply getitem_Ok in Hloc. destruct Hloc as [k [Hk ->]].
  rewrite Hkl in Hk. injection Hk as <-.
  assert (Hp : Permutation
                 (series (iloc kl)
                    (mkDF (columns d)
                       (groupby_tail1 (iloc kl)
                          (sort_rows argsort (iloc kd) (rows d)))))
                 (group_keys (iloc kl) (rows d))).
  { unfold series. simpl. apply NoDup_Permutation.
    - apply tail1_keys_NoDup.
    - apply group_keys_NoDup.
    - intros g. rewrite tail1_keys_In.
      rewrite (existsb_Permutation _
                 (sort_rows_Permutation Hspec (iloc kd) (rows d))).
      split.
      + intros [Hn Hex]. now apply In_group_keys.
      + apply group_keys_In. }
  split; auto.
  apply Permutation_length in Hp. unfold series in Hp.
  now rewrite length_map in Hp.
Qed.

Lemma latest_table_has_one_row_per_option_witness :
  exists out,
    latestPerLocation stable_argsort (Some "date"%string) two_countries = Ok out /\
    Permutation (series (iloc 0) out) [Str "A"; Str "B"] /\
    List.length (rows out) = 2.
Proof.
  eexists. split; [reflexivity |].
  apply (@latest_table_has_one_row_per_option stable_argsort two_countries _
           (Some "date"%string) [Str "A"; Str "B"] (iloc 0)).
  - apply stable_argsort_spec.
  - reflexivity.
  - reflexivity.
  - reflexivity.
Defined.

(** ** Top countries when no row is dated *)

Lemma take_nil {A : Type} (ix : list nat) : take (@nil A) ix = [].
Proof.
  induction ix as [| i ix IH]; simpl; auto. now destruct i.
Qed.

Lemma nlargest_nil (argsort : list cell -> list nat) (n : nat) :
  nlargest argsort n [] = [].
Proof.
  unfold nlargest. destruct (Nat.eqb n 0); auto.
  simpl. rewrite take_nil. now destruct n.
Qed.

(** X9: when the dataset has rows but none of them carries a date, the
    greatest date is missing, no row equals it, and the top-[n] table is
    returned empty, whatever the sorter. *)
Theorem top_n_of_undated_dataset (argsort : list cell -> list nat)
    (d : DataFrame) (n kd kl km : nat) :
  get_loc "date" (columns d) = Some kd ->
  get_loc "location" (columns d) = Some kl ->
  get_loc "total_cases" (columns d) = Some km ->
  rows d <> [] ->
  (forall r, In r (rows d) -> iloc kd r = NA) ->
  numeric_dtype (series (iloc km) d) = true ->
  topNByMetric argsort d n = Ok (mkDF ["location"; "total_cases"]%string []).
Proof.
  intros Hkd Hkl Hkm _ Hna Hnum.
  assert (Hall : forall c, In c (series (iloc kd) d) -> c = NA).
  { intros c Hc. apply in_map_iff in Hc. destruct Hc as [r [<- Hr]]. auto. }
  assert (Hdt : datetime_dtype (series (iloc kd) d) = true).
  { apply forallb_forall. intros c Hc. now rewrite (Hall c Hc). }
  unfold topNByMetric, getitem, checked_max.
  rewrite Hkd. simpl. rewrite (datetime_same_kind _ Hdt). simpl.
  rewrite Hkl, Hkm. simpl. rewrite Hnum. simpl.
  rewrite (series_max_all_missing _ Hall).
  rewrite (filter_nil_iff (fun r => cell_eqb (iloc kd r) NA));
    [| intros r _; unfold cell_eqb; simpl; now rewrite andb_false_r].
  unfold groupby_max, group_keys. simpl.
  now rewrite nlargest_nil.
Qed.

Lemma top_n_of_undated_dataset_witness :
  topNByMetric stable_argsort undated_table 10
  = Ok (mkDF ["location"; "total_cases"]%string []).
Proof.
  apply (@top_n_of_undated_dataset stable_argsort undated_table 10 1 0 2);
    try reflexivity.
  - discriminate.
  - intros r [<- | [<- | []]]; reflexivity.
Defined.

(** ** The script from the first read to the map *)

Lemma bind_Ok {A B : Type} (m : Result A) (k : A -> Result B) (b : B) :
  bind m k = Ok b -> exists a, m = Ok a /\ k a = Ok b.
Proof. destruct m as [a | e]; simpl; [eauto | discriminate]. Qed.

(** What a run that reaches the map went through; the second coercion
    is dropped, the frame being coerced already. *)
Lemma dashboard_Ok (argsort : list cell -> list nat)
    (parse : cell -> option Z) (csv1 csv2 : Result DataFrame)
    (country : string) (locations : list string)
    (date_range : option (Z * Z)) (b : Dashboard) :
  dashboard argsort parse csv1 country locations date_range csv2 = Ok b ->
  exists raw country_df scatter_df top filtered d2 latest,
    csv1 = Ok raw /\
    sliceByLocation (coerce_dates parse raw) country = Ok country_df /\
    dropna_population (coerce_dates parse raw) = Ok scatter_df /\
    top10 argsort (coerce_dates parse raw) = Ok top /\
    filterBySelection (coerce_dates parse raw) locations date_range
    = Ok filtered /\
    csv2 = Ok d2 /\
    latestPerLocation argsort (date_col_of (coerce_dates parse raw)) d2
    = Ok latest /\
    b = mkDashboard country_df scatter_df top
                    (List.length (rows filtered)) d2 latest.
Proof.
  unfold dashboard, load_dataset. intros H.
  apply bind_Ok in H. destruct H as [d [H1 H]].
  apply bind_Ok in H1. destruct H1 as [raw [Hraw [= <-]]].
  apply bind_Ok in H. destruct H as [country_df [Hc H]].
  apply bind_Ok in H. destruct H as [scatter_df [Hs H]].
  apply bind_Ok in H. destruct H as [top [Ht H]].
  rewrite (coerce_dates_fixed parse (coerce_dates_coerced parse raw)) in H.
  apply bind_Ok in H. destruct H as [filtered [Hf H]].
  apply bind_Ok in H. destruct H as [d2 [Hd2 H]].
  apply bind_Ok in H. destruct H as [latest [Hl [= <-]]].
  exists raw, country_df, scatter_df, top, filtered, d2, latest.
  repeat (split; [assumption |]). reflexivity.
Qed.

Lemma getitem_Ok_In (d : DataFrame) (name : string) (f : Row -> cell) :
  getitem d name = Ok f -> In name (columns d).
Proof.
  intros H. apply getitem_Ok in H. destruct H as [k [Hk _]].
  eapply get_loc_Some_In; eauto.
Qed.

Lemma top10_Ok_columns (argsort : list cell -> list nat) (d t : DataFrame) :
  top10 argsort d = Ok t ->
  In "date"%string (columns d) /\ In "total_cases"%string (columns d).
Proof.
  unfold top10, topNByMetric. intros H.
  apply bind_Ok in H. destruct H as [date [Hd H]].
  apply bind_Ok in H. destruct H as [latest [_ H]].
  apply bind_Ok in H. destruct H as [loc [_ H]].
  apply bind_Ok in H. destruct H as [metric [Hm _]].
  split; eapply getitem_Ok_In; eauto.
Qed.

(** X10: a run of the script that gets as far as the map needs the
    columns [location], [population], [date] and [total_cases] in the
    first file and the columns [date] and [location] in the file read
    again; in particular the branch of line 160 that sets [date_col] to
    [None] is never the one taken on such a run. *)
Theorem dashboard_needs_columns (argsort : list cell -> list nat)
    (parse : cell -> option Z) (csv1 csv2 : Result DataFrame)
    (country : string) (locations : list string)
    (date_range : option (Z * Z)) (b : Dashboard) :
  dashboard argsort parse csv1 country locations date_range csv2 = Ok b ->
  exists raw,
    csv1 = Ok raw /\
    In "location"%string (columns raw) /\
    In "population"%string (columns raw) /\
    In "date"%string (columns raw) /\
    In "total_cases"%string (columns raw) /\
    date_col_of (coerce_dates parse raw) = Some "date"%string /\
    In "date"%string (columns (final_dataset b)) /\
    In "location"%string (columns (final_dataset b)).
Proof.
  intros H. apply dashboard_Ok in H.
  destruct H as [raw [cdf [sdf [top [flt [d2 [latest
                  [Hraw [Hc [Hs [Ht [_ [_ [Hl ->]]]]]]]]]]]]]].
  exists raw. split; auto.
  apply bind_Ok in Hc. destruct Hc as [loc [Hloc _]].
  apply getitem_Ok_In in Hloc.
  apply bind_Ok in Hs. destruct Hs as [pop [Hpop _]].
  apply getitem_Ok_In in Hpop.
  apply top10_Ok_columns in Ht. destruct Ht as [Hdate Hcases].
  rewrite coerce_dates_columns in *.
  assert (Hdc : date_col_of (coerce_dates parse raw) = Some "date"%string).
  { unfold date_col_of. rewrite coerce_dates_columns.
    destruct (get_loc_In _ _ Hdate) as [k ->]. reflexivity. }
  repeat (split; [assumption |]).
  rewrite Hdc in Hl. apply latestPerLocation_Ok in Hl.
  destruct Hl as [dc [kd [kl [[= <-] [Hkd [Hkl _]]]]]]. simpl.
  split; eapply get_loc_Some_In; eauto.
Qed.

(** X11: the table of the map and the dataset the script ends with come
    from the file read again alone: the map is the latest row per
    location of that file by its [date] column, whatever was read first
    and whatever country, locations and dates were chosen. *)
Theorem map_ignores_the_sidebar (argsort : list cell -> list nat)
    (parse : cell -> option Z) (csv1 csv1' csv2 : Result DataFrame)
    (country country' : string) (locations locations' : list string)
    (date_range date_range' : option (Z * Z)) (b b' : Dashboard) :
  dashboard argsort parse csv1 country locations date_range csv2 = Ok b ->
  dashboard argsort parse csv1' country' locations' date_range' csv2 = Ok b' ->
  csv2 = Ok (final_dataset b) /\
  latestPerLocation argsort (Some "date"%string) (final_dataset b)
  = Ok (latest_table b) /\
  final_dataset b' = final_dataset b /\
  latest_table b' = latest_table b.
Proof.
  intros H H'.
  assert (Hrun : forall c1 c l r x,
             dashboard argsort parse c1 c l r csv2 = Ok x ->
             csv2 = Ok (final_dataset x) /\
             latestPerLocation argsort (Some "date"%string) (final_dataset x)
             = Ok (latest_table x)).
  { intros c1 c l r x Hx. apply dashboard_Ok in Hx.
    destruct Hx as [raw [cdf [sdf [top [flt [d2 [latest
                     [_ [_ [_ [Ht [_ [Hd2 [Hl ->]]]]]]]]]]]]]].
    apply top10_Ok_columns in Ht. destruct Ht as [Hdate _].
    unfold date_col_of in Hl.
    destruct (get_loc_In _ _ Hdate) as [k Hk]. rewrite Hk in Hl.
    simpl. auto. }
  destruct (Hrun _ _ _ _ _ H) as [H1 H2].
  destruct (Hrun _ _ _ _ _ H') as [H1' H2'].
  split; auto. split; auto.
  assert (Hd : final_dataset b' = final_dataset b) by congruence.
  split; auto. rewrite Hd in H2'. congruence.
Qed.

(** X12: the row count shown among the key metrics is the number of
    rows of the loaded table whose location is selected and, when a
    pair of dates was given, whose date lies within it. *)
Theorem filtered_row_count (argsort : list cell -> list nat)
    (parse : cell -> option Z) (csv1 csv2 : Result DataFrame)
    (country : string) (locations : list string)
    (date_range : option (Z * Z)) (b : Dashboard) :
  dashboard argsort parse csv1 country locations date_range csv2 = Ok b ->
  exists d kl kd,
    load_dataset parse csv1 = Ok d /\
    get_loc "location" (columns d) = Some kl /\
    get_loc "date" (columns d) = Some kd /\
    filtered_rows b
    = List.length (filter (selected locations date_range (iloc kl) (iloc kd))
                          (rows d)) /\
    filtered_rows b <= List.length (rows d).
Proof.
  intros H. apply dashboard_Ok in H.
  destruct H as [raw [cdf [sdf [top [flt [d2 [latest
                  [-> [Hc [_ [Ht [Hf [_ [_ ->]]]]]]]]]]]]]].
  apply bind_Ok in Hc. destruct Hc as [loc [Hloc _]].
  apply getitem_Ok in Hloc. destruct Hloc as [kl [Hkl _]].
  apply top10_Ok_columns in Ht. destruct Ht as [Hdate _].
  destruct (get_loc_In _ _ Hdate) as [kd Hkd].
  exists (coerce_dates parse raw), kl, kd.
  split; [reflexivity |]. split; [assumption |]. split; [assumption |].
  rewrite (filterBySelection_selected _ locations date_range Hkl Hkd) in Hf
    by (now apply coerce_dates_coerced).
  injection Hf as <-. simpl. split; [reflexivity |].
  apply filter_length_le.
Qed.

Lemma dashboard_needs_columns_witness :
  exists b raw,
    dashboard stable_argsort parse_example (Ok owid_sample) "A" ["B"%string]
              None (Ok two_countries) = Ok b /\
    Ok owid_sample = Ok raw /\
    In "location"%string (columns raw) /\
    In "population"%string (columns raw) /\
    In "date"%string (columns raw) /\
    In "total_cases"%string (columns raw) /\
    date_col_of (coerce_dates parse_example raw) = Some "date"%string /\
    In "date"%string (columns (final_dataset b)) /\
    In "location"%string (columns (final_dataset b)).
Proof.
  eexists.
  assert (H : forall b,
             dashboard stable_argsort parse_example (Ok owid_sample) "A"
                       ["B"%string] None (Ok two_countries) = Ok b ->
             exists raw,
               dashboard stable_argsort parse_example (Ok owid_sample) "A"
                         ["B"%string] None (Ok two_countries) = Ok b /\
               Ok owid_sample = Ok raw /\
               In "location"%string (columns raw) /\
               In "population"%string (columns raw) /\
               In "date"%string (columns raw) /\
               In "total_cases"%string (columns raw) /\
               date_col_of (coerce_dates parse_example raw)
               = Some "date"%string /\
               In "date"%string (columns (final_dataset b)) /\
               In "location"%string (columns (final_dataset b))).
  { intros b Hb.
    destruct (dashboard_needs_columns _ _ _ _ _ _ _ Hb) as [raw Hraw].
    exists raw. split; assumption. }
  apply H. reflexivity.
Defined.

Lemma map_ignores_the_sidebar_witness :
  exists b b',
    dashboard stable_argsort parse_example (Ok owid_sample) "A" ["B"%string]
              None (Ok two_countries) = Ok b /\
    dashboard stable_argsort parse_example (Ok owid_sample) "B" []
              (Some (0, 5)%Z) (Ok two_countries) = Ok b' /\
    Ok two_countries = Ok (final_dataset b) /\
    latestPerLocation stable_argsort (Some "date"%string) (final_dataset b)
    = Ok (latest_table b) /\
    final_dataset b' = final_dataset b /\
    latest_table b' = latest_table b.
Proof.
  eexists. eexists.
  split; [reflexivity |]. split; [reflexivity |].
  apply (@map_ignores_the_sidebar stable_argsort parse_example
           (Ok owid_sample) (Ok owid_sample) (Ok two_countries)
           "A" "B" ["B"%string] [] None (Some (0, 5)%Z));
    reflexivity.
Defined.

Lemma filtered_row_count_witness :
  exists b d kl kd,
    dashboard stable_argsort parse_example (Ok owid_sample) "A" ["B"%string]
              None (Ok two_countries) = Ok b /\
    load_dataset parse_example (Ok owid_sample) = Ok d /\
    get_loc "location" (columns d) = Some kl /\
    get_loc "date" (columns d) = Some kd /\
    filtered_rows b
    = List.length (filter (selected ["B"%string] None (iloc kl) (iloc kd))
                          (rows d)) /\
    filtered_rows b <= List.length (rows d).
Proof.
  eexists.
  assert (H : forall b,
             dashboard stable_argsort parse_example (Ok owid_sample) "A"
                       ["B"%string] None (Ok two_countries) = Ok b ->
             exists d kl kd,
               dashboard stable_argsort parse_example (Ok owid_sample) "A"
                         ["B"%string] None (Ok two_countries) = Ok b /\
               load_dataset parse_example (Ok owid_sample) = Ok d /\
               get_loc "location" (columns d) = Some kl /\
               get_loc "date" (columns d) = Some kd /\
               filtered_rows b
               = List.length
                   (filter (selected ["B"%string] None (iloc kl) (iloc kd))
                           (rows d)) /\
               filtered_rows b <= List.length (rows d)).
  { intros b Hb.
    destruct (filtered_row_count _ _ _ _ _ _ _ Hb) as [d [kl [kd Hd]]].
    exists d, kl, kd. split; assumption. }
  apply H. reflexivity.
Defined.

(** ** The diagnostic script on a path with an extension *)

Lemma take_until_app (c : ascii) (l1 l2 : list ascii) :
  forallb (fun x => negb (Ascii.eqb x c)) l1 = true ->
  take_until c (l1 ++ l2) = l1 ++ take_until c l2.
Proof.
  induction l1 as [| x l1 IH]; simpl; auto.
  intros H. apply andb_prop in H. destruct H as [Hx Hl].
  apply negb_true_iff in Hx. rewrite Hx. now rewrite IH.
Qed.

Lemma take_until_hit (c : ascii) (l1 l2 : list ascii) :
  forallb (fun x => negb (Ascii.eqb x c)) l1 = true ->
  take_until c (l1 ++ c :: l2) = l1.
Proof.
  intros H. rewrite take_until_app by exact H. simpl.
  rewrite Ascii.eqb_refl. apply app_nil_r.
Qed.

Lemma forallb_rev {A : Type} (p : A -> bool) (l : list A) :
  forallb p (rev l) = forallb p l.
Proof.
  destruct (forallb p l) eqn:E.
  - rewrite forallb_forall in *. intros x Hx. apply E. now apply in_rev.
  - destruct (forallb p (rev l)) eqn:E'; auto.
    rewrite forallb_forall in E'.
    assert (forallb p l = true)
      by (apply forallb_forall; intros x Hx; apply E'; now apply in_rev in Hx).
    congruence.
Qed.

Lemma plain_no_dot (l : list ascii) :
  forallb plain_char l = true ->
  forallb (fun x => negb (Ascii.eqb x ".")) l = true.
Proof.
  rewrite !forallb_forall. intros H x Hx. specialize (H x Hx).
  unfold plain_char in H. apply andb_prop in H. tauto.
Qed.

Lemma plain_no_slash (l : list ascii) :
  forallb plain_char l = true ->
  forallb (fun x => negb (Ascii.eqb x "/")) l = true.
Proof.
  rewrite !forallb_forall. intros H x Hx. specialize (H x Hx).
  unfold plain_char in H. apply andb_prop in H. tauto.
Qed.

Lemma suffix_of_name_extension (Y E : list ascii) :
  Y <> [] -> E <> [] -> forallb plain_char E = true ->
  suffix_of_name (Y ++ "."%char :: E) = string_of_list_ascii ("."%char :: E).
Proof.
  intros HY HE Hplain. unfold suffix_of_name.
  rewrite existsb_app. simpl. rewrite orb_true_r.
  rewrite rev_app_distr. simpl. rewrite <- app_assoc. simpl.
  rewrite take_until_hit
    by (rewrite forallb_rev; now apply plain_no_dot).
  rewrite rev_involutive, length_app. simpl.
  destruct Y as [| y Y]; [congruence |].
  destruct E as [| e E]; [congruence |]. simpl.
  match goal with
  | |- (if ?a && ?b then _ else _) = _ =>
      assert (Ha : a = true) by (apply Nat.ltb_lt; lia);
      assert (Hb : b = true) by (apply Nat.ltb_lt; lia);
      rewrite Ha, Hb
  end.
  reflexivity.
Qed.

Lemma path_name_extension (stem : string) (c : ascii) (ext : string) :
  c <> "/"%char ->
  forallb plain_char (list_ascii_of_string ext) = true ->
  exists Y, Y <> [] /\
            path_name (stem ++ String c (String "." ext))
            = Y ++ "."%char :: list_ascii_of_string ext.
Proof.
  intros Hc Hplain.
  destruct (@path_name_app stem (String c (String "." ext))) as [Y HY].
  - simpl. apply Ascii.eqb_neq in Hc. rewrite Hc. simpl.
    now apply plain_no_slash.
  - simpl. lia.
  - exists (Y ++ [c]). split.
    + intros H. apply app_eq_nil in H. destruct H as [_ H]. discriminate.
    + rewrite HY. simpl. now rewrite <- app_assoc.
Qed.

Lemma path_suffix_extension (stem : string) (c : ascii) (ext : string) :
  c <> "/"%char -> ext <> EmptyString ->
  forallb plain_char (list_ascii_of_string ext) = true ->
  path_suffix (stem ++ String c (String "." ext)) = String "." ext.
Proof.
  intros Hc He Hplain. unfold path_suffix.
  destruct (path_name_extension stem ext Hc Hplain) as [Y [HY ->]].
  rewrite suffix_of_name_extension; auto.
  - simpl. now rewrite string_of_list_ascii_of_string.
  - destruct ext; [congruence | discriminate].
Qed.

(** X13: for an existing file whose name ends in a dot and an extension
    without dots or slashes, after at least one character of the name,
    the script decides by that extension in lower case alone: [csv] and
    [txt] go to [read_csv], [xlsx] and [xls] to [read_excel], anything
    else is reported as unsupported with status 1.  Once a reader is
    chosen, the exit status is 0 exactly when it returned a table whose
    column labels are all text: an exception of the reader, and a
    label that is a number, end the script with status 1. *)
Theorem main_decides_by_extension (file_exists : string -> bool)
    (read_csv read_excel : string -> Result Table)
    (stem : string) (c : ascii) (ext : string) :
  let arg := (stem ++ String c (String "." ext))%string in
  let path := path_str arg in
  c <> "/"%char -> ext <> EmptyString ->
  forallb plain_char (list_ascii_of_string ext) = true ->
  file_exists path = true ->
  main file_exists read_csv read_excel arg
  = (if str_in (lower ext) ["csv"; "txt"]%string
     then read_and_report read_csv path
     else if str_in (lower ext) ["xlsx"; "xls"]%string
          then read_and_report read_excel path
          else mkOutcome 1 [Unsupported (String "." ext)]) /\
  (forall reader,
     (exit_status (read_and_report reader path) = 0 <->
      exists cols rs, reader path = Ok (mkTable (map Text cols) rs)) /\
     (forall e, reader path = Raise e ->
        read_and_report reader path = mkOutcome 1 [Traceback e]) /\
     (forall t z, reader path = Ok t -> In (Number z) (labels t) ->
        exit_status (read_and_report reader path) = 1)).
Proof.
  intros arg path Hc He Hplain Hex. split.
  - unfold main. fold path. rewrite Hex. simpl.
    unfold arg. rewrite (path_suffix_extension stem Hc He Hplain).
    reflexivity.
  - intros reader. split; [apply read_and_report_status |]. split.
    + intros e He'. unfold read_and_report. now rewrite He'.
    + intros t z Ht Hz. unfold read_and_report. rewrite Ht.
      now rewrite (@report_number path t z Hz).
Qed.

Lemma main_decides_by_extension_witness :
  main (fun _ => true) (fun _ => Ok text_sheet)
       (fun _ => Raise (ReadError "unused")) "data/owid.TXT"
  = read_and_report (fun _ => Ok text_sheet) (path_str "data/owid.TXT").
Proof.
  apply (@main_decides_by_extension (fun _ => true)
           (fun _ => Ok text_sheet)
           (fun _ => Raise (ReadError "unused")) "data/owi" "d" "TXT").
  - discriminate.
  - discriminate.
  - reflexivity.
  - reflexivity.
Defined.

(** ** The column guesses of the diagnostic script *)

Lemma lower_app (a b : string) : lower (a ++ b) = (lower a ++ lower b)%string.
Proof. induction a as [| c a IH]; simpl; congruence. Qed.

Lemma prefix_iff (n h : string) :
  String.prefix n h = true <-> exists b, h = (n ++ b)%string.
Proof.
  revert h. induction n as [| x n IH]; intros h.
  - split; [intros _; exists h; reflexivity | intros _; now destruct h].
  - destruct h as [| y h]; simpl.
    + split; [discriminate | intros [b Hb]; discriminate].
    + destruct (ascii_dec x y) as [-> | Hne].
      * rewrite IH. split; intros [b Hb]; exists b; congruence.
      * split; [discriminate | intros [b Hb]; congruence].
Qed.

Lemma contains_prefix (n h : string) :
  String.prefix n h = true -> contains n h = true.
Proof. intros H. destruct h; cbn [contains]; now rewrite H. Qed.

(** [contains] is the substring test. *)
Lemma contains_iff (n h : string) :
  contains n h = true <-> exists a b, h = (a ++ n ++ b)%string.
Proof.
  split.
  - induction h as [| y h IH]; intros H; cbn [contains] in H;
      apply orb_prop in H; destruct H as [H | H].
    + apply prefix_iff in H. destruct H as [b Hb].
      exists EmptyString, b. exact Hb.
    + discriminate.
    + apply prefix_iff in H. destruct H as [b Hb].
      exists EmptyString, b. exact Hb.
    + destruct (IH H) as [a [b Hab]].
      exists (String y a), b. simpl. congruence.
  - intros [a [b ->]]. induction a as [| y a IH].
    + apply contains_prefix. apply prefix_iff. exists b. reflexivity.
    + change (String y a ++ n ++ b)%string
        with (String y (a ++ n ++ b)%string).
      cbn [contains]. rewrite IH. apply orb_true_r.
Qed.

(** X14: the column guesses are case-insensitive.  A column is listed
    as a date column exactly when its lower-cased name contains [date],
    as a death column exactly when it contains [death]; so a name that
    contains either word in any mix of cases is listed.  The three
    location names contain neither word: a column listed as a location
    column is never listed as a date or death column. *)
Theorem column_guesses (cols : list string) :
  (forall c, In c (date_columns cols) <->
             In c cols /\ exists a b, lower c = (a ++ "date" ++ b)%string) /\
  (forall c, In c (death_columns cols) <->
             In c cols /\ exists a b, lower c = (a ++ "death" ++ b)%string) /\
  (forall c a x b, In c cols -> c = (a ++ x ++ b)%string ->
                   (lower x = "date"%string -> In c (date_columns cols)) /\
                   (lower x = "death"%string -> In c (death_columns cols))) /\
  (forall c, In c (location_columns cols) ->
             ~ In c (date_columns cols) /\ ~ In c (death_columns cols)).
Proof.
  assert (Hdate : forall c, In c (date_columns cols) <->
             In c cols /\ exists a b, lower c = (a ++ "date" ++ b)%string).
  { intros c. unfold date_columns. rewrite filter_In, contains_iff. tauto. }
  assert (Hdeath : forall c, In c (death_columns cols) <->
             In c cols /\ exists a b, lower c = (a ++ "death" ++ b)%string).
  { intros c. unfold death_columns. rewrite filter_In, contains_iff. tauto. }
  split; [exact Hdate |]. split; [exact Hdeath |]. split.
  - intros c a x b Hc ->. split; intros Hx.
    + apply Hdate. split; auto. exists (lower a), (lower b).
      now rewrite !lower_app, Hx.
    + apply Hdeath. split; auto. exists (lower a), (lower b).
      now rewrite !lower_app, Hx.
  - intros c Hc. unfold location_columns in Hc. apply filter_In in Hc.
    destruct Hc as [_ Hc]. unfold date_columns, death_columns.
    rewrite !filter_In. unfold str_in in Hc. simpl in Hc.
    rewrite orb_false_r in Hc.
    apply orb_prop in Hc. destruct Hc as [Hc | Hc];
      [| apply orb_prop in Hc; destruct Hc as [Hc | Hc]];
      apply String.eqb_eq in Hc; rewrite Hc;
      split; intros [_ H]; vm_compute in H; discriminate.
Qed.

(** ** Equal totals among the top countries *)





Example top_two_with_a_tie :
  topNByMetric reversing_argsort tied_table 2
  = Ok (mkDF ["location"; "total_cases"]%string
          [ mkRow 0 [Str "B"; Num 8];
            mkRow 1 [Str "A"; Num 7] ]).
Proof. reflexivity. Qed.
